(** * A shallow embedding of the crawl engine of [main.py]

  The development follows class [ScraperWorker]: the URL predicates
  ([is_valid_url], [normalize_url], [is_internal_link]), the downloader
  ([download_file]), the per-page step ([scrape_page]) and the crawl loop
  ([run]).  Python strings are modelled as [string] (code points below
  256), Python sets as [gset], dictionaries as [gmap], lists as [list].
  Everything the worker does not compute itself (the network, the HTML
  parser, [urljoin], the stop flag written by the GUI thread) is supplied
  by a [World].  The helper extractors ([extract_emails],
  [extract_phones], [extract_meta_info]), the naming of the download
  folder and, from [WebScraperApp], the preparation of the seed URL and
  [format_size] are embedded on their own, after the worker. *)

From Stdlib Require Import Ascii String ZArith Lia HexadecimalString.
From stdpp Require Import gmap strings list fin_maps pretty.

Local Open Scope Z_scope.
Local Open Scope nat_scope.

(** ** Python string primitives *)

Module Py.

(** The result of a call that may raise: [Raise msg] carries [str(e)]. *)
Inductive Exc (A : Type) : Type :=
| Ok (a : A)
| Raise (msg : string).
Global Arguments Ok {A} a.
Global Arguments Raise {A} msg.

Definition chars (s : string) : list ascii := String.list_ascii_of_string s.

(** [s.startswith(p)] and [s.endswith(p)]. *)
Definition startswith (p s : string) : bool := String.prefix p s.
Definition endswith (p s : string) : bool :=
  bool_decide (chars p `suffix_of` chars s).

(** [c in s] for a one-character [c]. *)
Fixpoint contains (c : ascii) (s : string) : bool :=
  match s with
  | EmptyString => false
  | String a s' => if Ascii.eqb a c then true else contains c s'
  end.

(** [break_at p s] cuts [s] in front of its first character satisfying
    [p]: the part before it, and the rest (empty when there is none). *)
Fixpoint break_at (p : ascii -> bool) (s : string) : string * string :=
  match s with
  | EmptyString => (EmptyString, EmptyString)
  | String a s' =>
      if p a then (EmptyString, s)
      else let '(l, r) := break_at p s' in (String a l, r)
  end.

(** [s[1:]]. *)
Definition tail (s : string) : string :=
  match s with EmptyString => EmptyString | String _ s' => s' end.

(** [str.lower] on code points below 256. *)
Definition lower_char (c : ascii) : ascii :=
  let n := nat_of_ascii c in
  if ((65 <=? n) && (n <=? 90)) || ((192 <=? n) && (n <=? 222) && negb (n =? 215))
  then ascii_of_nat (n + 32) else c.

Fixpoint map_chars (f : ascii -> ascii) (s : string) : string :=
  match s with
  | EmptyString => EmptyString
  | String a s' => String (f a) (map_chars f s')
  end.

Definition lower (s : string) : string := map_chars lower_char s.

(** [str.isspace] on one code point below 256. *)
Definition isspace (c : ascii) : bool :=
  let n := nat_of_ascii c in
  ((9 <=? n) && (n <=? 13)) || ((28 <=? n) && (n <=? 32))
  || (n =? 133) || (n =? 160).

Fixpoint lstrip (s : string) : string :=
  match s with
  | EmptyString => EmptyString
  | String a s' => if isspace a then lstrip s' else s
  end.

(** [s.strip()]. *)
Definition strip (s : string) : string :=
  String.rev (lstrip (String.rev (lstrip s))).

(** [s.split(sep)[-1]] for a one-character [sep]: what follows the last
    occurrence of [sep], or all of [s]. *)
Fixpoint after_last (sep : ascii) (s : string) : string :=
  match s with
  | EmptyString => EmptyString
  | String a s' =>
      if Ascii.eqb a sep || contains sep s' then after_last sep s' else s
  end.

(** [s.split('//')[-1]]: the separators are found left to right and do
    not overlap. *)
Fixpoint after_last_dslash (cur : string) (s : string) : string :=
  match s with
  | String "/" (String "/" s') => after_last_dslash s' s'
  | String _ s' => after_last_dslash cur s'
  | EmptyString => cur
  end.

(** [s.replace(a, b)] for one-character [a] and [b]. *)
Definition replace_char (a b : ascii) (s : string) : string :=
  map_chars (fun c => if Ascii.eqb c a then b else c) s.

End Py.
Export Py (Exc, Ok, Raise).

(** ** [urllib.parse], [ipaddress] and [os.path]

  [urlsplit] and [urlparse] follow the [urllib.parse] of CPython 3.11
  (with [_check_bracketed_netloc]) for a [str] argument, statement by
  statement: the stripping of leading
  control characters and spaces, the removal of tab, CR and LF, scheme
  detection, [_splitnetloc], the checks of a network location with
  brackets (which ask [ipaddress.ip_address] about the host and raise
  [ValueError]), then fragment, query and (in [urlparse]) the parameters
  of the last path segment.  [_checknetloc] is the identity on the strings
  modelled here: it raises only when the NFKC form of a non-ASCII network
  location contains one of [/?#@:], and no string of code points below 256
  has such a form.  [os.path] is [posixpath]. *)

Module Url.
Import Py.

Record ParseResult : Type := {
  scheme : string;
  netloc : string;
  path : string;
  params : string;
  query : string;
  fragment : string
}.

Definition is_ascii_alpha (c : ascii) : bool :=
  let n := nat_of_ascii c in
  ((65 <=? n) && (n <=? 90)) || ((97 <=? n) && (n <=? 122)).

Definition is_digit (c : ascii) : bool :=
  let n := nat_of_ascii c in (48 <=? n) && (n <=? 57).

(** [scheme_chars]: letters, digits and [+-.]. *)
Definition is_scheme_char (c : ascii) : bool :=
  is_ascii_alpha c || is_digit c
  || Ascii.eqb c "+" || Ascii.eqb c "-" || Ascii.eqb c ".".

Fixpoint all_chars (p : ascii -> bool) (s : string) : bool :=
  match s with
  | EmptyString => true
  | String a s' => p a && all_chars p s'
  end.

(** [s.partition(c)] for a one-character [c]: the text before the first
    [c], whether there is one, and the text after it. *)
Definition partition (c : ascii) (s : string) : string * bool * string :=
  let '(l, r) := break_at (Ascii.eqb c) s in
  match r with
  | EmptyString => (l, false, EmptyString)
  | String _ r' => (l, true, r')
  end.

(** [s.split(c)] for a one-character [c]. *)
Fixpoint split (c : ascii) (s : string) : list string :=
  match s with
  | EmptyString => [EmptyString]
  | String a s' =>
      if Ascii.eqb a c then EmptyString :: split c s'
      else match split c s' with
           | p :: ps => String a p :: ps
           | [] => [String a EmptyString]
           end
  end.

(** ['%x' % n]. *)
Definition hex (n : nat) : string :=
  HexadecimalString.NilZero.string_of_uint (N.to_hex_uint (N.of_nat n)).

(** [repr(s)] of a [str]: the quote is the apostrophe, unless [s] has an
    apostrophe and no double quote; the quote and the backslash are
    escaped, and so is every character that is not printable. *)
Definition dquote : ascii := "034".
Definition backslash : ascii := "092".

Definition isprintable (c : ascii) : bool :=
  let n := nat_of_ascii c in
  ((32 <=? n) && (n <? 127)) || ((161 <=? n) && negb (n =? 173)).

Definition repr_char (quote c : ascii) : string :=
  let n := nat_of_ascii c in
  if Ascii.eqb c quote || Ascii.eqb c backslash then String backslash (String c "")
  else if n =? 9 then String backslash "t"
  else if n =? 10 then String backslash "n"
  else if n =? 13 then String backslash "r"
  else if isprintable c then String c ""
  else String backslash ("x" +:+ (if n <? 16 then "0" else "") +:+ hex n).

Fixpoint repr_chars (quote : ascii) (s : string) : string :=
  match s with
  | EmptyString => EmptyString
  | String a s' => repr_char quote a +:+ repr_chars quote s'
  end.

Definition repr (s : string) : string :=
  let quote := if contains "'" s && negb (contains dquote s) then dquote else "'"%char in
  String quote (repr_chars quote s +:+ String quote "").

(** *** [ipaddress]: is the text an IPv4 or an IPv6 address?

  [IPv4Address(s)] and [IPv6Address(s)] either build an address or raise
  [AddressValueError]; [ip_address] tries them in this order.  The checks
  are those of [_ip_int_from_string], [_parse_octet], [_split_scope_id]
  and [_parse_hextet], in the order of the source; [None] stands for the
  exception. *)

Module Ipaddress.

Inductive Version : Type := IPv4 | IPv6.

Definition is_hex_digit (c : ascii) : bool :=
  let n := nat_of_ascii c in
  is_digit c || ((65 <=? n) && (n <=? 70)) || ((97 <=? n) && (n <=? 102)).

(** [int(s, 10)] for a string of decimal digits. *)
Definition int10 (s : string) : nat :=
  fold_left (fun acc c => 10 * acc + (nat_of_ascii c - 48)) (chars s) 0.

(** [_parse_octet]. *)
Definition parse_octet (octet_str : string) : option nat :=
  if bool_decide (octet_str = EmptyString) then None
  else if negb (all_chars is_digit octet_str) then None
  else if 3 <? String.length octet_str then None
  else if negb (bool_decide (octet_str = "0")) && startswith "0" octet_str then None
  else if 255 <? int10 octet_str then None
  else Some (int10 octet_str).

(** [IPv4Address(s)._ip]: the address as a number. *)
Definition ipv4_int (addr_str : string) : option nat :=
  if contains "/" addr_str then None
  else if bool_decide (addr_str = EmptyString) then None
  else
    match map parse_octet (split "." addr_str) with
    | [Some a; Some b; Some c; Some d] =>
        Some (((a * 256 + b) * 256 + c) * 256 + d)
    | _ => None
    end.

(** [_parse_hextet]: [int('', 16)] raises [ValueError] as well. *)
Definition parse_hextet (hextet_str : string) : bool :=
  all_chars is_hex_digit hextet_str
  && (String.length hextet_str <=? 4)
  && negb (bool_decide (hextet_str = EmptyString)).

(** [_split_scope_id]: the address in front of a [%], when the scope
    identifier after it is not empty and has no other [%]. *)
Definition split_scope_id (ip_str : string) : option string :=
  let '(addr, sep, scope_id) := partition "%" ip_str in
  if negb sep then Some addr
  else if bool_decide (scope_id = EmptyString) || contains "%" scope_id then None
  else Some addr.

(** The IPv4-style suffix: the last part, when it has a dot, is replaced
    by its two hextets. *)
Definition ipv4_suffix (parts : list string) : option (list string) :=
  match last parts with
  | Some p =>
      if contains "." p then
        match ipv4_int p with
        | Some n =>
            Some (removelast parts
                  ++ [hex ((n / (256 * 256)) mod (256 * 256)); hex (n mod (256 * 256))])
        | None => None
        end
      else Some parts
  | None => Some parts
  end.

(** The indices [i] in [range(1, len(parts) - 1)] with an empty part. *)
Definition skip_indices (parts : list string) : list nat :=
  filter (fun i => parts !! i = Some EmptyString) (seq 1 (length parts - 2)).

Definition first_empty (parts : list string) : bool :=
  bool_decide (head parts = Some EmptyString).
Definition last_empty (parts : list string) : bool :=
  bool_decide (last parts = Some EmptyString).

(** [IPv6._ip_int_from_string], as a test: does it return? *)
Definition ipv6_ok (ip_str : string) : bool :=
  if bool_decide (ip_str = EmptyString) then false
  else
    let parts := split ":" ip_str in
    if length parts <? 3 then false
    else
      match ipv4_suffix parts with
      | None => false
      | Some parts =>
          if 9 <? length parts then false
          else
            match skip_indices parts with
            | [] =>
                (length parts =? 8)
                && negb (first_empty parts) && negb (last_empty parts)
                && forallb parse_hextet parts
            | [skip_index] =>
                let parts_hi :=
                  if first_empty parts then skip_index - 1 else skip_index in
                let parts_lo :=
                  if last_empty parts then length parts - skip_index - 1 - 1
                  else length parts - skip_index - 1 in
                if first_empty parts && negb (parts_hi =? 0) then false
                else if last_empty parts && negb (parts_lo =? 0) then false
                else if 8 - (parts_hi + parts_lo) <? 1 then false
                else forallb parse_hextet (take parts_hi parts)
                     && forallb parse_hextet (drop (length parts - parts_lo) parts)
            | _ => false
            end
      end.

(** [IPv6Address(s)] returns. *)
Definition is_ipv6 (addr_str : string) : bool :=
  if contains "/" addr_str then false
  else
    match split_scope_id addr_str with
    | Some addr => ipv6_ok addr
    | None => false
    end.

(** [ip_address(s)]: the version of the address, or [None] for the
    [ValueError]. *)
Definition ip_address (address : string) : option Version :=
  match ipv4_int address with
  | Some _ => Some IPv4
  | None => if is_ipv6 address then Some IPv6 else None
  end.

End Ipaddress.

(** [url.lstrip(_WHATWG_C0_CONTROL_OR_SPACE)]: the code points 0 to 32. *)
Fixpoint lstrip_c0 (url : string) : string :=
  match url with
  | EmptyString => EmptyString
  | String a s' => if nat_of_ascii a <=? 32 then lstrip_c0 s' else url
  end.

(** [_UNSAFE_URL_BYTES_TO_REMOVE]: tab, CR and LF. *)
Definition is_unsafe (c : ascii) : bool :=
  let n := nat_of_ascii c in (n =? 9) || (n =? 13) || (n =? 10).

(** [url.replace(b, '')] for each of them. *)
Fixpoint remove_unsafe (url : string) : string :=
  match url with
  | EmptyString => EmptyString
  | String a s' =>
      if is_unsafe a then remove_unsafe s' else String a (remove_unsafe s')
  end.

(** A text without tab, CR and LF. *)
Definition safe (s : string) : bool :=
  all_chars (fun c => negb (is_unsafe c)) s.

(** The scheme part of [urlsplit]: the lower-cased scheme and the rest. *)
Definition split_scheme (url : string) : string * string :=
  let '(pre, rest) := break_at (Ascii.eqb ":") url in
  match pre, rest with
  | String c _, String _ rest' =>
      if is_ascii_alpha c && all_chars is_scheme_char pre
      then (lower pre, rest')
      else (EmptyString, url)
  | _, _ => (EmptyString, url)
  end.

Definition is_netloc_delim (c : ascii) : bool :=
  Ascii.eqb c "/" || Ascii.eqb c "?" || Ascii.eqb c "#".

(** The network-location part: [_splitnetloc(url, 2)] when [url] starts
    with two slashes. *)
Definition split_netloc (url : string) : string * string :=
  match url with
  | String "/" (String "/" rest) => break_at is_netloc_delim rest
  | _ => (EmptyString, url)
  end.

Definition bad_brackets (nl : string) : bool :=
  (contains "[" nl && negb (contains "]" nl))
  || (contains "]" nl && negb (contains "[" nl)).

(** The regular expression [\Av[a-fA-F0-9]+\..+\Z] of
    [_check_bracketed_host]: hexadecimal digits after the [v], a dot where
    they end, and at least one character, none of them a line feed, up to
    the end. *)
Definition is_ipvfuture (hostname : string) : bool :=
  match hostname with
  | String "v" rest =>
      let '(digits, more) :=
        break_at (fun c => negb (Ipaddress.is_hex_digit c)) rest in
      negb (bool_decide (digits = EmptyString))
      && match more with
         | String "." after =>
             negb (bool_decide (after = EmptyString)) && negb (contains "010" after)
         | _ => false
         end
  | _ => false
  end.

(** [_check_bracketed_host]. *)
Definition check_bracketed_host (hostname : string) : Exc unit :=
  if startswith "v" hostname then
    if is_ipvfuture hostname then Ok tt
    else Raise "IPvFuture address is invalid"
  else
    match Ipaddress.ip_address hostname with
    | None =>
        Raise (repr hostname +:+ " does not appear to be an IPv4 or IPv6 address")
    | Some Ipaddress.IPv4 => Raise "An IPv4 address cannot be in brackets"
    | Some Ipaddress.IPv6 => Ok tt
    end.

(** [_check_bracketed_netloc]. *)
Definition check_bracketed_netloc (netloc : string) : Exc unit :=
  let hostname_and_port := after_last "@" netloc in
  let '(before_bracket, have_open_br, bracketed) :=
    partition "[" hostname_and_port in
  if have_open_br then
    if negb (bool_decide (before_bracket = EmptyString)) then
      Raise "Invalid IPv6 URL"
    else
      let '(hostname, _, port) := partition "]" bracketed in
      if negb (bool_decide (port = EmptyString)) && negb (startswith ":" port)
      then Raise "Invalid IPv6 URL"
      else check_bracketed_host hostname
  else
    let '(hostname, _, _) := partition ":" hostname_and_port in
    check_bracketed_host hostname.

(** The checks that [urlsplit] makes on the network location. *)
Definition check_netloc (nl : string) : Exc unit :=
  if bad_brackets nl then Raise "Invalid IPv6 URL"
  else if contains "[" nl && contains "]" nl then check_bracketed_netloc nl
  else Ok tt.

(** [url.split(c, 1)] when [c] occurs in [url], else [(url, '')]. *)
Definition split_once (c : ascii) (url : string) : string * string :=
  let '(l, r) := break_at (Ascii.eqb c) url in (l, tail r).

(** [urlsplit(url)].  Without the two slashes the network location is
    empty, and its checks, which the source skips then, pass. *)
Definition urlsplit (url : string) : Exc ParseResult :=
  let url0 := remove_unsafe (lstrip_c0 url) in
  let '(sch, url1) := split_scheme url0 in
  let '(nl, url2) := split_netloc url1 in
  match check_netloc nl with
  | Raise m => Raise m
  | Ok _ =>
      let '(url3, frag) := split_once "#" url2 in
      let '(url4, q) := split_once "?" url3 in
      Ok {| scheme := sch; netloc := nl; path := url4; params := EmptyString;
            query := q; fragment := frag |}
  end.

Definition uses_params : list string :=
  [""; "ftp"; "hdl"; "prospero"; "http"; "imap"; "https"; "shttp"; "rtsp";
   "rtspu"; "sip"; "sips"; "mms"; "sftp"; "tel"].

(** [_splitparams], which is called only when a semicolon occurs: the
    first semicolon of the last path segment. *)
Fixpoint splitparams (url : string) : string * string :=
  match url with
  | EmptyString => (EmptyString, EmptyString)
  | String a s' =>
      if contains "/" s' then
        let '(l, r) := splitparams s' in (String a l, r)
      else if Ascii.eqb a "/" then
        let '(l, r) := split_once ";" s' in (String a l, r)
      else split_once ";" url
  end.

Definition urlparse (url : string) : Exc ParseResult :=
  match urlsplit url with
  | Raise m => Raise m
  | Ok r =>
      if bool_decide (scheme r ∈ uses_params) && contains ";" (path r) then
        let '(p, ps) := splitparams (path r) in
        Ok {| scheme := scheme r; netloc := netloc r; path := p;
              params := ps; query := query r; fragment := fragment r |}
      else Ok r
  end.

(** [os.path.basename]. *)
Definition basename (p : string) : string := after_last "/" p.

(** [os.path.join(a, b)]. *)
Definition join (a b : string) : string :=
  if startswith "/" b then b
  else if bool_decide (a = EmptyString) || endswith "/" a then a +:+ b
  else a +:+ "/" +:+ b.

(** [os.path.splitext] on a name without a directory part: the extension
    starts at the last dot, unless only dots precede it. *)
Fixpoint splitext_go (seen_nondot : bool) (s : string) : string * string :=
  match s with
  | EmptyString => (EmptyString, EmptyString)
  | String a s' =>
      if Ascii.eqb a "." && seen_nondot && negb (contains "." s')
      then (EmptyString, s)
      else
        let '(l, r) :=
          splitext_go (seen_nondot || negb (Ascii.eqb a ".")) s' in
        (String a l, r)
  end.

Definition splitext (name : string) : string * string :=
  let base := basename name in
  let dir := String.substring 0 (String.length name - String.length base) name in
  let '(l, r) := splitext_go false base in
  (dir +:+ l, r).

End Url.


(** ** The data of a crawl *)

(** The [file_type] argument of [download_file]. *)
Inductive FileType : Type := FtImage | FtScript | FtStylesheet | FtHtml.

(** An entry of the [downloaded_*] lists: [{'url': ..., 'local_path': ...}]. *)
Record Download : Type := {
  dl_url : string;
  dl_local_path : string
}.

(** An entry of [results['texts']]. *)
Record TextItem : Type := {
  tx_url : string;
  tx_tag : string;
  tx_text : string
}.

(** What [extract_forms] returns for one form, and for one of its fields. *)
Record Field : Type := {
  fd_type : string;
  fd_name : string;
  fd_id : string;
  fd_required : bool;
  fd_input_type : option string
}.

Record Form : Type := {
  fm_action : string;
  fm_method : string;
  fm_fields : list Field
}.

(** The dictionary [self.results]. *)
Record Results : Type := {
  links : gset string;
  internal_links : gset string;
  external_links : gset string;
  images : gset string;
  downloaded_images : list Download;
  emails : gset string;
  phones : gset string;
  texts : list TextItem;
  forms : list (string * Form);
  meta : gmap string (gmap string (option string));
  scripts : gset string;
  downloaded_scripts : list Download;
  stylesheets : gset string;
  downloaded_stylesheets : list Download;
  downloaded_html : list Download;
  visited_pages : nat;
  total_data_size : nat;
  errors : list string
}.

(** An entry of the manifest and the manifest's [downloads] dictionary. *)
Record ManifestEntry : Type := {
  me_url : string;
  me_local_path : string;
  me_timestamp : string
}.

Record Manifest : Type := {
  m_images : list ManifestEntry;
  m_scripts : list ManifestEntry;
  m_styles : list ManifestEntry;
  m_html : list ManifestEntry
}.

(** What a path of the file system holds. *)
Inductive FileData : Type :=
| Directory
| Bytes (data : string)
| ManifestJson (m : Manifest).

(** The parsed page, as far as [scrape_page] consults it.  The lists hold
    the attribute values in document order; the results of the helper
    extractors ([extract_emails], [extract_phones] on [soup.get_text()],
    [extract_meta_info], [extract_forms]), which no property below looks
    into, are given with the page, each with the exception it may raise. *)
Record Soup : Type := {
  a_hrefs : list string;
  img_srcs : list string;
  text_blocks : list (string * string);
  page_emails : Exc (list string);
  page_phones : Exc (list string);
  page_meta : Exc (gmap string (option string));
  page_forms : Exc (list Form);
  script_srcs : list string;
  stylesheet_hrefs : list string
}.

(** A response that passed [raise_for_status]: its body, its
    [Content-Type] header, the page [BeautifulSoup] makes of the body, its
    status code and the status codes of the redirects that led to it
    ([response.history]).  The worker reads the first three. *)
Record Response : Type := {
  content : string;
  content_type : string;
  soup : Exc Soup;
  status_code : nat;
  history : list nat
}.

(** The outcome of [requests.get] followed by [raise_for_status]. *)
Inductive Reply : Type :=
| RequestException (msg : string)
| OtherException (msg : string)
| Responded (r : Response).

(** The outcome of [urlopen] and [shutil.copyfileobj] in [download_file]:
    nothing was received, everything was, or the transfer broke after
    [data] had been written. *)
Inductive Transfer : Type :=
| TransferFailed (msg : string)
| Transferred (data : string)
| TransferBroken (data : string) (msg : string).

(** What the worker emits and does to the outside, in the order it happens:
    the Qt signals, the reads of [self.running], the network requests, the
    pauses, and the changes of the frontier. *)
Inductive Event : Type :=
| SigProgress (percent : Z)
| SigStatus (msg : string)
| SigError (msg : string)
| SigNetworkError (url msg : string)
| SigResult (r : Results)
| SigFinished
| ReadRunning (b : bool)
| HttpGet (url : string)
| UrlOpen (url : string)
| Sleep
| Visit (url : string)
| Enqueue (url : string)
| Dequeue (url : string).

(** [self.options], with the defaults of [options.get] resolved. *)
Record Options : Type := {
  extract_links : bool;
  extract_images : bool;
  extract_text : bool;
  extract_contacts : bool;
  extract_meta : bool;
  extract_forms : bool;
  extract_resources : bool;
  crawl_pages : bool;
  max_pages : Z;
  download_images : bool;
  download_resources : bool;
  download_html : bool
}.

(** The constants of one worker: the seed, the options and the download
    directory made by [create_download_directories]. *)
Record Config : Type := {
  url : string;
  options : Options;
  download_dir : string
}.

(** Everything outside the worker.  [stop_after] is the number of reads of
    [self.running] that still see [True]: [stop] is the only writer and
    only ever stores [False].  The network answers depend on the number of
    requests made before; the headers, the timeout and [allow_redirects],
    which [requests.get] is given, are the same for every request of a
    run, and the answers are those for them. *)
Record World : Type := {
  stop_after : option nat;
  http_get : nat -> string -> Reply;
  url_open : nat -> string -> Transfer;
  urljoin : string -> string -> Exc string;
  open_error : string -> option string;
  now : nat -> string;
  percent_of : nat -> Z -> Z
}.

(** The worker's mutable fields, with the file system, the events so far
    and the two counters that index the world's answers. *)
Record Worker : Type := {
  results : Results;
  visited_urls : gset string;
  queue : list string;
  manifest : Manifest;
  fs : gmap string FileData;
  log : list Event;
  reads : nat;
  requests : nat
}.

(** ** Field updates

    [upd_x f r] is [r] with field [x] replaced by [f] of its value: the
    in-place updates of the dictionaries and of the worker's attributes. *)

Definition upd_links (f : _ -> _) (r : Results) : Results :=
  Build_Results (f (links r)) (internal_links r) (external_links r)
    (images r) (downloaded_images r) (emails r) (phones r) (texts r)
    (forms r) (meta r) (scripts r) (downloaded_scripts r) (stylesheets r)
    (downloaded_stylesheets r) (downloaded_html r) (visited_pages r)
    (total_data_size r) (errors r).

Definition upd_internal_links (f : _ -> _) (r : Results) : Results :=
  Build_Results (links r) (f (internal_links r)) (external_links r)
    (images r) (downloaded_images r) (emails r) (phones r) (texts r)
    (forms r) (meta r) (scripts r) (downloaded_scripts r) (stylesheets r)
    (downloaded_stylesheets r) (downloaded_html r) (visited_pages r)
    (total_data_size r) (errors r).

Definition upd_external_links (f : _ -> _) (r : Results) : Results :=
  Build_Results (links r) (internal_links r) (f (external_links r))
    (images r) (downloaded_images r) (emails r) (phones r) (texts r)
    (forms r) (meta r) (scripts r) (downloaded_scripts r) (stylesheets r)
    (downloaded_stylesheets r) (downloaded_html r) (visited_pages r)
    (total_data_size r) (errors r).

Definition upd_images (f : _ -> _) (r : Results) : Results :=
  Build_Results (links r) (internal_links r) (external_links r)
    (f (images r)) (downloaded_images r) (emails r) (phones r) (texts r)
    (forms r) (meta r) (scripts r) (downloaded_scripts r) (stylesheets r)
    (downloaded_stylesheets r) (downloaded_html r) (visited_pages r)
    (total_data_size r) (errors r).

Definition upd_downloaded_images (f : _ -> _) (r : Results) : Results :=
  Build_Results (links r) (internal_links r) (external_links r) (images r)
    (f (downloaded_images r)) (emails r) (phones r) (texts r) (forms r)
    (meta r) (scripts r) (downloaded_scripts r) (stylesheets r)
    (downloaded_stylesheets r) (downloaded_html r) (visited_pages r)
    (total_data_size r) (errors r).

Definition upd_emails (f : _ -> _) (r : Results) : Results :=
  Build_Results (links r) (internal_links r) (external_links r) (images r)
    (downloaded_images r) (f (emails r)) (phones r) (texts r) (forms r)
    (meta r) (scripts r) (downloaded_scripts r) (stylesheets r)
    (downloaded_stylesheets r) (downloaded_html r) (visited_pages r)
    (total_data_size r) (errors r).

Definition upd_phones (f : _ -> _) (r : Results) : Results :=
  Build_Results (links r) (internal_links r) (external_links r) (images r)
    (downloaded_images r) (emails r) (f (phones r)) (texts r) (forms r)
    (meta r) (scripts r) (downloaded_scripts r) (stylesheets r)
    (downloaded_stylesheets r) (downloaded_html r) (visited_pages r)
    (total_data_size r) (errors r).

Definition upd_texts (f : _ -> _) (r : Results) : Results :=
  Build_Results (links r) (internal_links r) (external_links r) (images r)
    (downloaded_images r) (emails r) (phones r) (f (texts r)) (forms r)
    (meta r) (scripts r) (downloaded_scripts r) (stylesheets r)
    (downloaded_stylesheets r) (downloaded_html r) (visited_pages r)
    (total_data_size r) (errors r).

Definition upd_forms (f : _ -> _) (r : Results) : Results :=
  Build_Results (links r) (internal_links r) (external_links r) (images r)
    (downloaded_images r) (emails r) (phones r) (texts r) (f (forms r))
    (meta r) (scripts r) (downloaded_scripts r) (stylesheets r)
    (downloaded_stylesheets r) (downloaded_html r) (visited_pages r)
    (total_data_size r) (errors r).

Definition upd_meta (f : _ -> _) (r : Results) : Results :=
  Build_Results (links r) (internal_links r) (external_links r) (images r)
    (downloaded_images r) (emails r) (phones r) (texts r) (forms r)
    (f (meta r)) (scripts r) (downloaded_scripts r) (stylesheets r)
    (downloaded_stylesheets r) (downloaded_html r) (visited_pages r)
    (total_data_size r) (errors r).

Definition upd_scripts (f : _ -> _) (r : Results) : Results :=
  Build_Results (links r) (internal_links r) (external_links r) (images r)
    (downloaded_images r) (emails r) (phones r) (texts r) (forms r) (meta r)
    (f (scripts r)) (downloaded_scripts r) (stylesheets r)
    (downloaded_stylesheets r) (downloaded_html r) (visited_pages r)
    (total_data_size r) (errors r).

Definition upd_downloaded_scripts (f : _ -> _) (r : Results) : Results :=
  Build_Results (links r) (internal_links r) (external_links r) (images r)
    (downloaded_images r) (emails r) (phones r) (texts r) (forms r) (meta r)
    (scripts r) (f (downloaded_scripts r)) (stylesheets r)
    (downloaded_stylesheets r) (downloaded_html r) (visited_pages r)
    (total_data_size r) (errors r).

Definition upd_stylesheets (f : _ -> _) (r : Results) : Results :=
  Build_Results (links r) (internal_links r) (external_links r) (images r)
    (downloaded_images r) (emails r) (phones r) (texts r) (forms r) (meta r)
    (scripts r) (downloaded_scripts r) (f (stylesheets r))
    (downloaded_stylesheets r) (downloaded_html r) (visited_pages r)
    (total_data_size r) (errors r).

Definition upd_downloaded_stylesheets (f : _ -> _) (r : Results) : Results :=
  Build_Results (links r) (internal_links r) (external_links r) (images r)
    (downloaded_images r) (emails r) (phones r) (texts r) (forms r) (meta r)
    (scripts r) (downloaded_scripts r) (stylesheets r)
    (f (downloaded_stylesheets r)) (downloaded_html r) (visited_pages r)
    (total_data_size r) (errors r).

Definition upd_downloaded_html (f : _ -> _) (r : Results) : Results :=
  Build_Results (links r) (internal_links r) (external_links r) (images r)
    (downloaded_images r) (emails r) (phones r) (texts r) (forms r) (meta r)
    (scripts r) (downloaded_scripts r) (stylesheets r)
    (downloaded_stylesheets r) (f (downloaded_html r)) (visited_pages r)
    (total_data_size r) (errors r).

Definition upd_visited_pages (f : _ -> _) (r : Results) : Results :=
  Build_Results (links r) (internal_links r) (external_links r) (images r)
    (downloaded_images r) (emails r) (phones r) (texts r) (forms r) (meta r)
    (scripts r) (downloaded_scripts r) (stylesheets r)
    (downloaded_stylesheets r) (downloaded_html r) (f (visited_pages r))
    (total_data_size r) (errors r).

Definition upd_total_data_size (f : _ -> _) (r : Results) : Results :=
  Build_Results (links r) (internal_links r) (external_links r) (images r)
    (downloaded_images r) (emails r) (phones r) (texts r) (forms r) (meta r)
    (scripts r) (downloaded_scripts r) (stylesheets r)
    (downloaded_stylesheets r) (downloaded_html r) (visited_pages r)
    (f (total_data_size r)) (errors r).

Definition upd_errors (f : _ -> _) (r : Results) : Results :=
  Build_Results (links r) (internal_links r) (external_links r) (images r)
    (downloaded_images r) (emails r) (phones r) (texts r) (forms r) (meta r)
    (scripts r) (downloaded_scripts r) (stylesheets r)
    (downloaded_stylesheets r) (downloaded_html r) (visited_pages r)
    (total_data_size r) (f (errors r)).

Definition upd_m_images (f : _ -> _) (m : Manifest) : Manifest :=
  Build_Manifest (f (m_images m)) (m_scripts m) (m_styles m) (m_html m).

Definition upd_m_scripts (f : _ -> _) (m : Manifest) : Manifest :=
  Build_Manifest (m_images m) (f (m_scripts m)) (m_styles m) (m_html m).

Definition upd_m_styles (f : _ -> _) (m : Manifest) : Manifest :=
  Build_Manifest (m_images m) (m_scripts m) (f (m_styles m)) (m_html m).

Definition upd_m_html (f : _ -> _) (m : Manifest) : Manifest :=
  Build_Manifest (m_images m) (m_scripts m) (m_styles m) (f (m_html m)).

Definition upd_results (f : _ -> _) (s : Worker) : Worker :=
  Build_Worker (f (results s)) (visited_urls s) (queue s) (manifest s)
    (fs s) (log s) (reads s) (requests s).

Definition upd_visited_urls (f : _ -> _) (s : Worker) : Worker :=
  Build_Worker (results s) (f (visited_urls s)) (queue s) (manifest s)
    (fs s) (log s) (reads s) (requests s).

Definition upd_queue (f : _ -> _) (s : Worker) : Worker :=
  Build_Worker (results s) (visited_urls s) (f (queue s)) (manifest s)
    (fs s) (log s) (reads s) (requests s).

Definition upd_manifest (f : _ -> _) (s : Worker) : Worker :=
  Build_Worker (results s) (visited_urls s) (queue s) (f (manifest s))
    (fs s) (log s) (reads s) (requests s).

Definition upd_fs (f : _ -> _) (s : Worker) : Worker :=
  Build_Worker (results s) (visited_urls s) (queue s) (manifest s)
    (f (fs s)) (log s) (reads s) (requests s).

Definition upd_log (f : _ -> _) (s : Worker) : Worker :=
  Build_Worker (results s) (visited_urls s) (queue s) (manifest s) (fs s)
    (f (log s)) (reads s) (requests s).

Definition upd_reads (f : _ -> _) (s : Worker) : Worker :=
  Build_Worker (results s) (visited_urls s) (queue s) (manifest s) (fs s)
    (log s) (f (reads s)) (requests s).

Definition upd_requests (f : _ -> _) (s : Worker) : Worker :=
  Build_Worker (results s) (visited_urls s) (queue s) (manifest s) (fs s)
    (log s) (reads s) (f (requests s)).

(** ** Computations of the worker

    A method is a function from the worker's state to an outcome and the
    state it leaves.  An exception does not undo what was done before it:
    the state at the [raise] is the state the handler sees.  [OutOfFuel]
    marks a loop that was cut short by its fuel; the theorems of termination
    show that it is never the outcome. *)

Inductive Res (A : Type) : Type :=
| Val (a : A)
| Exn (msg : string)
| OutOfFuel.
Arguments Val {A} a.
Arguments Exn {A} msg.
Arguments OutOfFuel {A}.

Definition M (A : Type) : Type := Worker -> Res A * Worker.

Definition ret {A} (a : A) : M A := fun s => (Val a, s).

Definition bind {A B} (m : M A) (f : A -> M B) : M B :=
  fun s =>
    match m s with
    | (Val a, s') => f a s'
    | (Exn e, s') => (Exn e, s')
    | (OutOfFuel, s') => (OutOfFuel, s')
    end.

Definition raise {A} (msg : string) : M A := fun s => (Exn msg, s).

(** [try: m  except Exception as e: h (str e)]. *)
Definition try_except {A} (m : M A) (h : string -> M A) : M A :=
  fun s =>
    match m s with
    | (Exn e, s') => h e s'
    | r => r
    end.

(** [try: m  finally: k]. *)
Definition try_finally {A} (m : M A) (k : M unit) : M A :=
  fun s =>
    match m s with
    | (OutOfFuel, s') => (OutOfFuel, s')
    | (r, s') =>
        match k s' with
        | (Val _, s'') => (r, s'')
        | (Exn e, s'') => (Exn e, s'')
        | (OutOfFuel, s'') => (OutOfFuel, s'')
        end
    end.

Definition get : M Worker := fun s => (Val s, s).

Definition modify (f : Worker -> Worker) : M unit := fun s => (Val tt, f s).

Definition lift {A} (x : Exc A) : M A :=
  match x with
  | Ok a => ret a
  | Raise m => raise m
  end.

Declare Scope crawl_scope.
Delimit Scope crawl_scope with crawl.
Bind Scope crawl_scope with M.
Notation "x ← y ; z" := (bind y (fun x => z))
  (at level 20, y at level 100, z at level 200, only parsing) : crawl_scope.
Notation "y ;; z" := (bind y (fun _ => z))
  (at level 100, z at level 200, only parsing, right associativity) : crawl_scope.
Local Open Scope crawl_scope.

Definition when (b : bool) (m : M unit) : M unit := if b then m else ret tt.

(** [for x in l: f x]. *)
Fixpoint for_each {A} (f : A -> M unit) (l : list A) : M unit :=
  match l with
  | [] => ret tt
  | x :: l' => f x ;; for_each f l'
  end.

(** *** Primitive actions *)

Definition emit (e : Event) : M unit := modify (upd_log (fun l => l ++ [e])).

(** The value of [self.running] at the [n]-th read. *)
Definition running_at (w : World) (n : nat) : bool :=
  match stop_after w with
  | None => true
  | Some k => n <? k
  end.

(** A read of [self.running]. *)
Definition read_running (w : World) : M bool :=
  s ← get;
  let b := running_at w (reads s) in
  modify (upd_reads S) ;;
  emit (ReadRunning b) ;;
  ret b.

(** [self.visited_urls.add(url)], [self.queue.append(url)] and
    [self.queue.pop(0)]. *)
Definition mark_visited (u : string) : M unit :=
  modify (upd_visited_urls (fun v => {[u]} ∪ v)) ;; emit (Visit u).

Definition enqueue (u : string) : M unit :=
  modify (upd_queue (fun q => q ++ [u])) ;; emit (Enqueue u).

Definition dequeue : M string :=
  s ← get;
  match queue s with
  | [] => raise "pop from empty list"
  | u :: q => modify (upd_queue (fun _ => q)) ;; emit (Dequeue u) ;; ret u
  end.

Definition upd_res (f : Results -> Results) : M unit := modify (upd_results f).

(** [requests.get(url, ...)] with [raise_for_status()]. *)
Definition http_request (w : World) (u : string) : M Reply :=
  s ← get;
  emit (HttpGet u) ;;
  modify (upd_requests S) ;;
  ret (http_get w (requests s) u).

(** [os.path.exists]. *)
Definition exists_path (s : Worker) (p : string) : bool :=
  bool_decide (is_Some (fs s !! p)).

(** [open(p, 'wb')] (or ['w']) and the write of [d]: opening a directory or
    a path the world refuses raises. *)
Definition write_file (w : World) (p : string) (d : FileData) : M unit :=
  s ← get;
  match fs s !! p with
  | Some Directory => raise ("Is a directory: " +:+ p)
  | _ =>
      match open_error w p with
      | Some msg => raise msg
      | None => modify (upd_fs (fun m => <[p := d]> m))
      end
  end.

(** ** The methods of [ScraperWorker] *)

(** [is_valid_url]. *)
Definition unwanted_exts : list string :=
  [".pdf"; ".doc"; ".jpg"; ".png"; ".gif"; ".zip"].

Definition is_http (u : string) : bool :=
  Py.startswith "http://" u || Py.startswith "https://" u.

Definition is_valid_url (u : string) : bool :=
  if negb (is_http u) then false
  else if existsb (fun ext => Py.endswith ext (Py.lower u)) unwanted_exts then false
  else true.

(** [is_internal_link]. *)
Definition is_internal_link (u base_domain : string) : Exc bool :=
  match Url.urlparse u with
  | Raise m => Raise m
  | Ok parsed =>
      let url_domain := Url.netloc parsed in
      Ok (bool_decide (url_domain = base_domain)
          || Py.endswith ("." +:+ base_domain) url_domain)
  end.

(** [extract_base_url]. *)
Definition extract_base_url (u : string) : Exc string :=
  match Url.urlparse u with
  | Raise m => Raise m
  | Ok parsed => Ok (Url.scheme parsed +:+ "://" +:+ Url.netloc parsed)
  end.

(** The [base_url] and the [base_domain] that [scrape_page] computes for
    the page at [u]. *)
Definition page_base (u : string) : Exc (string * string) :=
  match extract_base_url u with
  | Raise m => Raise m
  | Ok base_url =>
      match Url.urlparse base_url with
      | Raise m => Raise m
      | Ok parsed => Ok (base_url, Url.netloc parsed)
      end
  end.

(** The character class of the [re.sub] in [download_file]. *)
Definition is_illegal_char (c : ascii) : bool :=
  bool_decide (c ∈ ["\"; "/"; "*"; "?"; ":"; "034"; "<"; ">"; "|"]%char).

Definition sanitize (name : string) : string :=
  Py.map_chars (fun c => if is_illegal_char c then "_"%char else c) name.

(** The name the [while] loop of [download_file] tries at its [n]-th turn. *)
Definition numbered (orig : string) (n : nat) : string :=
  let '(name, ext) := Url.splitext orig in
  name +:+ "_" +:+ pretty n +:+ ext.

(** The [while os.path.exists(...)] loop of [download_file]. *)
Fixpoint unique_name (fuel : nat) (taken : string -> bool)
    (orig filename : string) (counter : nat) : option string :=
  if taken filename then
    match fuel with
    | 0 => None
    | S fuel' => unique_name fuel' taken orig (numbered orig counter) (S counter)
    end
  else Some filename.

(** The name made up for a URL without a usable basename. *)
Definition default_name (ft : FileType) (r : Results) : string :=
  match ft with
  | FtImage => "image_" +:+ pretty (length (downloaded_images r) + 1) +:+ ".jpg"
  | FtScript => "script_" +:+ pretty (length (downloaded_scripts r) + 1) +:+ ".js"
  | FtStylesheet =>
      "style_" +:+ pretty (length (downloaded_stylesheets r) + 1) +:+ ".css"
  | FtHtml => "page_" +:+ pretty (length (downloaded_html r) + 1) +:+ ".html"
  end.

Definition manifest_add (ft : FileType) (e : ManifestEntry) : Manifest -> Manifest :=
  match ft with
  | FtImage => upd_m_images (fun l => l ++ [e])
  | FtScript => upd_m_scripts (fun l => l ++ [e])
  | FtStylesheet => upd_m_styles (fun l => l ++ [e])
  | FtHtml => upd_m_html (fun l => l ++ [e])
  end.

(** The directories of [create_download_directories]. *)
Definition images_dir (cfg : Config) : string := Url.join (download_dir cfg) "images".
Definition scripts_dir (cfg : Config) : string := Url.join (download_dir cfg) "scripts".
Definition styles_dir (cfg : Config) : string := Url.join (download_dir cfg) "styles".
Definition html_dir (cfg : Config) : string := Url.join (download_dir cfg) "html".
Definition manifest_path (cfg : Config) : string :=
  Url.join (download_dir cfg) "manifest.json".

(** The anchors that the loop over the links passes over: no target, a
    script, a fragment of the page. *)
Definition skip_href (href : string) : bool :=
  bool_decide (href = "") || Py.startswith "javascript:" href
  || Py.startswith "#" href.

Section Methods.
Context (w : World) (cfg : Config).

(** [normalize_url]. *)
Definition normalize_url (u base_url : string) : Exc string :=
  if Py.startswith "/" u then urljoin w base_url u
  else if negb (is_http u) then urljoin w base_url u
  else Ok u.

(** The [with urlopen(req) as response, open(filepath, 'wb') as out_file]
    block of [download_file]. *)
Definition transfer (u filepath : string) : M unit :=
  s ← get;
  emit (UrlOpen u) ;;
  modify (upd_requests S) ;;
  match url_open w (requests s) u with
  | TransferFailed msg => raise msg
  | Transferred data => write_file w filepath (Bytes data)
  | TransferBroken data msg => write_file w filepath (Bytes data) ;; raise msg
  end.

(** The name [download_file] settles on in [directory]. *)
Definition free_name (directory filename : string) : M string :=
  s ← get;
  match unique_name (S (size (fs s)))
          (fun f => exists_path s (Url.join directory f)) filename filename 1 with
  | Some f => ret f
  | None => fun s' => (OutOfFuel, s')
  end.

(** [download_file]: the local path, or [None]. *)
Definition download_file (u directory : string) (ft : FileType) : M (option string) :=
  running ← read_running w;
  if negb running then ret None
  else
    try_except
      (parsed ← lift (Url.urlparse u);
       s ← get;
       let filename := Url.basename (Url.path parsed) in
       let filename :=
         if bool_decide (filename = "") || negb (Py.contains "." filename)
         then default_name ft (results s) else filename in
       let filename := sanitize filename in
       filename ← free_name directory filename;
       let filepath := Url.join directory filename in
       transfer u filepath ;;
       s ← get;
       modify (upd_manifest (manifest_add ft
         {| me_url := u; me_local_path := filepath;
            me_timestamp := now w (requests s) |})) ;;
       s ← get;
       write_file w (manifest_path cfg) (ManifestJson (manifest s)) ;;
       ret (Some filepath))
      (fun msg =>
         emit (SigError ("Error downloading " +:+ u +:+ ": " +:+ msg)) ;;
         ret None).

(** *** [scrape_page] *)

Definition max_retries : nat := 3.

(** The retry loop, with [left] the attempts that remain
    ([max_retries - retry_count]): the response, or [None] when the method
    has returned after the last failure. *)
Fixpoint fetch_attempts (u : string) (left : nat) : M (option Response) :=
  match left with
  | 0 => ret None
  | S left' =>
      reply ← http_request w u;
      match reply with
      | Responded r => ret (Some r)
      | OtherException msg => raise msg
      | RequestException msg =>
          match left' with
          | 0 =>
              emit (SigNetworkError u msg) ;;
              upd_res (upd_errors (fun l =>
                l ++ ["Error accessing " +:+ u +:+ ": " +:+ msg])) ;;
              ret None
          | S _ => emit Sleep ;; fetch_attempts u left'
          end
      end
  end.

(** The [download_html] block. *)
Definition save_html (u : string) (r : Response) : M unit :=
  let page_name := Py.after_last "/" u in
  let page_name :=
    if bool_decide (page_name = "") || negb (Py.contains "." page_name)
    then Py.replace_char "/" "_" (Py.after_last_dslash u u) +:+ ".html"
    else page_name in
  let html_path := Url.join (html_dir cfg) page_name in
  write_file w html_path (Bytes (content r)) ;;
  upd_res (upd_downloaded_html (fun l =>
    l ++ [{| dl_url := u; dl_local_path := html_path |}])).

(** The test in front of [self.queue.append(full_url)]. *)
Definition offer_link (full_url : string) : M unit :=
  s ← get;
  when (crawl_pages (options cfg)
        && (Z.of_nat (size (visited_urls s)) <? max_pages (options cfg))%Z
        && negb (bool_decide (full_url ∈ visited_urls s))
        && negb (bool_decide (full_url ∈ queue s)))
    (enqueue full_url).

(** The body of the loop over the anchors. *)
Definition process_link (base_url base_domain href_attr : string) : M unit :=
  let href := Py.strip href_attr in
  if skip_href href then ret tt
  else
    full_url ← lift (normalize_url href base_url);
    if negb (is_valid_url full_url) then ret tt
    else
      upd_res (upd_links (fun l => {[full_url]} ∪ l)) ;;
      internal ← lift (is_internal_link full_url base_domain);
      if internal then
        upd_res (upd_internal_links (fun l => {[full_url]} ∪ l)) ;;
        offer_link full_url
      else upd_res (upd_external_links (fun l => {[full_url]} ∪ l)).

(** The bodies of the loops over images, scripts and stylesheets. *)
Definition process_asset (base_url : string) (add : string -> Results -> Results)
    (download : bool) (directory : string) (ft : FileType)
    (record : Download -> Results -> Results) (src_attr : string) : M unit :=
  let src := Py.strip src_attr in
  if bool_decide (src = "") then ret tt
  else
    full_src ← lift (normalize_url src base_url);
    upd_res (add full_src) ;;
    when download
      (local_path ← download_file full_src directory ft;
       match local_path with
       | Some p =>
           when (negb (bool_decide (p = "")))
             (upd_res (record {| dl_url := full_src; dl_local_path := p |}))
       | None => ret tt
       end).

Definition process_image (base_url : string) : string -> M unit :=
  process_asset base_url (fun u => upd_images (fun l => {[u]} ∪ l))
    (download_images (options cfg)) (images_dir cfg) FtImage
    (fun d => upd_downloaded_images (fun l => l ++ [d])).

Definition process_script (base_url : string) : string -> M unit :=
  process_asset base_url (fun u => upd_scripts (fun l => {[u]} ∪ l))
    (download_resources (options cfg)) (scripts_dir cfg) FtScript
    (fun d => upd_downloaded_scripts (fun l => l ++ [d])).

Definition process_stylesheet (base_url : string) : string -> M unit :=
  process_asset base_url (fun u => upd_stylesheets (fun l => {[u]} ∪ l))
    (download_resources (options cfg)) (styles_dir cfg) FtStylesheet
    (fun d => upd_downloaded_stylesheets (fun l => l ++ [d])).

Definition process_text (u : string) (block : string * string) : M unit :=
  when (negb (bool_decide (block.2 = "")))
    (upd_res (upd_texts (fun l =>
       l ++ [{| tx_url := u; tx_tag := block.1; tx_text := block.2 |}]))).

(** [if url not in self.results['meta']: self.results['meta'][url] = ...]. *)
Definition record_meta (u : string) (found : gmap string (option string)) : M unit :=
  s ← get;
  when (negb (bool_decide (is_Some (meta (results s) !! u))))
    (upd_res (upd_meta (fun m => <[u := found]> m))).

(** What [scrape_page] does with an HTML response, from the computation of
    [base_url] to the pause after the page. *)
Definition extract_page (u : string) (r : Response) : M unit :=
  base ← lift (page_base u);
  let base_url := base.1 in
  let base_domain := base.2 in
  page ← lift (soup r);
  when (extract_links (options cfg))
    (for_each (process_link base_url base_domain) (a_hrefs page)) ;;
  when (extract_images (options cfg))
    (for_each (process_image base_url) (img_srcs page)) ;;
  when (extract_text (options cfg))
    (for_each (process_text u) (text_blocks page)) ;;
  when (extract_contacts (options cfg))
    (found ← lift (page_emails page);
     upd_res (upd_emails (fun l => l ∪ list_to_set found)) ;;
     found ← lift (page_phones page);
     upd_res (upd_phones (fun l => l ∪ list_to_set found))) ;;
  when (extract_meta (options cfg))
    (page_meta ← lift (page_meta page);
     record_meta u page_meta) ;;
  when (extract_forms (options cfg))
    (found ← lift (page_forms page);
     for_each (fun f => upd_res (upd_forms (fun l => l ++ [(u, f)]))) found) ;;
  when (extract_resources (options cfg))
    (for_each (process_script base_url) (script_srcs page) ;;
     for_each (process_stylesheet base_url) (stylesheet_hrefs page)) ;;
  upd_res (upd_visited_pages S) ;;
  s ← get;
  when (0 <? max_pages (options cfg))%Z
    (emit (SigProgress (Z.min 100
       (percent_of w (visited_pages (results s)) (max_pages (options cfg)))))) ;;
  emit Sleep.

(** What [scrape_page] does with the response of a successful fetch. *)
Definition handle_response (u : string) (r : Response) : M unit :=
  upd_res (upd_total_data_size (fun n => n + String.length (content r))) ;;
  when (download_html (options cfg)) (save_html u r) ;;
  if negb (Py.startswith "text/html" (content_type r)) then ret tt
  else extract_page u r.

(** The [try] block of [scrape_page]. *)
Definition page_body (u : string) : M unit :=
  response ← fetch_attempts u max_retries;
  match response with
  | None => ret tt
  | Some r => handle_response u r
  end.

Definition scrape_page (u : string) : M unit :=
  s ← get;
  if bool_decide (u ∈ visited_urls s) then ret tt
  else
    running ← read_running w;
    if negb running then ret tt
    else
      mark_visited u ;;
      emit (SigStatus ("Scraping: " +:+ u)) ;;
      try_except (page_body u)
        (fun msg => emit (SigError ("Error scraping " +:+ u +:+ ": " +:+ msg))).

(** *** [run] *)

(** The test of the [while] loop: [self.running] is read only when the
    queue is not empty. *)
Definition loop_test : M bool :=
  s ← get;
  match queue s with
  | [] => ret false
  | _ :: _ =>
      running ← read_running w;
      if negb running then ret false
      else
        s ← get;
        ret (Z.of_nat (size (visited_urls s)) <? max_pages (options cfg))%Z
  end.

(** The body of the [while] loop.  [pop] cannot fail after a true test; the
    handler needs the popped URL, so [dequeue] is put in front of the
    [try]. *)
Definition loop_body : M unit :=
  next_url ← dequeue;
  try_except (scrape_page next_url)
    (fun msg =>
       let line := "Error processing " +:+ next_url +:+ ": " +:+ msg in
       emit (SigError line) ;;
       upd_res (upd_errors (fun l => l ++ [line]))).

Fixpoint crawl_loop (fuel : nat) : M unit :=
  match fuel with
  | 0 => fun s => (OutOfFuel, s)
  | S fuel' =>
      continue ← loop_test;
      if continue then loop_body ;; crawl_loop fuel' else ret tt
  end.

(** Turns of the loop that [run] can need: every turn but one adds a URL to
    [visited_urls]. *)
Definition run_fuel : nat := Z.to_nat (max_pages (options cfg)) + 2.

Definition run : M unit :=
  try_finally
    (try_except
       (enqueue (url cfg) ;;
        crawl_loop run_fuel ;;
        running ← read_running w;
        if negb running then
          emit (SigStatus "Scraping stopped by user") ;;
          emit SigFinished
        else
          s ← get;
          emit (SigResult (results s)) ;;
          emit (SigStatus "Scraping completed"))
       (fun msg => emit (SigError ("Error in scraper thread: " +:+ msg))))
    (emit SigFinished).

End Methods.

(** The worker as [__init__] leaves it, on the file system [fs0]. *)
Definition empty_results : Results :=
  {| links := ∅; internal_links := ∅; external_links := ∅; images := ∅;
     downloaded_images := []; emails := ∅; phones := ∅; texts := [];
     forms := []; meta := ∅; scripts := ∅; downloaded_scripts := [];
     stylesheets := ∅; downloaded_stylesheets := []; downloaded_html := [];
     visited_pages := 0; total_data_size := 0; errors := [] |}.

Definition init (fs0 : gmap string FileData) : Worker :=
  {| results := empty_results; visited_urls := ∅; queue := [];
     manifest := {| m_images := []; m_scripts := []; m_styles := []; m_html := [] |};
     fs := fs0; log := []; reads := 0; requests := 0 |}.

(** ** The frontier along the events

    The events [Visit], [Enqueue] and [Dequeue] record every change of
    [visited_urls] and [queue]; [replay] gives the frontier after a prefix
    of the events, that is, at a point of the run.  [f_next] is the URL
    that was popped last ([next_url]). *)

Record Frontier : Type := {
  f_visited : gset string;
  f_queue : list string;
  f_next : option string
}.

Definition apply_event (f : Frontier) (e : Event) : Frontier :=
  match e with
  | Visit u =>
      {| f_visited := {[u]} ∪ f_visited f; f_queue := f_queue f; f_next := f_next f |}
  | Enqueue u =>
      {| f_visited := f_visited f; f_queue := f_queue f ++ [u]; f_next := f_next f |}
  | Dequeue u =>
      {| f_visited := f_visited f; f_queue := tail (f_queue f); f_next := Some u |}
  | _ => f
  end.

Definition replay (l : list Event) : Frontier :=
  foldl apply_event {| f_visited := ∅; f_queue := []; f_next := None |} l.

(** What holds of the frontier when an event happens, with [limit] the
    option [max_pages]. *)
Definition good_event (limit : Z) (f : Frontier) (e : Event) : Prop :=
  match e with
  | Visit u =>
      f_next f = Some u ∧ (u ∉ f_visited f) ∧ (u ∉ f_queue f)
      ∧ (Z.of_nat (size (f_visited f)) < limit)%Z
  | Enqueue u => (u ∉ f_visited f) ∧ (u ∉ f_queue f)
  | Dequeue u =>
      (∃ q, f_queue f = u :: q) ∧ (Z.of_nat (size (f_visited f)) < limit)%Z
  | _ => True
  end.

Inductive good_log (limit : Z) : list Event -> Prop :=
| good_nil : good_log limit []
| good_snoc (l : list Event) (e : Event) :
    good_log limit l -> good_event limit (replay l) e -> good_log limit (l ++ [e]).

(** The frontier of the events agrees with the worker's fields. *)
Definition tracks (s : Worker) : Prop :=
  f_visited (replay (log s)) = visited_urls s
  ∧ f_queue (replay (log s)) = queue s.

(** ** Events after a stop *)

(** The events that start work: a request, a download, a page. *)
Definition starts_work (e : Event) : bool :=
  match e with
  | HttpGet _ | UrlOpen _ | Visit _ | Dequeue _ => true
  | _ => false
  end.

(** No work is started after a read of [self.running] that saw [False]. *)
Definition quiet_after_stop (l : list Event) : Prop :=
  forall p q, l = p ++ ReadRunning false :: q ->
    forall e, e ∈ q -> starts_work e = false.

(** The number of [requests.get] calls among the events. *)
Definition is_get (e : Event) : bool :=
  match e with
  | HttpGet _ => true
  | _ => false
  end.

Definition gets (l : list Event) : nat := length (filter (fun e => is_get e = true) l).

(** ** Comparing results *)

(** [r'] holds everything [r] holds: nothing was removed or changed. *)
Definition results_le (r r' : Results) : Prop :=
  links r ⊆ links r' ∧ internal_links r ⊆ internal_links r'
  ∧ external_links r ⊆ external_links r' ∧ images r ⊆ images r'
  ∧ downloaded_images r `prefix_of` downloaded_images r'
  ∧ emails r ⊆ emails r' ∧ phones r ⊆ phones r'
  ∧ texts r `prefix_of` texts r' ∧ forms r `prefix_of` forms r'
  ∧ meta r ⊆ meta r' ∧ scripts r ⊆ scripts r'
  ∧ downloaded_scripts r `prefix_of` downloaded_scripts r'
  ∧ stylesheets r ⊆ stylesheets r'
  ∧ downloaded_stylesheets r `prefix_of` downloaded_stylesheets r'
  ∧ downloaded_html r `prefix_of` downloaded_html r'
  ∧ visited_pages r <= visited_pages r'
  ∧ total_data_size r <= total_data_size r'
  ∧ errors r `prefix_of` errors r'.

(** [r'] has the extraction results, the error list and the page counter
    of [r]. *)
Definition extraction_untouched (r r' : Results) : Prop :=
  links r' = links r ∧ internal_links r' = internal_links r
  ∧ external_links r' = external_links r ∧ images r' = images r
  ∧ downloaded_images r' = downloaded_images r
  ∧ emails r' = emails r ∧ phones r' = phones r
  ∧ texts r' = texts r ∧ forms r' = forms r ∧ meta r' = meta r
  ∧ scripts r' = scripts r ∧ downloaded_scripts r' = downloaded_scripts r
  ∧ stylesheets r' = stylesheets r
  ∧ downloaded_stylesheets r' = downloaded_stylesheets r
  ∧ visited_pages r' = visited_pages r ∧ errors r' = errors r.

(** ** Specifications of computations *)

(** From [P], [m] ends with a value and [Q], with an exception and [E], or
    is cut short by its fuel with [F]. *)
Definition hoare {A} (P : Worker -> Prop) (m : M A)
    (Q : A -> Worker -> Prop) (E F : Worker -> Prop) : Prop :=
  forall s, P s ->
    match m s with
    | (Val a, s') => Q a s'
    | (Exn _, s') => E s'
    | (OutOfFuel, s') => F s'
    end.

(** [I] is kept by [m], however [m] ends. *)
Definition keeps {A} (I : Worker -> Prop) (m : M A) : Prop :=
  hoare I m (fun _ => I) I I.

(** From [P], the fuel of the loops of [m] suffices. *)
Definition total {A} (P : Worker -> Prop) (m : M A) : Prop :=
  forall s, P s -> (m s).1 <> OutOfFuel.

(** ** Scenarios *)

(** From the state [s], the fetch of [u] succeeds at the attempt [k], after
    [k] transport failures, with the response [r]. *)
Definition succeeds_at (w : World) (s : Worker) (u : string) (k : nat)
    (r : Response) : Prop :=
  (forall j, j < k -> exists m, http_get w (requests s + j) u = RequestException m)
  /\ http_get w (requests s + k) u = Responded r.

(** The worker after the first lines of [scrape_page], for a URL that was
    not visited and a worker that was not stopped. *)
Definition page_started (u : string) (s : Worker) : Worker :=
  upd_log (fun l => l ++ [SigStatus ("Scraping: " +:+ u)])
    (upd_log (fun l => l ++ [Visit u])
       (upd_visited_urls (fun v => {[u]} ∪ v)
          (upd_log (fun l => l ++ [ReadRunning true]) (upd_reads S s)))).

(** The page counter after a page with the response [r], when it was [n]
    before: as before, or one more, and then the response is HTML and was
    parsed. *)
Definition counted (r : Response) (n : nat) (s : Worker) : Prop :=
  visited_pages (results s) = n
  \/ (visited_pages (results s) = S n
      /\ Py.startswith "text/html" (content_type r) = true
      /\ exists page, soup r = Ok page).

(** Since the events [l0], at most [n] requests were made. *)
Definition adds_gets (l0 : list Event) (n : nat) (s : Worker) : Prop :=
  exists l, log s = l0 ++ l /\ gets l <= n.

(** The names [download_file] tries for the name [base], in order: [base]
    itself, then [base] with [_1], [_2], ... in front of its extension. *)
Definition candidate (base : string) (n : nat) : string :=
  match n with
  | 0 => base
  | S _ => numbered base n
  end.

(** The directories [download_file] is called with. *)
Definition destinations (cfg : Config) : list string :=
  [images_dir cfg; scripts_dir cfg; styles_dir cfg].

(** Every file of [fs0], the manifest apart, is in [s] with its content. *)
Definition files_kept (cfg : Config) (fs0 : gmap string FileData) (s : Worker) : Prop :=
  forall p d, fs0 !! p = Some d -> p <> manifest_path cfg -> fs s !! p = Some d.

(** The local path [fp] returned by [download_file] for the directory [d],
    from the file system [fs0]: the first free candidate of a sanitized
    name, now a file of [s]. *)
Definition fresh_path (fs0 : gmap string FileData) (d fp : string) (s : Worker) : Prop :=
  exists x n,
    fp = Url.join d (candidate (sanitize x) n)
    /\ fs0 !! fp = None
    /\ is_Some (fs s !! fp)
    /\ forall i, i < n -> is_Some (fs0 !! Url.join d (candidate (sanitize x) i)).

(** Every file of [fs0] is in [m] with its content. *)
Definition keeps_old (fs0 m : gmap string FileData) : Prop :=
  forall p d, fs0 !! p = Some d -> m !! p = Some d.

(** What [download_file] guarantees when it returns [a], from the file
    system [fs0]. *)
Definition download_post (cfg : Config) (fs0 : gmap string FileData) (d : string)
    (a : option string) (s : Worker) : Prop :=
  files_kept cfg fs0 s /\ forall fp, a = Some fp -> fresh_path fs0 d fp s.

(** ** Predicates of the proofs *)

(** The events that change the frontier. *)
Definition is_frontier (e : Event) : bool :=
  match e with
  | Visit _ | Enqueue _ | Dequeue _ => true
  | _ => false
  end.

(** A frontier without a URL twice in the queue, without a queued URL that
    is visited, and within the page limit. *)
Definition wf_frontier (limit : Z) (f : Frontier) : Prop :=
  NoDup (f_queue f)
  /\ (forall u, u ∈ f_queue f -> u ∉ f_visited f)
  /\ (Z.of_nat (size (f_visited f)) <= Z.max 0 limit)%Z.

(** The invariant of the frontier: the events so far are good, and their
    frontier is the worker's. *)
Definition on_track (cfg : Config) (s : Worker) : Prop :=
  good_log (max_pages (options cfg)) (log s) /\ tracks s.

(** The turns of the loop that remain at most: one per page still allowed,
    and one more while the worker is not stopped. *)
Definition turns_left (w : World) (cfg : Config) (s : Worker) : nat :=
  Z.to_nat (max_pages (options cfg) - Z.of_nat (size (visited_urls s)))
  + (if running_at w (reads s) then 1 else 0).

(** The invariant of stopping: nothing was started after a read that saw
    [False], and such a read is among the reads made. *)
Definition calm (w : World) (s : Worker) : Prop :=
  quiet_after_stop (log s)
  /\ (ReadRunning false ∈ log s -> exists j, j < reads s /\ running_at w j = false).

(** The last read of [self.running] saw [True]. *)
Definition live (w : World) (s : Worker) : Prop :=
  exists i, reads s = S i /\ running_at w i = true.

Definition active (w : World) (s : Worker) : Prop := calm w s /\ live w s.

Definition is_read (e : Event) : bool :=
  match e with
  | ReadRunning _ => true
  | _ => false
  end.

(** The worker holds everything [r0] and [V0] held. *)
Definition grown (r0 : Results) (V0 : gset string) (s : Worker) : Prop :=
  results_le r0 (results s) /\ V0 ⊆ visited_urls s.

(** Every link of the results passed [is_valid_url], and so did every URL
    that was queued, the seed apart. *)
Definition links_valid (cfg : Config) (s : Worker) : Prop :=
  (forall u, u ∈ links (results s) ∪ internal_links (results s)
               ∪ external_links (results s) -> is_valid_url u = true)
  /\ (forall u, Enqueue u ∈ log s -> u = url cfg \/ is_valid_url u = true).

(** The network location [nl] is the host [h] or a subdomain of it. *)
Definition host_within (nl h : string) : Prop :=
  nl = h \/ exists sub, nl = sub +:+ "." +:+ h.

(** ** The sentences of the specification that do not hold as written *)

(** Classification against the host of the seed, on every page. *)
Definition classified_by_seed_host (w : World) (cfg : Config) : Prop :=
  forall base h u parsed,
    page_base (url cfg) = Ok (base, h) ->
    u ∈ links (results (run w cfg (init ∅)).2) ->
    Url.urlparse u = Ok parsed ->
    (u ∈ internal_links (results (run w cfg (init ∅)).2)
       <-> host_within (Url.netloc parsed) h)
    /\ (u ∈ external_links (results (run w cfg (init ∅)).2)
         <-> ~ host_within (Url.netloc parsed) h).

(** A response that is a redirect (a status from 300 to 399, which
    [requests] returns as it is when it does not follow redirects), or that
    was reached through one. *)
Definition redirected (r : Response) : bool :=
  ((300 <=? status_code r) && (status_code r <? 400))
  || negb (bool_decide (history r = [])).

(** Redirected responses do not increment the page counter. *)
Definition redirects_not_counted (w : World) (cfg : Config) : Prop :=
  forall u s k r,
    u ∉ visited_urls s -> running_at w (reads s) = true ->
    k < max_retries -> succeeds_at w s u k r -> redirected r = true ->
    visited_pages (results (scrape_page w cfg u s).2) = visited_pages (results s).

(** A URL is dropped exactly when its scheme is not http or https or its
    path ends in an excluded extension. *)
Definition dropped_by_scheme_or_path (u : string) : Prop :=
  forall parsed, Url.urlparse u = Ok parsed ->
    (is_valid_url u = false
     <-> (Url.scheme parsed <> "http" /\ Url.scheme parsed <> "https")
         \/ existsb (fun ext => Py.endswith ext (Py.lower (Url.path parsed)))
              unwanted_exts = true).

(** Every URL accepted for the frontier queue has the scheme http or
    https. *)
Definition queue_only_http (w : World) (cfg : Config) : Prop :=
  forall u parsed,
    Enqueue u ∈ log (run w cfg (init ∅)).2 -> Url.urlparse u = Ok parsed ->
    Url.scheme parsed = "http" \/ Url.scheme parsed = "https".

(** ** A small site

    The seed page links to a subdomain, to another site and to two URLs
    with [.pdf] in them, and shows two images with one file name; the page
    of the subdomain links back to the seed's host and has an anchor that
    [urlparse] rejects; one URL is not HTML; everything else times out. *)

Definition html_page (hrefs imgs : list string) : Response :=
  {| content := "<html></html>";
     content_type := "text/html; charset=utf-8";
     soup := Ok {| a_hrefs := hrefs; img_srcs := imgs;
                   text_blocks := [("h1", "Title")];
                   page_emails := Ok []; page_phones := Ok [];
                   page_meta := Ok ∅; page_forms := Ok [];
                   script_srcs := []; stylesheet_hrefs := [] |};
     status_code := 200; history := [] |}.

Definition pdf_response : Response :=
  {| content := "%PDF-1.4"; content_type := "application/pdf";
     soup := Raise "not HTML"; status_code := 200; history := [] |}.

Definition demo_get (u : string) : Reply :=
  if bool_decide (u = "https://example.com/") then
    Responded (html_page
      ["https://blog.example.com/b"; "https://other.com";
       "https://example.com/file.pdf?download=1";
       "https://example.com/page?file=a.pdf"]
      ["https://cdn.example.com/logo.png"; "https://static.example.com/logo.png"])
  else if bool_decide (u = "https://blog.example.com/b") then
    Responded (html_page
      ["https://example.com/a"; "http://[::1/x"; "https://example.com/c"] [])
  else if bool_decide (u = "https://example.com/a") then Responded pdf_response
  else RequestException "timed out".

Definition demo_world : World :=
  {| stop_after := None;
     http_get := fun _ u => demo_get u;
     url_open := fun _ _ => Transferred "PNG";
     urljoin := fun base u => Ok (base +:+ u);
     open_error := fun _ => None;
     now := fun _ => "2024-01-01T00:00:00";
     percent_of := fun v m => (Z.of_nat v * 100 / m)%Z |}.

Definition demo_options : Options :=
  {| extract_links := true; extract_images := true; extract_text := true;
     extract_contacts := true; extract_meta := true; extract_forms := true;
     extract_resources := true; crawl_pages := true; max_pages := 3;
     download_images := true; download_resources := false;
     download_html := false |}.

Definition demo_cfg : Config :=
  {| url := "https://example.com/"; options := demo_options;
     download_dir := "downloads/run" |}.

(** The seed page as it arrives after a redirect that was followed, and a
    [301 Moved Permanently] with an HTML body as it arrives when redirects
    are not followed. *)
Definition followed_page : Response :=
  {| content := "<html></html>"; content_type := "text/html";
     soup := soup (html_page [] []); status_code := 200; history := [301] |}.

Definition moved_page : Response :=
  {| content := "<html>Moved</html>"; content_type := "text/html";
     soup := soup (html_page [] []); status_code := 301; history := [] |}.

Definition redirect_world : World :=
  {| stop_after := None;
     http_get := fun _ u =>
       if bool_decide (u = "https://example.com/") then Responded followed_page
       else Responded moved_page;
     url_open := url_open demo_world;
     urljoin := urljoin demo_world;
     open_error := open_error demo_world;
     now := now demo_world;
     percent_of := percent_of demo_world |}.

(** A worker that is given an FTP address as its seed. *)
Definition ftp_cfg : Config :=
  {| url := "ftp://example.com/pub"; options := demo_options;
     download_dir := "downloads/run" |}.

(** The worker with [u] alone in the queue. *)
Definition queued (u : string) : Worker := upd_queue (fun _ => [u]) (init ∅).

(** The same site with a worker that was stopped before its first read. *)
Definition stopped_world : World :=
  {| stop_after := Some 0;
     http_get := http_get demo_world;
     url_open := url_open demo_world;
     urljoin := urljoin demo_world;
     open_error := open_error demo_world;
     now := now demo_world;
     percent_of := percent_of demo_world |}.

(** A download directory that already holds [logo.png]. *)
Definition old_logo : gmap string FileData :=
  {[ "downloads/run/images/logo.png" := Bytes "old" ]}.

(** Whether the error signal with the message [msg], or the event
    [Enqueue u], is among the events. *)
Definition signals_error (msg : string) (l : list Event) : bool :=
  existsb (fun e => match e with SigError m => String.eqb m msg | _ => false end) l.

Definition enqueues (u : string) (l : list Event) : bool :=
  existsb (fun e => match e with Enqueue v => String.eqb v u | _ => false end) l.

(** ** Further observations of a run *)

(** The URLs of the [Enqueue] events and of the [Dequeue] events, in the
    order of the events. *)
Definition enqueued (l : list Event) : list string :=
  omap (fun e => match e with Enqueue u => Some u | _ => None end) l.

Definition dequeued (l : list Event) : list string :=
  omap (fun e => match e with Dequeue u => Some u | _ => None end) l.

(** The signals that end a run. *)
Definition is_finished (e : Event) : bool :=
  match e with
  | SigFinished => true
  | _ => false
  end.

Definition is_result (e : Event) : bool :=
  match e with
  | SigResult _ => true
  | _ => false
  end.

(** Neither [finished] nor [result] was emitted so far. *)
Definition unsignalled (s : Worker) : Prop :=
  forall e, e ∈ log s -> is_finished e = false /\ is_result e = false.

(** What [run] emits after its last read of [self.running]. *)
Definition closing_events (b : bool) (r : Results) : list Event :=
  if b then [SigResult r; SigStatus "Scraping completed"; SigFinished]
  else [SigStatus "Scraping stopped by user"; SigFinished; SigFinished].

(** At most three requests were made for each visited URL. *)
Definition three_per_page (s : Worker) : Prop :=
  gets (log s) <= 3 * size (visited_urls s).

(** Every page request so far was for a visited URL. *)
Definition fetches_visited (s : Worker) : Prop :=
  forall u, HttpGet u ∈ log s -> u ∈ visited_urls s.

(** The events of [run] and of its loop outside [scrape_page], the changes
    of the frontier apart. *)
Definition is_neutral (e : Event) : bool :=
  match e with
  | ReadRunning _ | SigError _ | SigStatus _ | SigResult _ | SigFinished => true
  | _ => false
  end.

(** The small site scraped without crawling. *)
Definition single_page_cfg : Config :=
  {| url := "https://example.com/";
     options :=
       {| extract_links := true; extract_images := true; extract_text := true;
          extract_contacts := true; extract_meta := true; extract_forms := true;
          extract_resources := true; crawl_pages := false; max_pages := 10;
          download_images := false; download_resources := false;
          download_html := true |};
     download_dir := "downloads/run" |}.

(** Every classified link is among the links, and every URL that was
    queued is the seed or an internal link. *)
Definition classified_within (cfg : Config) (s : Worker) : Prop :=
  (forall u, u ∈ internal_links (results s) ∪ external_links (results s) ->
     u ∈ links (results s))
  /\ (forall u, Enqueue u ∈ log s -> u = url cfg \/ u ∈ internal_links (results s)).

(** The line that [scrape_page] appends to the errors after the last
    failed attempt. *)
Definition access_error (u msg : string) : string :=
  "Error accessing " +:+ u +:+ ": " +:+ msg.

(** Every entry of the error list is the line of a network failure of a
    visited URL, for which the signal was emitted; and the pages counted
    and the errors together are at most the visited URLs. *)
Definition errors_accounted (s : Worker) : Prop :=
  (forall line, line ∈ errors (results s) ->
     exists u msg, line = access_error u msg /\ u ∈ visited_urls s
       /\ SigNetworkError u msg ∈ log s)
  /\ visited_pages (results s) + length (errors (results s))
     <= size (visited_urls s).

(** The list of the manifest that [download_file] appends to. *)
Definition manifest_list (ft : FileType) (m : Manifest) : list ManifestEntry :=
  match ft with
  | FtImage => m_images m
  | FtScript => m_scripts m
  | FtStylesheet => m_styles m
  | FtHtml => m_html m
  end.

(** The manifest entries [ms] list the download of [u] to [p], and every
    download of [ds]. *)
Definition lists_download (ms : list ManifestEntry) (u p : string) : Prop :=
  exists e, e ∈ ms /\ me_url e = u /\ me_local_path e = p.

Definition lists_all (ms : list ManifestEntry) (ds : list Download) : Prop :=
  forall d, d ∈ ds -> lists_download ms (dl_url d) (dl_local_path d).

(** The manifest lists every download that the results record, and has no
    entry for HTML pages. *)
Definition manifest_covers (s : Worker) : Prop :=
  lists_all (m_images (manifest s)) (downloaded_images (results s))
  /\ lists_all (m_scripts (manifest s)) (downloaded_scripts (results s))
  /\ lists_all (m_styles (manifest s)) (downloaded_stylesheets (results s))
  /\ m_html (manifest s) = [].

(** The file name [save_html] gives to the page at [u]. *)
Definition html_page_name (u : string) : string :=
  let page_name := Py.after_last "/" u in
  if bool_decide (page_name = "") || negb (Py.contains "." page_name)
  then Py.replace_char "/" "_" (Py.after_last_dslash u u) +:+ ".html"
  else page_name.

(** No character of [name] is one that [download_file] replaces. *)
Definition legal_name (name : string) : bool :=
  Url.all_chars (fun c => negb (is_illegal_char c)) name.

(** The number of requests for the URL [u] among the events. *)
Definition is_get_of (u : string) (e : Event) : bool :=
  match e with
  | HttpGet v => String.eqb v u
  | _ => false
  end.

Definition gets_of (u : string) (l : list Event) : nat :=
  length (filter (fun e => is_get_of u e = true) l).

(** No URL was requested more than three times, and none that is not
    visited. *)
Definition thrice_each (s : Worker) : Prop :=
  forall v, gets_of v (log s) <= 3
    /\ (v ∉ visited_urls s -> gets_of v (log s) = 0).

(** Since the events [l0], requests were made for [u] only. *)
Definition only_gets (l0 : list Event) (u : string) (s : Worker) : Prop :=
  exists l, log s = l0 ++ l /\ forall v, HttpGet v ∈ l -> v = u.

(** A site whose two pages link to one another: the second page, on a
    subdomain, links to a page of the seed's host that the seed links to
    as well. *)
Definition mutual_get (u : string) : Reply :=
  if bool_decide (u = "https://example.com/") then
    Responded (html_page ["https://blog.example.com/b"; "https://example.com/a"] [])
  else if bool_decide (u = "https://blog.example.com/b") then
    Responded (html_page ["https://example.com/"; "https://example.com/a"] [])
  else Responded (html_page [] []).

Definition mutual_world : World :=
  {| stop_after := None;
     http_get := fun _ u => mutual_get u;
     url_open := url_open demo_world;
     urljoin := urljoin demo_world;
     open_error := open_error demo_world;
     now := now demo_world;
     percent_of := percent_of demo_world |}.

(** The URLs that [download_file] opened, in the order of the events. *)
Definition opened (l : list Event) : list string :=
  omap (fun e => match e with UrlOpen u => Some u | _ => None end) l.

(** A URL with a tab in its host, which [urlparse] removes. *)
Definition tabbed_url : string :=
  "https://exam" +:+ String "009" "ple.com/a".

(** ** The seed URL

    [WebScraperApp.start_scraping] takes the text of the URL field, strips
    it, refuses an empty text and puts [http://] in front of a text that
    does not begin with [http://] or [https://]; the result is the [url]
    of the worker.  [None] stands for the warning [Please enter a URL]. *)
Definition start_scraping_url (text : string) : option string :=
  let url := Py.strip text in
  if bool_decide (url = "") then None
  else if negb (is_http url) then Some ("http://" +:+ url)
  else Some url.

(** A string that does not begin with white space. *)
Definition head_ok (s : string) : Prop :=
  match s with
  | EmptyString => True
  | String c _ => Py.isspace c = false
  end.

(** ** The contact extractors

    The two patterns of [extract_emails] and [extract_phones] are
    sequences of items, each a set of characters with a number of
    repetitions, greedy or lazy ([{m,n}?]).  [Re] is [re.findall] for such
    patterns, with the order of alternatives of a backtracking matcher: a
    greedy item first takes as many characters as it can and gives them
    back one at a time, a lazy item first takes as few as it may.  The
    classes [\d] and [\s] are those of a [str] pattern on code points
    below 256. *)

Module Re.

Record Item : Type := {
  cls : ascii -> bool;
  lo : nat;
  hi : option nat;
  greedy : bool
}.

(** Whether an item that has taken [n] characters may take one more. *)
Definition below (h : option nat) (n : nat) : bool :=
  match h with
  | None => true
  | Some m => n <? m
  end.

(** An item that has taken [n] characters, followed by the rest of the
    pattern [k], at the text [s]: the text of the first match, if any. *)
Fixpoint rep (it : Item) (k : string -> option string) (n : nat) (s : string)
    : option string :=
  let stop := if lo it <=? n then k s else None in
  let more :=
    match s with
    | String a s' =>
        if cls it a && below (hi it) n
        then String a <$> rep it k (S n) s'
        else None
    | EmptyString => None
    end in
  if greedy it then
    match more with
    | Some m => Some m
    | None => stop
    end
  else
    match stop with
    | Some m => Some m
    | None => more
    end.

(** [re.match]: the text of the first match of the pattern at the
    beginning of [s]. *)
Fixpoint match_at (p : list Item) : string -> option string :=
  match p with
  | [] => fun _ => Some EmptyString
  | it :: p' => rep it (match_at p') 0
  end.

(** The scan of [re.findall], for a pattern that does not match the empty
    string: [skip] characters of the last match are still to be passed. *)
Fixpoint findall_go (p : list Item) (skip : nat) (s : string) : list string :=
  match s with
  | EmptyString => []
  | String _ s' =>
      match skip with
      | S n => findall_go p n s'
      | 0 =>
          match match_at p s with
          | Some m => m :: findall_go p (String.length m - 1) s'
          | None => findall_go p 0 s'
          end
      end
  end.

Definition findall (p : list Item) (s : string) : list string := findall_go p 0 s.

(** [c], [c?], [x+], [x{m,n}], [x{m,}] and the lazy [x{m,n}?]. *)
Definition lit (c : ascii) : Item :=
  {| cls := Ascii.eqb c; lo := 1; hi := Some 1; greedy := true |}.
Definition opt (f : ascii -> bool) : Item :=
  {| cls := f; lo := 0; hi := Some 1; greedy := true |}.
Definition plus (f : ascii -> bool) : Item :=
  {| cls := f; lo := 1; hi := None; greedy := true |}.
Definition at_least (m : nat) (f : ascii -> bool) : Item :=
  {| cls := f; lo := m; hi := None; greedy := true |}.
Definition between (m n : nat) (f : ascii -> bool) : Item :=
  {| cls := f; lo := m; hi := Some n; greedy := true |}.
Definition between_lazy (m n : nat) (f : ascii -> bool) : Item :=
  {| cls := f; lo := m; hi := Some n; greedy := false |}.

(** A text [m] that an item may take. *)
Definition takes (it : Item) (m : string) : Prop :=
  Url.all_chars (cls it) m = true
  /\ lo it <= String.length m
  /\ match hi it with
     | None => True
     | Some h => String.length m <= h
     end.

(** [m] is the concatenation of texts [ms] that the items of [p] may take,
    one for each item. *)
Inductive splits : list Item -> list string -> Prop :=
| splits_nil : splits [] []
| splits_cons (it : Item) (p : list Item) (m : string) (ms : list string) :
    takes it m -> splits p ms -> splits (it :: p) (m :: ms).

Definition concat_all (ms : list string) : string :=
  foldr String.append EmptyString ms.

End Re.

(** [[a-zA-Z0-9]]. *)
Definition is_alnum (c : ascii) : bool := Url.is_ascii_alpha c || Url.is_digit c.

(** [[a-zA-Z0-9._%+-]] and [[a-zA-Z0-9.-]]. *)
Definition is_local_char (c : ascii) : bool :=
  is_alnum c || bool_decide (c ∈ ["."; "_"; "%"; "+"; "-"]%char).

Definition is_domain_char (c : ascii) : bool :=
  is_alnum c || bool_decide (c ∈ ["."; "-"]%char).

(** [[-.\s]]. *)
Definition is_separator (c : ascii) : bool :=
  Ascii.eqb c "-" || Ascii.eqb c "." || Py.isspace c.

(** [[a-zA-Z0-9._%+-]+@[a-zA-Z0-9.-]+\.[a-zA-Z]{2,}]. *)
Definition email_pattern : list Re.Item :=
  [Re.plus is_local_char; Re.lit "@"; Re.plus is_domain_char; Re.lit ".";
   Re.at_least 2 Url.is_ascii_alpha].

(** [\+?\d{1,4}?[-.\s]?\(?\d{1,3}?\)?[-.\s]?\d{1,4}[-.\s]?\d{1,4}[-.\s]?\d{1,9}]. *)
Definition phone_pattern : list Re.Item :=
  [Re.opt (Ascii.eqb "+"); Re.between_lazy 1 4 Url.is_digit; Re.opt is_separator;
   Re.opt (Ascii.eqb "("); Re.between_lazy 1 3 Url.is_digit;
   Re.opt (Ascii.eqb ")"); Re.opt is_separator; Re.between 1 4 Url.is_digit;
   Re.opt is_separator; Re.between 1 4 Url.is_digit; Re.opt is_separator;
   Re.between 1 9 Url.is_digit].

(** [extract_emails] and [extract_phones]. *)
Definition extract_emails (text : string) : gset string :=
  list_to_set (Re.findall email_pattern text).

Definition extract_phones (text : string) : gset string :=
  list_to_set (Re.findall phone_pattern text).

(** The number of digits of a text. *)
Fixpoint digits (s : string) : nat :=
  match s with
  | EmptyString => 0
  | String c s' => (if Url.is_digit c then 1 else 0) + digits s'
  end.

(** The characters of a phone number. *)
Definition is_phone_char (c : ascii) : bool :=
  Url.is_digit c || is_separator c || bool_decide (c ∈ ["+"; "("; ")"]%char).

(** ** [extract_meta_info]

    The page as this method reads it: [soup.title] (absent, or present
    with its [.string], which may be [None]) and, for each [meta] tag in
    document order, its attributes [name], [property] and [content]. *)

Record MetaTag : Type := {
  mt_name : option string;
  mt_property : option string;
  mt_content : option string
}.

(** The truth value of an attribute: [None] and the empty string are
    false. *)
Definition truthy (x : option string) : bool :=
  match x with
  | Some s => negb (bool_decide (s = ""))
  | None => false
  end.

(** [a or b]. *)
Definition py_or (a b : option string) : option string :=
  if truthy a then a else b.

(** The body of the loop over the [meta] tags. *)
Definition add_meta (meta : gmap string (option string)) (tag : MetaTag)
    : gmap string (option string) :=
  let name := py_or (mt_name tag) (mt_property tag) in
  let content := mt_content tag in
  if truthy name && truthy content then
    match name with
    | Some n => <[n := content]> meta
    | None => meta
    end
  else meta.

Definition extract_meta_info (title : option (option string)) (tags : list MetaTag)
    : gmap string (option string) :=
  let meta :=
    match title with
    | Some t => {["title" := t]}
    | None => ∅
    end in
  foldl add_meta meta tags.

(** The key and the content that a tag contributes, if any. *)
Definition meta_entry (tag : MetaTag) : option (string * string) :=
  match py_or (mt_name tag) (mt_property tag), mt_content tag with
  | Some n, Some c =>
      if negb (bool_decide (n = "")) && negb (bool_decide (c = ""))
      then Some (n, c) else None
  | _, _ => None
  end.

(** The content of the last tag of [tags] that contributes the key [k]. *)
Definition last_content (k : string) (tags : list MetaTag) : option string :=
  snd <$> last (filter (fun e => e.1 = k) (omap meta_entry tags)).

(** ** [format_size]

    The size is a non-negative integer ([total_data_size]); the divisions
    by [1024.0] and the comparison with it are exact on floats for sizes
    below [2^53], so the value at each turn of the loop is the fraction
    [num / den] with [den] a power of 1024.  [format_2f] is the
    format [.2f]: the nearest hundredth, the even one of two that are
    equally near. *)

Definition round_half_even (num den : Z) : Z :=
  let q := (num / den)%Z in
  let r := (num mod den)%Z in
  if (2 * r <? den)%Z then q
  else if (den <? 2 * r)%Z then (q + 1)%Z
  else if Z.even q then q else (q + 1)%Z.

Definition two_digits (n : Z) : string :=
  if (n <? 10)%Z then "0" +:+ pretty n else pretty n.

(** The text of [h] hundredths. *)
Definition show_hundredths (h : Z) : string :=
  pretty (h / 100)%Z +:+ "." +:+ two_digits (h mod 100)%Z.

Definition format_2f (num den : Z) : string :=
  show_hundredths (round_half_even (100 * num) den).

Fixpoint format_size_go (units : list string) (num den : Z) : string :=
  match units with
  | [] => format_2f num den +:+ " TB"
  | unit :: units' =>
      if (num <? 1024 * den)%Z then format_2f num den +:+ " " +:+ unit
      else format_size_go units' num (1024 * den)
  end.

Definition format_size (size_bytes : Z) : string :=
  format_size_go ["B"; "KB"; "MB"; "GB"] size_bytes 1.

(** The units, by the number of divisions. *)
Definition unit_name (k : nat) : string :=
  nth k ["B"; "KB"; "MB"; "GB"] "TB".

(** ** The name of the download folder

    [create_download_directories] takes the option [folder_name] or, when
    it is empty, makes a name of the network location of the seed, with
    [_] for every colon, and of the time as [%Y%m%d_%H%M%S] (the year
    printed as it is, which is [%Y] for the years from 1000). *)

Record DateTime : Type := {
  dt_year : nat;
  dt_month : nat;
  dt_day : nat;
  dt_hour : nat;
  dt_minute : nat;
  dt_second : nat
}.

Definition pad2 (n : nat) : string :=
  if n <? 10 then "0" +:+ pretty n else pretty n.

Definition strftime_compact (t : DateTime) : string :=
  pretty (dt_year t) +:+ pad2 (dt_month t) +:+ pad2 (dt_day t) +:+ "_"
  +:+ pad2 (dt_hour t) +:+ pad2 (dt_minute t) +:+ pad2 (dt_second t).

Definition folder_name_for (folder_name seed : string) (t : DateTime) : Exc string :=
  if bool_decide (folder_name = "") then
    match Url.urlparse seed with
    | Raise m => Raise m
    | Ok parsed =>
        Ok (Py.replace_char ":" "_" (Url.netloc parsed) +:+ "_"
            +:+ strftime_compact t)
    end
  else Ok folder_name.

(** [self.download_dir], from the option [download_path]. *)
Definition download_dir_for (download_path folder_name seed : string) (t : DateTime)
    : Exc string :=
  match folder_name_for folder_name seed t with
  | Raise m => Raise m
  | Ok name => Ok (Url.join download_path name)
  end.

(** * Proofs *)
(** ** Facts about the string primitives *)

Lemma String_app (c : ascii) (a b : string) :
  String c a +:+ b = String c (a +:+ b).
Proof. reflexivity. Qed.

Lemma chars_app (a b : string) : Py.chars (a +:+ b) = Py.chars a ++ Py.chars b.
Proof. induction a as [|c a IH]; simpl; [done|]. by rewrite <- IH. Qed.

Lemma chars_inj (a b : string) : Py.chars a = Py.chars b -> a = b.
Proof.
  intros H. rewrite <- (String.string_of_list_ascii_of_string a),
    <- (String.string_of_list_ascii_of_string b). unfold Py.chars in H. by rewrite H.
Qed.

Lemma chars_of_list (l : list ascii) :
  Py.chars (String.string_of_list_ascii l) = l.
Proof. apply String.list_ascii_of_string_of_list_ascii. Qed.

Lemma endswith_spec (p s : string) :
  Py.endswith p s = true <-> exists pre, s = pre +:+ p.
Proof.
  unfold Py.endswith. rewrite bool_decide_eq_true. split.
  - intros [k Hk]. exists (String.string_of_list_ascii k).
    apply chars_inj. by rewrite chars_app, chars_of_list.
  - intros [pre ->]. exists (Py.chars pre). apply chars_app.
Qed.

Lemma startswith_spec (p s : string) :
  Py.startswith p s = true <-> exists rest, s = p +:+ rest.
Proof.
  unfold Py.startswith. revert s. induction p as [|c p IH]; intros s; simpl.
  - destruct s; split; eauto.
  - destruct s as [|d s]; simpl.
    + split; [done | by intros [? ?]].
    + destruct (ascii_dec c d) as [->|Hne].
      * rewrite IH. split; intros [r Hr]; exists r;
          rewrite ?String_app in *; congruence.
      * split; [done|]. intros [r Hr]. rewrite String_app in Hr. congruence.
Qed.

Lemma app_assoc_s (a b c : string) : (a +:+ b) +:+ c = a +:+ (b +:+ c).
Proof. induction a; rewrite ?String_app; [done | congruence]. Qed.

Lemma app_inv_tail_s (a b c : string) : a +:+ c = b +:+ c -> a = b.
Proof.
  intros H. apply chars_inj. apply (f_equal Py.chars) in H.
  rewrite !chars_app in H. by apply app_inv_tail in H.
Qed.

Lemma existsb_false {A} (f : A -> bool) (l : list A) :
  existsb f l = false <-> forall x, x ∈ l -> f x = false.
Proof.
  induction l as [|a l IH]; simpl.
  - split; [|done]. intros _ x Hx. inversion Hx.
  - rewrite orb_false_iff, IH. split.
    + intros [Ha Hl] x Hx. inversion Hx; subst; auto.
    + intros H. split; [apply H; left | intros x Hx; apply H; by right].
Qed.

(** ** Rules for [hoare], [keeps] and [total] *)

Section Rules.
Context {A B : Type}.
Implicit Types (P E F : Worker -> Prop).

Lemma hoare_conseq P P' (m : M A) (Q Q' : A -> Worker -> Prop) E E' F F' :
  hoare P' m Q' E' F' ->
  (forall s, P s -> P' s) -> (forall a s, Q' a s -> Q a s) ->
  (forall s, E' s -> E s) -> (forall s, F' s -> F s) -> hoare P m Q E F.
Proof.
  intros H HP HQ HE HF s Hs. specialize (H s (HP s Hs)).
  destruct (m s) as [[a|e|] s']; auto.
Qed.

Lemma hoare_ret P (a : A) (Q : A -> Worker -> Prop) E F :
  (forall s, P s -> Q a s) -> hoare P (ret a) Q E F.
Proof. intros H s Hs. by apply H. Qed.

Lemma hoare_raise P msg (Q : A -> Worker -> Prop) E F :
  (forall s, P s -> E s) -> hoare P (raise msg) Q E F.
Proof. intros H s Hs. by apply H. Qed.

Lemma hoare_bind P (m : M A) (f : A -> M B) (Q' : A -> Worker -> Prop)
    (Q : B -> Worker -> Prop) E F :
  hoare P m Q' E F -> (forall a, hoare (Q' a) (f a) Q E F) ->
  hoare P (bind m f) Q E F.
Proof.
  intros Hm Hf s Hs. unfold bind. specialize (Hm s Hs).
  destruct (m s) as [[a|e|] s']; auto. by apply Hf.
Qed.

Lemma hoare_try P (m : M A) (h : string -> M A) (Q : A -> Worker -> Prop) E E' F :
  hoare P m Q E' F -> (forall e, hoare E' (h e) Q E F) ->
  hoare P (try_except m h) Q E F.
Proof.
  intros Hm Hh s Hs. unfold try_except. specialize (Hm s Hs).
  destruct (m s) as [[a|e|] s']; auto. by apply Hh.
Qed.

Lemma hoare_get P (Q : Worker -> Worker -> Prop) E F :
  (forall s, P s -> Q s s) -> hoare P get Q E F.
Proof. intros H s Hs. by apply H. Qed.

Lemma keeps_state I (m : M A) (s : Worker) : keeps I m -> I s -> I (m s).2.
Proof. intros H Hs. specialize (H s Hs). by destruct (m s) as [[a|e|] s']. Qed.

Lemma hoare_state P I (m : M A) (s : Worker) :
  hoare P m (fun _ => I) I I -> P s -> I (m s).2.
Proof. intros H Hs. specialize (H s Hs). by destruct (m s) as [[a|e|] s']. Qed.

Lemma keeps_ret I (a : A) : keeps I (ret a).
Proof. by apply hoare_ret. Qed.

Lemma keeps_raise I msg : keeps I (@raise A msg).
Proof. by apply hoare_raise. Qed.

Lemma keeps_lift I (x : Exc A) : keeps I (lift x).
Proof. destruct x; [apply keeps_ret | apply keeps_raise]. Qed.

Lemma keeps_timeout I : keeps I (fun s => (@OutOfFuel A, s)).
Proof. by intros s Hs. Qed.

Lemma keeps_bind I (m : M A) (f : A -> M B) :
  keeps I m -> (forall a, keeps I (f a)) -> keeps I (bind m f).
Proof. intros Hm Hf. eapply hoare_bind; [exact Hm | exact Hf]. Qed.

Lemma keeps_try I (m : M A) (h : string -> M A) :
  keeps I m -> (forall e, keeps I (h e)) -> keeps I (try_except m h).
Proof. intros Hm Hh. eapply hoare_try; [exact Hm | exact Hh]. Qed.

Lemma keeps_finally I (m : M A) (k : M unit) :
  keeps I m -> keeps I k -> keeps I (try_finally m k).
Proof.
  intros Hm Hk s Hs. unfold try_finally. specialize (Hm s Hs).
  destruct (m s) as [[a|e|] s']; auto; specialize (Hk s' Hm);
    destruct (k s') as [[[]|e'|] s'']; auto.
Qed.

Lemma keeps_conseq I (m : M A) (Q : A -> Worker -> Prop) E F :
  keeps I m -> (forall a s, I s -> Q a s) -> (forall s, I s -> E s) ->
  (forall s, I s -> F s) -> hoare I m Q E F.
Proof. intros H HQ HE HF. eapply hoare_conseq; [exact H|..]; auto. Qed.

(** A step that keeps [I], in front of the rest. *)
Lemma hoare_step I (m : M A) (f : A -> M B) (Q : B -> Worker -> Prop) E F :
  keeps I m -> (forall s, I s -> E s) -> (forall s, I s -> F s) ->
  (forall a, hoare I (f a) Q E F) -> hoare I (bind m f) Q E F.
Proof.
  intros Hm HE HF Hf. eapply hoare_bind; [|exact Hf].
  apply keeps_conseq; auto.
Qed.

Lemma total_ret P (a : A) : total P (ret a).
Proof. by intros s _. Qed.

Lemma total_raise P msg : total P (@raise A msg).
Proof. by intros s _. Qed.

Lemma total_lift P (x : Exc A) : total P (lift x).
Proof. destruct x; by intros s _. Qed.

Lemma total_bind P (m : M A) (f : A -> M B) (Q : Worker -> Prop) :
  total P m -> keeps Q m -> (forall s, P s -> Q s) ->
  (forall a, total Q (f a)) -> total P (bind m f).
Proof.
  intros Hm Hk HPQ Hf s Hs. unfold bind. specialize (Hm s Hs).
  specialize (Hk s (HPQ s Hs)).
  destruct (m s) as [[a|e|] s']; simpl in *; try done. by apply Hf.
Qed.

Lemma total_try P (m : M A) (h : string -> M A) (Q : Worker -> Prop) :
  total P m -> keeps Q m -> (forall s, P s -> Q s) ->
  (forall e, total Q (h e)) -> total P (try_except m h).
Proof.
  intros Hm Hk HPQ Hh s Hs. unfold try_except. specialize (Hm s Hs).
  specialize (Hk s (HPQ s Hs)).
  destruct (m s) as [[a|e|] s']; simpl in *; try done. by apply Hh.
Qed.

End Rules.

Lemma keeps_get I : keeps I get.
Proof. by apply hoare_get. Qed.

Lemma keeps_modify I (f : Worker -> Worker) :
  (forall s, I s -> I (f s)) -> keeps I (modify f).
Proof. intros H s. apply H. Qed.

Lemma keeps_when I (b : bool) (m : M unit) : keeps I m -> keeps I (when b m).
Proof. destruct b; [done|]. intros _. apply keeps_ret. Qed.

Lemma keeps_for_each {A} I (f : A -> M unit) (l : list A) :
  (forall x, keeps I (f x)) -> keeps I (for_each f l).
Proof.
  intros Hf. induction l as [|x l IH]; simpl; [apply keeps_ret|].
  apply keeps_bind; auto.
Qed.

Lemma keeps_true {A} (m : M A) : keeps (fun _ => True) m.
Proof. intros s _. by destruct (m s) as [[a|e|] s']. Qed.

Lemma total_all_bind {A B} (m : M A) (f : A -> M B) :
  total (fun _ => True) m -> (forall a, total (fun _ => True) (f a)) ->
  total (fun _ => True) (bind m f).
Proof.
  intros Hm Hf. eapply total_bind; [exact Hm | apply keeps_true | done | exact Hf].
Qed.

Lemma total_all_try {A} (m : M A) (h : string -> M A) :
  total (fun _ => True) m -> (forall e, total (fun _ => True) (h e)) ->
  total (fun _ => True) (try_except m h).
Proof.
  intros Hm Hh. eapply total_try; [exact Hm | apply keeps_true | done | exact Hh].
Qed.

Lemma total_get P : total P get.
Proof. by intros s _. Qed.

Lemma total_modify P (f : Worker -> Worker) : total P (modify f).
Proof. by intros s _. Qed.

Lemma total_when (b : bool) (m : M unit) :
  total (fun _ => True) m -> total (fun _ => True) (when b m).
Proof. destruct b; [done|]. intros _. apply total_ret. Qed.

Lemma total_for_each {A} (f : A -> M unit) (l : list A) :
  (forall x, total (fun _ => True) (f x)) -> total (fun _ => True) (for_each f l).
Proof.
  intros Hf. induction l as [|x l IH]; simpl; [apply total_ret|].
  apply total_all_bind; auto.
Qed.

(** [keeps_step] takes a computation apart along its structure; what is
    left are the state updates and the calls of other methods. *)
Ltac keeps_step :=
  lazymatch goal with
  | |- keeps _ (ret _) => apply keeps_ret
  | |- keeps _ (raise _) => apply keeps_raise
  | |- keeps _ get => apply keeps_get
  | |- keeps _ (lift _) => apply keeps_lift
  | |- keeps _ (fun s => (OutOfFuel, s)) => apply keeps_timeout
  | |- keeps _ (bind _ _) => apply keeps_bind; [|intros ?]
  | |- keeps _ (try_except _ _) => apply keeps_try; [|intros ?]
  | |- keeps _ (try_finally _ _) => apply keeps_finally
  | |- keeps _ (when _ _) => apply keeps_when
  | |- keeps _ (for_each _ _) => apply keeps_for_each; intros ?
  | |- keeps _ (if ?b then _ else _) => destruct b eqn:?
  | |- keeps _ (match ?x with _ => _ end) => destruct x eqn:?
  | |- keeps _ (let _ := _ in _) => cbv zeta
  end.

Ltac total_step :=
  lazymatch goal with
  | |- total _ (ret _) => apply total_ret
  | |- total _ (raise _) => apply total_raise
  | |- total _ get => apply total_get
  | |- total _ (modify _) => apply total_modify
  | |- total _ (lift _) => apply total_lift
  | |- total _ (bind _ _) => apply total_all_bind; [|intros ?]
  | |- total _ (try_except _ _) => apply total_all_try; [|intros ?]
  | |- total _ (when _ _) => apply total_when
  | |- total _ (for_each _ _) => apply total_for_each; intros ?
  | |- total _ (if ?b then _ else _) => destruct b eqn:?
  | |- total _ (match ?x with _ => _ end) => destruct x eqn:?
  | |- total _ (let _ := _ in _) => cbv zeta
  end.

(** ** The URL predicates *)

Lemma is_valid_url_spec (u : string) :
  is_valid_url u = true <->
  (Py.startswith "http://" u = true \/ Py.startswith "https://" u = true)
  /\ forall ext, ext ∈ unwanted_exts -> Py.endswith ext (Py.lower u) = false.
Proof.
  unfold is_valid_url, is_http. rewrite <- existsb_false, <- orb_true_iff.
  destruct (Py.startswith "http://" u || Py.startswith "https://" u); cbn [negb];
    [|intuition congruence].
  destruct (existsb (fun ext => Py.endswith ext (Py.lower u)) unwanted_exts);
    intuition congruence.
Qed.

Lemma is_valid_url_http (u : string) : is_valid_url u = true -> is_http u = true.
Proof. unfold is_valid_url. by destruct (is_http u). Qed.

Lemma is_internal_link_spec (u d : string) (parsed : Url.ParseResult) :
  Url.urlparse u = Ok parsed ->
  exists b, is_internal_link u d = Ok b /\
    (b = true <->
     Url.netloc parsed = d \/ exists sub, Url.netloc parsed = sub +:+ "." +:+ d).
Proof.
  intros Hp. unfold is_internal_link. rewrite Hp. eexists; split; [done|].
  rewrite orb_true_iff, bool_decide_eq_true, endswith_spec. done.
Qed.

Lemma break_at_idem (p : ascii -> bool) (s l r : string) :
  Py.break_at p s = (l, r) -> Py.break_at p l = (l, "").
Proof.
  revert l r. induction s as [|a s IH]; intros l r; simpl.
  - by intros [= <- <-].
  - destruct (p a) eqn:Hp; [by intros [= <- <-]|].
    destruct (Py.break_at p s) as [l' r'] eqn:Hb. intros [= <- <-].
    simpl. rewrite Hp. by rewrite (IH l' r').
Qed.

Lemma is_http_inv (u : string) :
  is_http u = true ->
  exists sch rest, (sch = "http" \/ sch = "https") /\ u = sch +:+ "://" +:+ rest.
Proof.
  unfold is_http. rewrite orb_true_iff, !startswith_spec.
  intros [[r ->]|[r ->]]; [exists "http", r | exists "https", r]; auto.
Qed.

(** What [remove_unsafe] returns is [safe], and a safe text is not changed
    by it. *)
Lemma safe_remove_unsafe (s : string) : Url.safe (Url.remove_unsafe s) = true.
Proof.
  induction s as [|a s IH]; [done|]. simpl.
  destruct (Url.is_unsafe a) eqn:Ha; [done|]. unfold Url.safe. simpl.
  by rewrite Ha.
Qed.

Lemma remove_unsafe_safe (s : string) : Url.safe s = true -> Url.remove_unsafe s = s.
Proof.
  unfold Url.safe. induction s as [|a s IH]; [done|]. simpl.
  intros [Ha Hs]%andb_true_iff. apply negb_true_iff in Ha. rewrite Ha.
  by rewrite IH.
Qed.

Lemma safe_break_at (p : ascii -> bool) (s l r : string) :
  Py.break_at p s = (l, r) -> Url.safe s = true -> Url.safe l = true /\ Url.safe r = true.
Proof.
  unfold Url.safe. revert l r. induction s as [|a s IH]; intros l r; simpl.
  - by intros [= <- <-].
  - destruct (p a); [by intros [= <- <-]|].
    destruct (Py.break_at p s) as [l' r']. intros [= <- <-].
    intros [Ha Hs]%andb_true_iff. destruct (IH _ _ eq_refl Hs) as [Hl Hr].
    simpl. by rewrite Ha, Hl.
Qed.

Lemma safe_app (a b : string) : Url.safe (a +:+ b) = Url.safe a && Url.safe b.
Proof.
  unfold Url.safe. induction a as [|c a IH]; [done|]. simpl.
  by rewrite IH, andb_assoc.
Qed.

Lemma urlsplit_http (sch rest : string) :
  sch = "http" \/ sch = "https" ->
  Url.urlsplit (sch +:+ "://" +:+ rest) =
    let '(nl, url2) := Py.break_at Url.is_netloc_delim (Url.remove_unsafe rest) in
    match Url.check_netloc nl with
    | Raise m => Raise m
    | Ok _ =>
        let '(url3, frag) := Url.split_once "#" url2 in
        let '(url4, q) := Url.split_once "?" url3 in
        Ok {| Url.scheme := sch; Url.netloc := nl; Url.path := url4;
              Url.params := ""; Url.query := q; Url.fragment := frag |}
    end.
Proof. by intros [-> | ->]. Qed.

Lemma urlparse_split (u : string) (r : Url.ParseResult) :
  Url.urlparse u = Ok r ->
  exists r0, Url.urlsplit u = Ok r0 /\ Url.scheme r = Url.scheme r0
    /\ Url.netloc r = Url.netloc r0.
Proof.
  unfold Url.urlparse. destruct (Url.urlsplit u) as [r0|]; [|done].
  destruct (_ && _).
  - destruct (Url.splitparams _). intros [= <-]. by exists r0.
  - intros [= <-]. by exists r0.
Qed.

(** The network location of a URL that begins with [http://] or
    [https://]: it is what [_splitnetloc] cuts off the cleaned rest, and
    it has passed the checks. *)
Lemma urlparse_http_netloc (sch rest : string) (r : Url.ParseResult) :
  sch = "http" \/ sch = "https" ->
  Url.urlparse (sch +:+ "://" +:+ rest) = Ok r ->
  Url.scheme r = sch
  /\ Py.break_at Url.is_netloc_delim (Url.remove_unsafe rest)
     = (Url.netloc r, (Py.break_at Url.is_netloc_delim (Url.remove_unsafe rest)).2)
  /\ Url.check_netloc (Url.netloc r) = Ok tt
  /\ Url.safe (Url.netloc r) = true.
Proof.
  intros Hsch Hp.
  destruct (urlparse_split _ _ Hp) as (r0 & Hs & Hsc & Hnl).
  rewrite urlsplit_http in Hs by done.
  destruct (Py.break_at Url.is_netloc_delim (Url.remove_unsafe rest))
    as [nl url2] eqn:Hb.
  destruct (Url.check_netloc nl) as [[]|] eqn:Hchk; [|done].
  destruct (Url.split_once "#" url2) as [url3 frag].
  destruct (Url.split_once "?" url3) as [url4 q].
  injection Hs as <-. simpl in Hsc, Hnl. rewrite Hsc, Hnl.
  repeat split; [done|].
  by destruct (safe_break_at _ _ _ _ Hb (safe_remove_unsafe rest)).
Qed.

(** The base URL [scheme://netloc] parses into its two parts. *)
Lemma urlparse_base (sch nl url2 : string) :
  sch = "http" \/ sch = "https" ->
  Py.break_at Url.is_netloc_delim nl = (nl, url2) ->
  Url.check_netloc nl = Ok tt -> Url.safe nl = true ->
  Url.urlparse (sch +:+ "://" +:+ nl)
  = Ok {| Url.scheme := sch; Url.netloc := nl; Url.path := "";
          Url.params := ""; Url.query := ""; Url.fragment := "" |}.
Proof.
  intros Hsch Hb Hchk Hsafe. unfold Url.urlparse.
  rewrite urlsplit_http by done. rewrite (remove_unsafe_safe _ Hsafe).
  rewrite (break_at_idem _ _ _ _ Hb), Hchk. simpl.
  by rewrite andb_false_r.
Qed.

(** A URL that begins with [http://] or [https://] has that scheme, and
    the base domain of its page is its network location. *)
Lemma page_base_http (u : string) (r : Url.ParseResult) :
  is_http u = true -> Url.urlparse u = Ok r ->
  (Url.scheme r = "http" \/ Url.scheme r = "https")
  /\ page_base u = Ok (Url.scheme r +:+ "://" +:+ Url.netloc r, Url.netloc r).
Proof.
  intros (sch & rest & Hsch & ->)%is_http_inv Hp.
  destruct (urlparse_http_netloc _ _ _ Hsch Hp) as (Hsc & Hb & Hchk & Hsafe).
  split; [by rewrite Hsc|].
  unfold page_base, extract_base_url. rewrite Hp, Hsc.
  by rewrite (urlparse_base _ _ _ Hsch (break_at_idem _ _ _ _ Hb) Hchk Hsafe).
Qed.

(** ** Frames: what a method leaves alone *)

Ltac unfold_asset :=
  unfold process_image, process_script, process_stylesheet, process_asset,
    download_file, free_name, transfer, write_file, read_running.

Ltac unfold_page :=
  unfold handle_response, save_html, extract_page, process_link, offer_link,
    record_meta, process_text; unfold_asset; unfold write_file.

Ltac unfold_prims :=
  unfold http_request, mark_visited, enqueue, dequeue, emit, upd_res.

(** A leaf [modify f] that does not touch what [I] speaks of. *)
Ltac frame_leaf :=
  apply keeps_modify; intros; simpl in *; done.

Ltac as_keeps :=
  try match goal with |- hoare ?I ?m _ _ _ => change (keeps I m) end.

Ltac frame := as_keeps; repeat keeps_step; try frame_leaf.

Section Fetch.
Context (w : World) (cfg : Config).

Lemma keeps_fetch_attempts (I : Worker -> Prop) (u : string) (left : nat) :
  keeps I (http_request w u) -> keeps I (emit Sleep) ->
  (forall m, keeps I (emit (SigNetworkError u m))) ->
  (forall line, keeps I (upd_res (upd_errors (fun l => l ++ [line])))) ->
  keeps I (fetch_attempts w u left).
Proof.
  intros Hreq Hsleep Hnet Herr. induction left as [|left IH]; simpl.
  - apply keeps_ret.
  - apply keeps_bind; [done|]. intros [m|m|r]; [|apply keeps_raise|apply keeps_ret].
    destruct left; repeat (apply keeps_bind; [done|intros _]);
      [apply keeps_ret | apply IH].
Qed.

Lemma fetch_attempts_success (u : string) (r : Response) (left k : nat) (s : Worker) :
  k < left -> succeeds_at w s u k r ->
  exists s', fetch_attempts w u left s = (Val (Some r), s')
    /\ results s' = results s /\ visited_urls s' = visited_urls s
    /\ queue s' = queue s.
Proof.
  revert k s. induction left as [|left IH]; intros k s Hk [Hfail Hok]; [lia|].
  destruct k as [|k].
  - rewrite Nat.add_0_r in Hok. eexists. simpl.
    unfold bind, http_request, get, emit, modify. simpl. rewrite Hok. simpl.
    done.
  - destruct (Hfail 0) as [m Hm]; [lia|]. rewrite Nat.add_0_r in Hm.
    destruct left as [|left]; [lia|].
    edestruct (IH k (upd_log (fun l => l ++ [Sleep])
      (upd_requests S (upd_log (fun l => l ++ [HttpGet u]) s)))) as (s' & Hs' & ?);
      [lia| |].
    { split; simpl.
      - intros j Hj. destruct (Hfail (S j)) as [m' Hm']; [lia|]. exists m'.
        by rewrite <- Nat.add_succ_r.
      - by rewrite <- Nat.add_succ_r. }
    exists s'. split; [|done]. rewrite <- Hs'.
    change (fetch_attempts w u (S (S left)) s) with
      (bind (http_request w u) (fun reply =>
        match reply with
        | Responded r => ret (Some r)
        | OtherException msg => raise msg
        | RequestException msg => bind (emit Sleep) (fun _ => fetch_attempts w u (S left))
        end) s).
    unfold bind at 1. unfold http_request, get, emit, modify, bind, ret. simpl.
    rewrite Hm. done.
Qed.

End Fetch.

(** ** One page *)

Section Page.
Context (w : World) (cfg : Config).

Local Abbreviation scrape_handler u :=
  (fun msg => emit (SigError ("Error scraping " +:+ u +:+ ": " +:+ msg))).

Lemma scrape_page_start (u : string) (s : Worker) :
  u ∉ visited_urls s -> running_at w (reads s) = true ->
  scrape_page w cfg u s
  = try_except (page_body w cfg u) (scrape_handler u) (page_started u s).
Proof.
  intros Hu Hrun. unfold scrape_page, bind at 1, get.
  rewrite bool_decide_false by done.
  unfold bind at 1, read_running, bind, get, modify, emit, ret. simpl.
  rewrite Hrun. reflexivity.
Qed.

Lemma scrape_page_visited (u : string) (s : Worker) :
  u ∈ visited_urls s -> scrape_page w cfg u s = (Val tt, s).
Proof.
  intros Hu. unfold scrape_page, bind at 1, get. by rewrite bool_decide_true.
Qed.

Lemma scrape_page_stopped (u : string) (s : Worker) :
  u ∉ visited_urls s -> running_at w (reads s) = false ->
  scrape_page w cfg u s
  = (Val tt, upd_log (fun l => l ++ [ReadRunning false]) (upd_reads S s)).
Proof.
  intros Hu Hrun. unfold scrape_page, bind at 1, get.
  rewrite bool_decide_false by done.
  unfold bind at 1, read_running, bind, get, modify, emit, ret. simpl.
  rewrite Hrun. reflexivity.
Qed.

(** *** The byte counter *)

Lemma handle_response_size (u : string) (r : Response) (n : nat) :
  hoare (fun s => total_data_size (results s) = n) (handle_response w cfg u r)
    (fun _ s => total_data_size (results s) = n + String.length (content r))
    (fun s => total_data_size (results s) = n + String.length (content r))
    (fun s => total_data_size (results s) = n + String.length (content r)).
Proof.
  unfold handle_response.
  eapply hoare_bind with (Q' := fun _ s =>
    total_data_size (results s) = n + String.length (content r)).
  - intros s Hs. simpl. by rewrite Hs.
  - intros _. unfold_page. unfold_prims. frame.
Qed.

Lemma page_size (u : string) (r : Response) (k : nat) (s : Worker) :
  u ∉ visited_urls s -> running_at w (reads s) = true ->
  k < max_retries -> succeeds_at w s u k r ->
  total_data_size (results (scrape_page w cfg u s).2)
  = total_data_size (results s) + String.length (content r).
Proof.
  intros Hu Hrun Hk Hok. rewrite scrape_page_start by done.
  destruct (fetch_attempts_success w u r max_retries k (page_started u s))
    as (s2 & Hf & Hres & _); [done..|].
  pose proof (handle_response_size u r (total_data_size (results s)) s2) as Hh.
  assert (total_data_size (results s2) = total_data_size (results s)) as Hpre
    by (by rewrite Hres).
  specialize (Hh Hpre).
  unfold try_except, page_body, bind. rewrite Hf.
  destruct (handle_response w cfg u r s2) as [[[]|e|] s3]; simpl; done.
Qed.

End Page.

(** *** Responses that are not HTML, and the page counter *)

Section Counter.
Context (w : World) (cfg : Config).

Lemma handle_response_non_html (u : string) (r : Response) (r0 : Results)
    (q0 : list string) :
  Py.startswith "text/html" (content_type r) = false ->
  keeps (fun s => extraction_untouched r0 (results s) /\ queue s = q0)
    (handle_response w cfg u r).
Proof.
  intros Hct. unfold handle_response. rewrite Hct. simpl negb. cbv iota.
  unfold_page. unfold_prims. frame.
Qed.

Lemma page_non_html (u : string) (r : Response) (k : nat) (s : Worker) :
  u ∉ visited_urls s -> running_at w (reads s) = true ->
  k < max_retries -> succeeds_at w s u k r ->
  Py.startswith "text/html" (content_type r) = false ->
  extraction_untouched (results s) (results (scrape_page w cfg u s).2)
  /\ queue (scrape_page w cfg u s).2 = queue s.
Proof.
  intros Hu Hrun Hk Hok Hct. rewrite scrape_page_start by done.
  destruct (fetch_attempts_success w u r max_retries k (page_started u s))
    as (s2 & Hf & Hres & _ & Hq); [done..|].
  pose proof (handle_response_non_html u r (results s) (queue s) Hct s2) as Hh.
  assert (extraction_untouched (results s) (results s2) /\ queue s2 = queue s)
    as Hpre by (rewrite Hres, Hq; by repeat split).
  specialize (Hh Hpre).
  unfold try_except, page_body, bind. rewrite Hf.
  destruct (handle_response w cfg u r s2) as [[[]|e|] s3]; simpl; done.
Qed.

(** One turn of the retry loop. *)
Lemma fetch_attempts_S (u : string) (left : nat) (s : Worker) :
  let s1 := upd_requests S (upd_log (fun l => l ++ [HttpGet u]) s) in
  fetch_attempts w u (S left) s =
    match http_get w (requests s) u with
    | Responded r => (Val (Some r), s1)
    | OtherException m => (Exn m, s1)
    | RequestException m =>
        match left with
        | 0 =>
            (Val None,
             upd_results (upd_errors (fun l =>
               l ++ ["Error accessing " +:+ u +:+ ": " +:+ m]))
               (upd_log (fun l => l ++ [SigNetworkError u m]) s1))
        | S _ => fetch_attempts w u left (upd_log (fun l => l ++ [Sleep]) s1)
        end
    end.
Proof.
  simpl. unfold bind at 1, http_request, bind, get, emit, modify, ret. simpl.
  destruct (http_get w (requests s) u); [|done..]. by destruct left.
Qed.

(** What a fetch leaves of the counter, and where its response comes
    from. *)
Lemma fetch_attempts_origin (u : string) (left : nat) (s : Worker) :
  visited_pages (results (fetch_attempts w u left s).2) = visited_pages (results s)
  /\ forall r, (fetch_attempts w u left s).1 = Val (Some r) ->
       exists k, k < left /\ http_get w (requests s + k) u = Responded r.
Proof.
  revert s. induction left as [|left IH]; intros s; [by split|].
  rewrite fetch_attempts_S.
  destruct (http_get w (requests s) u) as [m|m|r] eqn:Hr; simpl.
  - destruct left as [|left]; [by split|].
    destruct (IH (upd_log (fun l => l ++ [Sleep])
      (upd_requests S (upd_log (fun l => l ++ [HttpGet u]) s)))) as [Hvp Hor].
    split; [exact Hvp|]. intros r Hval. destruct (Hor r Hval) as (k & Hk & Hget).
    exists (S k). split; [lia|]. simpl in Hget. by rewrite Nat.add_succ_r.
  - by split.
  - split; [done|]. intros r' [= <-]. exists 0. split; [lia|].
    by rewrite Nat.add_0_r.
Qed.

Lemma extract_page_counter (u : string) (r : Response) (n : nat) :
  Py.startswith "text/html" (content_type r) = true ->
  hoare (fun s => visited_pages (results s) = n) (extract_page w cfg u r)
    (fun _ => counted r n) (counted r n) (counted r n).
Proof.
  intros Hct.
  assert (forall s, visited_pages (results s) = n -> counted r n s) as Hleft
    by (intros s Hs; by left).
  unfold extract_page.
  apply hoare_step; [apply keeps_lift | done | done | intros base].
  destruct (soup r) as [page|m] eqn:Hsoup; simpl lift.
  2:{ intros s Hs. simpl. by left. }
  eapply hoare_bind; [apply hoare_ret; intros s Hs; exact Hs | intros page'].
  cbv zeta.
  do 7 (apply hoare_step;
    [unfold_page; unfold_prims; frame | done | done | intros _]).
  eapply hoare_bind with (Q' := fun _ s => visited_pages (results s) = S n).
  { intros s Hs. simpl. by rewrite Hs. }
  intros _. apply keeps_conseq.
  - unfold_prims. frame.
  - intros _ s Hs. right. eauto.
  - intros s Hs. right. eauto.
  - intros s Hs. right. eauto.
Qed.

Lemma handle_response_counter (u : string) (r : Response) (n : nat) :
  hoare (fun s => visited_pages (results s) = n) (handle_response w cfg u r)
    (fun _ => counted r n) (counted r n) (counted r n).
Proof.
  assert (forall s, visited_pages (results s) = n -> counted r n s) as Hleft
    by (intros s Hs; by left).
  unfold handle_response.
  do 2 (apply hoare_step;
    [unfold_page; unfold_prims; frame | done | done | intros _]).
  destruct (Py.startswith "text/html" (content_type r)) eqn:Hct; simpl negb; cbv iota.
  - by apply extract_page_counter.
  - by apply hoare_ret.
Qed.

Lemma page_counter (u : string) (s : Worker) :
  let s' := (scrape_page w cfg u s).2 in
  visited_pages (results s') = visited_pages (results s)
  \/ (visited_pages (results s') = S (visited_pages (results s))
      /\ exists k r page, k < max_retries
           /\ http_get w (requests s + k) u = Responded r
           /\ Py.startswith "text/html" (content_type r) = true
           /\ soup r = Ok page).
Proof.
  destruct (decide (u ∈ visited_urls s)) as [Hin|Hnot].
  { rewrite scrape_page_visited by done. by left. }
  destruct (running_at w (reads s)) eqn:Hrun.
  2:{ rewrite scrape_page_stopped by done. by left. }
  rewrite scrape_page_start by done.
  destruct (fetch_attempts_origin u max_retries (page_started u s)) as [Hvp Hor].
  unfold try_except, page_body, bind.
  destruct (fetch_attempts w u max_retries (page_started u s)) as [[[r|]|e|] s2];
    simpl in Hvp, Hor; simpl; try (by left).
  destruct (Hor r eq_refl) as (k & Hk & Hget).
  pose proof (handle_response_counter u r _ s2 Hvp) as Hh.
  destruct (handle_response w cfg u r s2) as [[[]|e|] s3]; simpl;
    (destruct Hh as [Hh|(Hh & Hct & page & Hpage)]; [by left|right];
     split; [done|]; by exists k, r, page).
Qed.

(** An extraction that ends without an exception has counted its page. *)
Lemma extract_page_counts (u : string) (r : Response) (n : nat) :
  hoare (fun s => visited_pages (results s) = n) (extract_page w cfg u r)
    (fun _ s => visited_pages (results s) = S n) (fun _ => True) (fun _ => True).
Proof.
  unfold extract_page.
  apply hoare_step; [apply keeps_lift | done | done | intros base].
  destruct (soup r) as [page|m] eqn:Hsoup; simpl lift.
  2:{ by intros s Hs. }
  eapply hoare_bind; [apply hoare_ret; intros s Hs; exact Hs | intros page'].
  cbv zeta.
  do 7 (apply hoare_step;
    [unfold_page; unfold_prims; frame | done | done | intros _]).
  eapply hoare_bind with (Q' := fun _ s => visited_pages (results s) = S n).
  { intros s Hs. simpl. by rewrite Hs. }
  intros _. apply keeps_conseq; [unfold_prims; frame | done..].
Qed.

Lemma handle_response_counts (u : string) (r : Response) (s : Worker) :
  Py.startswith "text/html" (content_type r) = true ->
  (handle_response w cfg u r s).1 = Val tt ->
  visited_pages (results (handle_response w cfg u r s).2)
  = S (visited_pages (results s)).
Proof.
  intros Hct.
  assert (hoare (fun s' => visited_pages (results s') = visited_pages (results s))
            (handle_response w cfg u r)
            (fun _ s' => visited_pages (results s') = S (visited_pages (results s)))
            (fun _ => True) (fun _ => True)) as Hh.
  { unfold handle_response.
    do 2 (apply hoare_step;
      [unfold_page; unfold_prims; frame | done | done | intros _]).
    rewrite Hct. simpl negb. cbv iota. apply extract_page_counts. }
  specialize (Hh s eq_refl).
  destruct (handle_response w cfg u r s) as [[[]|e|] s3]; simpl; done.
Qed.

(** The status code and the history of a response play no part. *)
Lemma handle_response_reads (u : string) (r r' : Response) :
  content r = content r' -> content_type r = content_type r' ->
  soup r = soup r' ->
  handle_response w cfg u r = handle_response w cfg u r'.
Proof.
  intros Hc Ht Hs. unfold handle_response, save_html, extract_page.
  by rewrite Hc, Ht, Hs.
Qed.

End Counter.

(** **C6 (amended).** A response whose [Content-Type] does not start with
    [text/html] only adds to the byte counter (and to the saved pages when
    [download_html] is set): no extraction result, no error entry, no queue
    entry and no increment of [visited_pages] comes from it.  The page
    counter moves by at most one per page, and only for a response that
    passed [raise_for_status], is HTML and was parsed; an HTML response
    whose handling ends without an exception moves it by one.  Whether the
    response is a redirect, or was reached through one, plays no part:
    what is done with a response depends on its body, its content type and
    its parsed page alone. *)
Theorem C6_non_html_skipped (w : World) (cfg : Config) (u : string) (s : Worker) :
  (forall (k : nat) (r : Response),
     u ∉ visited_urls s -> running_at w (reads s) = true ->
     k < max_retries -> succeeds_at w s u k r ->
     Py.startswith "text/html" (content_type r) = false ->
     extraction_untouched (results s) (results (scrape_page w cfg u s).2)
     /\ queue (scrape_page w cfg u s).2 = queue s)
  /\ (visited_pages (results (scrape_page w cfg u s).2) = visited_pages (results s)
      \/ (visited_pages (results (scrape_page w cfg u s).2)
            = S (visited_pages (results s))
          /\ exists k r page, k < max_retries
               /\ http_get w (requests s + k) u = Responded r
               /\ Py.startswith "text/html" (content_type r) = true
               /\ soup r = Ok page))
  /\ (forall r : Response,
        Py.startswith "text/html" (content_type r) = true ->
        (handle_response w cfg u r s).1 = Val tt ->
        visited_pages (results (handle_response w cfg u r s).2)
        = S (visited_pages (results s)))
  /\ (forall r r' : Response,
        content r = content r' -> content_type r = content_type r' ->
        soup r = soup r' ->
        handle_response w cfg u r = handle_response w cfg u r').
Proof.
  split; [|split; [|split]].
  - intros k r Hu Hrun Hk Hok Hct. by apply page_non_html with r k.
  - apply page_counter.
  - intros r. apply handle_response_counts.
  - apply handle_response_reads.
Qed.

(** **C10.** When the fetch of a page succeeds within the three attempts,
    [total_data_size] grows by exactly the length of the response body,
    whatever the content type and whatever happens to the page
    afterwards. *)
Theorem C10_bytes_counted (w : World) (cfg : Config) (u : string) (s : Worker)
    (k : nat) (r : Response) :
  u ∉ visited_urls s -> running_at w (reads s) = true ->
  k < max_retries -> succeeds_at w s u k r ->
  total_data_size (results (scrape_page w cfg u s).2)
  = total_data_size (results s) + String.length (content r)
  /\ (Py.startswith "text/html" (content_type r) = false ->
      visited_pages (results (scrape_page w cfg u s).2) = visited_pages (results s)
      /\ extraction_untouched (results s) (results (scrape_page w cfg u s).2)).
Proof.
  intros Hu Hrun Hk Hok. split; [by apply page_size with k|].
  intros Hct. destruct (page_non_html w cfg u r k s) as [Hex _]; [done..|].
  split; [|done]. apply Hex.
Qed.

(** ** Three transport failures *)

Section Failures.
Context (w : World) (cfg : Config).

Lemma gets_app (l1 l2 : list Event) : gets (l1 ++ l2) = gets l1 + gets l2.
Proof. unfold gets. by rewrite filter_app, length_app. Qed.

Lemma adds_gets_emit (l0 : list Event) (n : nat) (e : Event) :
  is_get e = false -> keeps (adds_gets l0 n) (emit e).
Proof.
  intros He. apply keeps_modify. intros s (l & Hl & Hn). exists (l ++ [e]).
  simpl. rewrite Hl, <- app_assoc. split; [done|].
  rewrite gets_app. unfold gets at 2. simpl.
  rewrite filter_cons_False by (by rewrite He). simpl. lia.
Qed.

Ltac gets_leaf :=
  first
    [ apply adds_gets_emit; reflexivity
    | apply keeps_modify; intros ? (l & Hl & Hn); exists l; split; [exact Hl | exact Hn] ].

Lemma fetch_attempts_gets (l0 : list Event) (u : string) (left n : nat) :
  hoare (adds_gets l0 n) (fetch_attempts w u left)
    (fun _ => adds_gets l0 (n + left)) (adds_gets l0 (n + left))
    (adds_gets l0 (n + left)).
Proof.
  revert n. induction left as [|left IH]; intros n.
  - rewrite Nat.add_0_r. apply keeps_ret.
  - intros s (l & Hl & Hn). rewrite fetch_attempts_S.
    assert (adds_gets l0 (n + S left)
      (upd_requests S (upd_log (fun l => l ++ [HttpGet u]) s))) as H1.
    { exists (l ++ [HttpGet u]). simpl. rewrite Hl, <- app_assoc. split; [done|].
      rewrite gets_app. unfold gets at 2. simpl. lia. }
    destruct (http_get w (requests s) u) as [m|m|r]; [|done..].
    destruct left as [|left].
    + destruct H1 as (l1 & Hl1 & Hn1). exists (l1 ++ [SigNetworkError u m]).
      simpl in *. rewrite Hl1, <- app_assoc. split; [done|].
      rewrite gets_app. unfold gets at 2. simpl. lia.
    + specialize (IH (S n) (upd_log (fun l => l ++ [Sleep])
        (upd_requests S (upd_log (fun l => l ++ [HttpGet u]) s)))).
      rewrite <- Nat.add_succ_comm. apply IH.
      exists (l ++ [HttpGet u; Sleep]). simpl. rewrite Hl, <- !app_assoc.
      split; [done|]. rewrite gets_app. unfold gets at 2. simpl. lia.
Qed.

Lemma page_gets_from (l0 : list Event) (u : string) (s : Worker) :
  adds_gets l0 0 s -> adds_gets l0 max_retries (scrape_page w cfg u s).2.
Proof.
  intros H0.
  assert (forall n s', adds_gets l0 0 s' -> adds_gets l0 n s') as Hweak.
  { intros n s' (l & Hl & Hn). exists l. split; [done|lia]. }
  assert (hoare (adds_gets l0 0)
    (try_except (page_body w cfg u)
       (fun msg => emit (SigError ("Error scraping " +:+ u +:+ ": " +:+ msg))))
    (fun _ => adds_gets l0 max_retries) (adds_gets l0 max_retries)
    (adds_gets l0 max_retries)) as Hrest.
  2:{ destruct (decide (u ∈ visited_urls s)) as [Hin|Hnot].
      { rewrite scrape_page_visited by done. by apply Hweak. }
      destruct (running_at w (reads s)) eqn:Hrun.
      - rewrite scrape_page_start by done. apply (hoare_state _ _ _ _ Hrest).
        destruct H0 as (l & Hl & Hn).
        exists (l ++ [ReadRunning true; Visit u; SigStatus ("Scraping: " +:+ u)]).
        simpl. rewrite Hl, <- !app_assoc. split; [done|].
        rewrite gets_app. unfold gets at 2. simpl. lia.
      - rewrite scrape_page_stopped by done. destruct H0 as (l & Hl & Hn).
        exists (l ++ [ReadRunning false]). simpl. rewrite Hl, <- !app_assoc.
        split; [done|]. rewrite gets_app. unfold gets at 2. simpl. lia. }
  apply hoare_try with (E' := adds_gets l0 max_retries);
    [|intros e; by apply adds_gets_emit].
  unfold page_body.
  eapply hoare_bind with (Q' := fun _ => adds_gets l0 max_retries).
  - apply (fetch_attempts_gets l0 u max_retries 0).
  - intros [r|]; [|apply keeps_ret].
    unfold_page. unfold enqueue, upd_res. as_keeps. repeat keeps_step; gets_leaf.
Qed.

Lemma page_gets (u : string) (s : Worker) :
  adds_gets (log s) max_retries (scrape_page w cfg u s).2.
Proof. apply page_gets_from. exists []. by rewrite app_nil_r. Qed.

Lemma loop_test_true (u : string) (rest : list string) (s : Worker) :
  queue s = u :: rest -> running_at w (reads s) = true ->
  (Z.of_nat (size (visited_urls s)) < max_pages (options cfg))%Z ->
  loop_test w cfg s
  = (Val true, upd_log (fun l => l ++ [ReadRunning true]) (upd_reads S s)).
Proof.
  intros Hq Hrun Hlt. unfold loop_test, bind at 1, get. rewrite Hq.
  unfold bind at 1, read_running, bind, get, modify, emit, ret. simpl.
  rewrite Hrun. simpl. apply Z.ltb_lt in Hlt. by rewrite Hlt.
Qed.

Lemma loop_body_pop (u : string) (rest : list string) (s : Worker) :
  queue s = u :: rest ->
  loop_body w cfg s
  = try_except (scrape_page w cfg u)
      (fun msg =>
         let line := "Error processing " +:+ u +:+ ": " +:+ msg in
         bind (emit (SigError line))
           (fun _ => upd_res (upd_errors (fun l => l ++ [line]))))
      (upd_log (fun l => l ++ [Dequeue u]) (upd_queue (fun _ => rest) s)).
Proof.
  intros Hq. unfold loop_body, bind at 1, dequeue, bind at 1, get. rewrite Hq.
  reflexivity.
Qed.

Lemma three_failures (u : string) (s : Worker) (m1 m2 m3 : string) :
  http_get w (requests s) u = RequestException m1 ->
  http_get w (S (requests s)) u = RequestException m2 ->
  http_get w (S (S (requests s))) u = RequestException m3 ->
  exists s', fetch_attempts w u max_retries s = (Val None, s')
    /\ log s' = log s ++ [HttpGet u; Sleep; HttpGet u; Sleep; HttpGet u;
                          SigNetworkError u m3]
    /\ results s' = upd_errors (fun l =>
         l ++ ["Error accessing " +:+ u +:+ ": " +:+ m3]) (results s)
    /\ visited_urls s' = visited_urls s /\ queue s' = queue s.
Proof.
  intros H1 H2 H3. eexists. split.
  - unfold max_retries. rewrite fetch_attempts_S. cbv zeta. rewrite H1.
    rewrite fetch_attempts_S. cbv zeta. simpl requests. rewrite H2.
    rewrite fetch_attempts_S. cbv zeta. simpl requests. rewrite H3.
    reflexivity.
  - simpl. rewrite <- !app_assoc. done.
Qed.

End Failures.

(** **C3.** A page costs at most three [requests.get] calls.  When the
    three attempts for the URL at the head of the queue all fail with a
    transport error, the turn of the loop ends normally and the loop goes
    on with its remaining turns: one entry was added to the error list, one
    network-error signal was emitted after the third request, and neither
    [visited_pages] nor the rest of the queue changed. *)
Theorem C3_three_attempts (w : World) (cfg : Config) :
  (forall (u : string) (s : Worker),
     exists l, log (scrape_page w cfg u s).2 = log s ++ l /\ gets l <= 3)
  /\ (forall (fuel : nat) (u : string) (rest : list string) (s : Worker)
        (m1 m2 m3 : string),
      queue s = u :: rest -> u ∉ visited_urls s ->
      running_at w (reads s) = true -> running_at w (S (reads s)) = true ->
      (Z.of_nat (size (visited_urls s)) < max_pages (options cfg))%Z ->
      http_get w (requests s) u = RequestException m1 ->
      http_get w (S (requests s)) u = RequestException m2 ->
      http_get w (S (S (requests s))) u = RequestException m3 ->
      exists s',
        crawl_loop w cfg (S fuel) s = crawl_loop w cfg fuel s'
        /\ log s' = log s ++
             [ReadRunning true; Dequeue u; ReadRunning true; Visit u;
              SigStatus ("Scraping: " +:+ u); HttpGet u; Sleep; HttpGet u;
              Sleep; HttpGet u; SigNetworkError u m3]
        /\ errors (results s') =
             errors (results s) ++ ["Error accessing " +:+ u +:+ ": " +:+ m3]
        /\ visited_pages (results s') = visited_pages (results s)
        /\ total_data_size (results s') = total_data_size (results s)
        /\ queue s' = rest).
Proof.
  split; [intros u s; apply page_gets|].
  intros fuel u rest s m1 m2 m3 Hq Hu Hr1 Hr2 Hlt H1 H2 H3.
  set (s1 := upd_log (fun l => l ++ [ReadRunning true]) (upd_reads S s)).
  set (s2 := upd_log (fun l => l ++ [Dequeue u]) (upd_queue (fun _ => rest) s1)).
  destruct (three_failures w u (page_started u s2) m1 m2 m3)
    as (s' & Hf & Hlog & Hres & Hv & Hq'); [done..|].
  exists s'. split.
  - change (crawl_loop w cfg (S fuel) s) with
      (bind (loop_test w cfg) (fun continue =>
         if continue then bind (loop_body w cfg) (fun _ => crawl_loop w cfg fuel)
         else ret tt) s).
    unfold bind at 1. rewrite (loop_test_true w cfg u rest) by done.
    unfold bind at 1. rewrite (loop_body_pop w cfg u rest) by done.
    fold s1. fold s2. unfold try_except.
    rewrite scrape_page_start by done.
    unfold try_except, page_body, bind. by rewrite Hf.
  - rewrite Hlog, Hres, Hq'. simpl. rewrite <- !app_assoc. done.
Qed.


(** ** File names of downloads *)

Lemma numbered_inj (orig : string) (i j : nat) :
  numbered orig i = numbered orig j -> i = j.
Proof.
  unfold numbered. destruct (Url.splitext orig) as [name ext]. intros H.
  apply String.app_inj in H. apply String.app_inj in H.
  apply app_inv_tail_s in H. by apply pretty_nat_inj in H.
Qed.

Lemma startswith_cons (c d : ascii) (p s : string) :
  Py.startswith (String c p) (String d s)
  = if ascii_dec c d then Py.startswith p s else false.
Proof. reflexivity. Qed.

Lemma startswith_nil (s : string) : Py.startswith "" s = true.
Proof. by destruct s. Qed.

Lemma numbered_head (orig : string) (i j : nat) :
  Py.startswith "/" (numbered orig i) = Py.startswith "/" (numbered orig j).
Proof.
  unfold numbered. destruct (Url.splitext orig) as [name ext].
  destruct name as [|c name]; [done|]. rewrite !String_app.
  by rewrite !startswith_cons, !startswith_nil.
Qed.

Lemma join_inj (d a b : string) :
  Py.startswith "/" a = Py.startswith "/" b ->
  Url.join d a = Url.join d b -> a = b.
Proof.
  unfold Url.join. intros <-. destruct (Py.startswith "/" a); [done|].
  destruct (_ || _); intros H; repeat apply String.app_inj in H; done.
Qed.

Lemma join_numbered_inj (d orig : string) (i j : nat) :
  Url.join d (numbered orig i) = Url.join d (numbered orig j) -> i = j.
Proof.
  intros H. apply (numbered_inj orig). eapply join_inj; [|exact H].
  apply numbered_head.
Qed.

(** The loop over the numbered names ends within [size X] turns when the
    taken names all lie in [X]; it ends at the first free one. *)
Lemma unique_name_numbered (taken : string -> bool) (key : nat -> string)
    (orig : string) (fuel : nat) (X : gset string) (c : nat) :
  (forall i j, key i = key j -> i = j) ->
  (forall i, c <= i -> taken (numbered orig i) = true -> key i ∈ X) ->
  size X <= fuel ->
  exists n, unique_name fuel taken orig (numbered orig c) (S c) = Some (numbered orig n)
    /\ c <= n /\ taken (numbered orig n) = false
    /\ forall i, c <= i -> i < n -> taken (numbered orig i) = true.
Proof.
  intros Hinj. revert X c. induction fuel as [|fuel IH]; intros X c HX Hsize.
  - simpl. destruct (taken (numbered orig c)) eqn:Ht.
    + apply HX in Ht; [|lia]. assert (size X = 0) as HX0 by lia.
      apply size_empty_inv in HX0. set_solver.
    + exists c. repeat split; [lia|done|]. intros; lia.
  - simpl. destruct (taken (numbered orig c)) eqn:Ht.
    + destruct (IH (X ∖ {[key c]}) (S c)) as (n & Hn & Hle & Hfree & Hbelow).
      * intros i Hi Hti. apply elem_of_difference. split; [apply HX; [lia|done]|].
        intros ->%elem_of_singleton%Hinj. lia.
      * assert (key c ∈ X) as Hin by (apply HX; [lia|done]).
        pose proof (size_difference X {[key c]}) as Hd.
        rewrite size_singleton in Hd.
        assert (size X ≠ 0) by (intros HX0%size_empty_inv; set_solver).
        rewrite Hd by set_solver. lia.
      * exists n. repeat split; [done|lia|done|]. intros i Hi1 Hi2.
        destruct (decide (i = c)) as [->|]; [done|]. apply Hbelow; lia.
    + exists c. repeat split; [lia|done|]. intros; lia.
Qed.

Lemma unique_name_first_free (fsys : gmap string FileData) (d base : string) :
  let taken := fun f => bool_decide (is_Some (fsys !! Url.join d f)) in
  exists n, unique_name (S (size fsys)) taken base base 1 = Some (candidate base n)
    /\ fsys !! Url.join d (candidate base n) = None
    /\ forall i, i < n -> is_Some (fsys !! Url.join d (candidate base i)).
Proof.
  intros taken.
  assert (forall f, taken f = false -> fsys !! Url.join d f = None) as Hfree.
  { intros f Hf. apply bool_decide_eq_false in Hf. by apply eq_None_not_Some. }
  assert (forall f, taken f = true -> is_Some (fsys !! Url.join d f)) as Htaken.
  { intros f Hf. by apply bool_decide_eq_true in Hf. }
  change (unique_name (S (size fsys)) taken base base 1) with
    (if taken base then unique_name (size fsys) taken base (numbered base 1) 2
     else Some base).
  destruct (taken base) eqn:Hb.
  - destruct (unique_name_numbered taken (fun i => Url.join d (numbered base i))
      base (size fsys) (dom fsys) 1) as (n & Hn & Hle & Hf & Hbelow).
    + intros i j. apply join_numbered_inj.
    + intros i _ Hi. apply elem_of_dom. by apply Htaken.
    + by rewrite size_dom.
    + exists n. destruct n as [|n]; [lia|]. simpl. split; [done|].
      split; [by apply Hfree|]. intros [|i] Hi; simpl; [by apply Htaken|].
      apply Htaken, Hbelow; lia.
  - exists 0. simpl. split; [done|]. split; [by apply Hfree|]. intros; lia.
Qed.

(** ** [download_file] *)

Section Download.
Context (w : World) (cfg : Config).

Lemma hoare_pure {A} (phi : Prop) (P : Worker -> Prop) (m : M A)
    (Q : A -> Worker -> Prop) (E F : Worker -> Prop) :
  (phi -> hoare P m Q E F) -> hoare (fun s => P s /\ phi) m Q E F.
Proof. intros H s [Hs Hphi]. by apply H. Qed.

Lemma free_name_spec (fs0 : gmap string FileData) (d base : string) :
  hoare (fun s => fs s = fs0) (free_name d base)
    (fun f s => fs s = fs0 /\
       exists n, f = candidate base n /\ fs0 !! Url.join d f = None
         /\ forall i, i < n -> is_Some (fs0 !! Url.join d (candidate base i)))
    (fun _ => False) (fun _ => False).
Proof.
  intros s Hs. unfold free_name, bind, get.
  destruct (unique_name_first_free (fs s) d base) as (n & Hn & Hfree & Hbelow).
  unfold exists_path. rewrite Hn. simpl. rewrite <- Hs. eauto.
Qed.

Lemma total_free_name (d base : string) : total (fun _ => True) (free_name d base).
Proof.
  intros s _. pose proof (free_name_spec (fs s) d base s eq_refl) as H.
  by destruct (free_name d base s) as [[f|e|] s'].
Qed.

(** A write keeps the other files. *)
Lemma write_file_spec (I : gmap string FileData -> Prop) (p : string)
    (d : FileData) :
  (forall m, I m -> I (<[p := d]> m)) ->
  hoare (fun s => I (fs s)) (write_file w p d)
    (fun _ s => I (fs s) /\ fs s !! p = Some d)
    (fun s => I (fs s)) (fun s => I (fs s)).
Proof.
  intros HI s Hs. unfold write_file, bind, get.
  destruct (fs s !! p) as [[| |]|]; try done;
    (destruct (open_error w p); [done|]; simpl; split;
      [by apply HI | by rewrite lookup_insert_eq]).
Qed.

Lemma transfer_spec (fs0 : gmap string FileData) (u fp : string) :
  fs0 !! fp = None ->
  hoare (fun s => fs s = fs0) (transfer w u fp)
    (fun _ s => keeps_old fs0 (fs s) /\ is_Some (fs s !! fp))
    (fun s => keeps_old fs0 (fs s)) (fun s => keeps_old fs0 (fs s)).
Proof.
  intros Hfresh.
  assert (forall m, keeps_old fs0 m -> forall d, keeps_old fs0 (<[fp := d]> m)) as Hins.
  { intros m Hm d p x Hp. rewrite lookup_insert_ne; [by apply Hm|]. congruence. }
  assert (forall s, fs s = fs0 -> keeps_old fs0 (fs s)) as Hstart.
  { intros s Hs p x Hp. by rewrite Hs. }
  unfold transfer.
  eapply hoare_bind with (Q' := fun _ s => keeps_old fs0 (fs s));
    [apply hoare_get; auto | intros s0].
  do 2 (eapply hoare_bind with (Q' := fun _ s => keeps_old fs0 (fs s));
    [unfold emit; apply keeps_modify; intros; simpl; done | intros _]).
  destruct (url_open w (requests s0) u) as [msg|data|data msg].
  - by apply hoare_raise.
  - eapply hoare_conseq; [apply (write_file_spec (keeps_old fs0))|..]; auto.
    intros _ s [H1 H2]. split; [done|]. by rewrite H2.
  - eapply hoare_bind;
      [apply (write_file_spec (keeps_old fs0)); auto | intros ?].
    apply hoare_raise. intros s Hs. apply Hs.
Qed.

Lemma download_file_spec (fs0 : gmap string FileData) (u d : string) (ft : FileType) :
  hoare (fun s => fs s = fs0) (download_file w cfg u d ft)
    (download_post cfg fs0 d) (files_kept cfg fs0) (files_kept cfg fs0).
Proof.
  assert (forall s, fs s = fs0 -> files_kept cfg fs0 s) as Hstart.
  { intros s Hs p x Hp _. by rewrite Hs. }
  assert (forall s, keeps_old fs0 (fs s) -> files_kept cfg fs0 s) as Hold.
  { intros s H p x Hp _. by apply H. }
  unfold download_file.
  eapply hoare_bind with (Q' := fun _ s => fs s = fs0).
  { unfold read_running, emit. as_keeps. frame. }
  intros running. destruct (negb running).
  { apply hoare_ret. intros s Hs. split; [auto|done]. }
  apply hoare_try with (E' := files_kept cfg fs0).
  2:{ intros e. eapply hoare_bind with (Q' := fun _ => files_kept cfg fs0).
      - unfold emit. apply keeps_modify. intros; simpl; done.
      - intros _. apply hoare_ret. intros s Hs. split; [auto|done]. }
  eapply hoare_bind with (Q' := fun _ s => fs s = fs0).
  { eapply hoare_conseq; [apply (keeps_lift (fun s => fs s = fs0))|..]; auto. }
  intros parsed.
  eapply hoare_bind with (Q' := fun _ s => fs s = fs0);
    [apply hoare_get; auto | intros s0].
  cbv zeta.
  match goal with |- context [sanitize ?x] => set (x0 := x) end.
  set (base := sanitize x0).
  eapply hoare_bind.
  { eapply hoare_conseq; [apply (free_name_spec fs0 d base)|..]; auto; done. }
  intros f. apply hoare_pure. intros (n & -> & Hfree & Hbelow).
  set (fp := Url.join d (candidate base n)) in *.
  eapply hoare_bind with
    (Q' := fun _ s => keeps_old fs0 (fs s) /\ is_Some (fs s !! fp)).
  { eapply hoare_conseq; [apply (transfer_spec fs0 u fp Hfree)|..]; auto. }
  intros _.
  set (J := fun m : gmap string FileData =>
    (forall p x, fs0 !! p = Some x -> p <> manifest_path cfg -> m !! p = Some x)
    /\ is_Some (m !! fp)).
  assert (forall s, J (fs s) -> files_kept cfg fs0 s) as HJ by (by intros s [H _]).
  eapply hoare_conseq with (P' := fun s => J (fs s))
    (Q' := fun a s => J (fs s) /\ a = Some fp)
    (E' := fun s => J (fs s)) (F' := fun s => J (fs s)); auto.
  - eapply hoare_bind with (Q' := fun _ s => J (fs s));
      [apply hoare_get; auto | intros s1].
    eapply hoare_bind with (Q' := fun _ s => J (fs s));
      [apply keeps_modify; intros; simpl; done | intros _].
    eapply hoare_bind with (Q' := fun _ s => J (fs s));
      [apply hoare_get; auto | intros s2].
    eapply hoare_bind with (Q' := fun _ s => J (fs s)).
    + eapply hoare_conseq; [apply (write_file_spec J)|..]; auto.
      * intros m [H1 H2]. split.
        -- intros p x Hp Hne. rewrite lookup_insert_ne; [by apply H1 | congruence].
        -- destruct (decide (manifest_path cfg = fp)) as [->|Hne];
             [by rewrite lookup_insert_eq | by rewrite lookup_insert_ne].
      * by intros _ s [H _].
    + intros _. by apply hoare_ret.
  - intros s [H1 H2]. split; [by apply Hold|done].
  - intros a s [[H1 H2] ->]. split; [done|]. intros fp' [= <-].
    exists x0, n. split; [done|]. split; [done|]. split; [|done]. exact H2.
Qed.

Lemma total_download_file (u d : string) (ft : FileType) :
  total (fun _ => True) (download_file w cfg u d ft).
Proof.
  unfold download_file, transfer, write_file, read_running, emit.
  repeat total_step; apply total_free_name.
Qed.

End Download.

(** The destination directories and the manifest. *)
Lemma sanitize_no_slash (x : string) : Py.contains "/" (sanitize x) = false.
Proof.
  unfold sanitize. induction x as [|c x IH]; [done|]. simpl. rewrite IH.
  destruct (is_illegal_char c) eqn:Hc; [done|].
  destruct (Ascii.eqb_spec c "/") as [->|]; done.
Qed.

Lemma contains_app (c : ascii) (a b : string) :
  Py.contains c (a +:+ b) = Py.contains c a || Py.contains c b.
Proof.
  induction a as [|x a IH]; [done|]. rewrite String_app. simpl.
  rewrite IH. by destruct (Ascii.eqb x c).
Qed.

Lemma no_slash_head (s : string) :
  Py.contains "/" s = false -> Py.startswith "/" s = false.
Proof.
  destruct s as [|c s]; [done|]. rewrite startswith_cons. intros H.
  destruct (ascii_dec "/" c) as [<-|]; [|done]. simpl in H. done.
Qed.

Lemma after_last_none (c : ascii) (s : string) :
  Py.contains c s = false -> Py.after_last c s = s.
Proof.
  destruct s as [|a s]; [done|]. simpl.
  destruct (Ascii.eqb a c); [done|]. by intros ->.
Qed.

Lemma splitext_go_app (b : bool) (s l r : string) :
  Url.splitext_go b s = (l, r) -> s = l +:+ r.
Proof.
  revert b l r. induction s as [|a s IH]; intros b l r; simpl.
  - by intros [= <- <-].
  - destruct (_ && _); [by intros [= <- <-]|].
    destruct (Url.splitext_go _ s) as [l' r'] eqn:Hgo. intros [= <- <-].
    rewrite String_app. f_equal. by eapply IH.
Qed.

Lemma splitext_app (base name ext : string) :
  Py.contains "/" base = false -> Url.splitext base = (name, ext) ->
  base = name +:+ ext.
Proof.
  intros Hb. unfold Url.splitext, Url.basename. rewrite after_last_none by done.
  rewrite Nat.sub_diag.
  assert (String.substring 0 0 base = "") as -> by (by destruct base).
  destruct (Url.splitext_go false base) as [l r] eqn:Hgo. intros [= <- <-].
  by apply splitext_go_app in Hgo.
Qed.

Lemma candidate_head (x : string) (n : nat) :
  Py.startswith "/" (candidate (sanitize x) n) = false.
Proof.
  pose proof (sanitize_no_slash x) as Hx.
  destruct n as [|n]; simpl; [by apply no_slash_head|].
  unfold numbered. destruct (Url.splitext (sanitize x)) as [name ext] eqn:Hsp.
  apply splitext_app in Hsp; [|done]. rewrite Hsp, contains_app in Hx.
  apply orb_false_iff in Hx as [Hname _].
  destruct name as [|c name]; [done|]. rewrite String_app, startswith_cons.
  simpl in Hname. destruct (Ascii.eqb_spec c "/") as [->|Hne]; [done|].
  destruct (ascii_dec "/" c); congruence.
Qed.

Lemma join_relative (a b : string) :
  Py.startswith "/" b = false ->
  Url.join a b
  = (if bool_decide (a = "") || Py.endswith "/" a then a else a +:+ "/") +:+ b.
Proof.
  intros Hb. unfold Url.join. rewrite Hb. destruct (_ || _); [done|].
  by rewrite app_assoc_s.
Qed.

Lemma endswith_last (x : string) (c d : ascii) :
  c <> d -> Py.endswith (String d "") (x +:+ String c "") = false.
Proof.
  intros Hne. apply not_true_is_false. intros [p Hp]%endswith_spec.
  apply (f_equal Py.chars) in Hp. rewrite !chars_app in Hp. simpl in Hp.
  apply app_inj_tail in Hp as [_ Hp]. congruence.
Qed.

Lemma app_not_empty (x y : string) : y <> "" -> x +:+ y <> "".
Proof. destruct x; [done|]. by rewrite String_app. Qed.

Lemma subdir_join (D init name : string) (c : ascii) :
  c <> "/"%char -> Py.startswith "/" (init +:+ String c "") = false ->
  Py.startswith "/" name = false ->
  Url.join (Url.join D (init +:+ String c "")) name
  = (if bool_decide (D = "") || Py.endswith "/" D then D else D +:+ "/")
    +:+ init +:+ String c (String "/" name).
Proof.
  intros Hc Hinit Hname. rewrite (join_relative D) by done.
  set (P := if bool_decide (D = "") || Py.endswith "/" D then D else D +:+ "/").
  rewrite join_relative by done.
  rewrite <- (app_assoc_s P init), (endswith_last (P +:+ init) c "/"%char) by done.
  rewrite bool_decide_false by (apply app_not_empty; done). simpl.
  by rewrite !app_assoc_s.
Qed.

Lemma destination_not_manifest (cfg : Config) (d name : string) :
  d ∈ destinations cfg -> Py.startswith "/" name = false ->
  Url.join d name <> manifest_path cfg.
Proof.
  intros Hd Hname. unfold manifest_path.
  rewrite (join_relative (download_dir cfg) "manifest.json") by done.
  unfold destinations, images_dir, scripts_dir, styles_dir in Hd.
  apply elem_of_cons in Hd as [->|Hd];
    [|apply elem_of_cons in Hd as [->|Hd];
      [|apply list_elem_of_singleton in Hd as ->]].
  - change "images" with ("image" +:+ String "s" "").
    rewrite (subdir_join (download_dir cfg) "image" name "s"%char) by done.
    intros H%String.app_inj. discriminate H.
  - change "scripts" with ("script" +:+ String "s" "").
    rewrite (subdir_join (download_dir cfg) "script" name "s"%char) by done.
    intros H%String.app_inj. discriminate H.
  - change "styles" with ("style" +:+ String "s" "").
    rewrite (subdir_join (download_dir cfg) "style" name "s"%char) by done.
    intros H%String.app_inj. discriminate H.
Qed.

(** *** A download that succeeds *)

Section Succeeds.
Context (w : World) (cfg : Config).

Lemma free_name_run (d base : string) (s : Worker) :
  exists n, free_name d base s = (Val (candidate base n), s)
    /\ fs s !! Url.join d (candidate base n) = None
    /\ forall i, i < n -> is_Some (fs s !! Url.join d (candidate base i)).
Proof.
  destruct (unique_name_first_free (fs s) d base) as (n & Hn & Hfree & Hbelow).
  exists n. split; [|done]. unfold free_name, bind, get, exists_path.
  by rewrite Hn.
Qed.

Lemma write_file_run (p : string) (x : FileData) (s : Worker) :
  fs s !! p <> Some Directory -> open_error w p = None ->
  write_file w p x s = (Val tt, upd_fs (fun m => <[p := x]> m) s).
Proof.
  intros Hd Ho. unfold write_file, bind, get. rewrite Ho.
  by destruct (fs s !! p) as [[| |]|].
Qed.

Lemma transfer_run (u fp data : string) (s : Worker) :
  url_open w (requests s) u = Transferred data ->
  fs s !! fp = None -> open_error w fp = None ->
  transfer w u fp s
  = (Val tt, upd_fs (fun m => <[fp := Bytes data]> m)
               (upd_requests S (upd_log (fun l => l ++ [UrlOpen u]) s))).
Proof.
  intros Hopen Hfree Herr.
  unfold transfer, bind at 1, get, bind at 1, emit, modify, bind at 1.
  rewrite Hopen. apply write_file_run; [|done]. simpl. by rewrite Hfree.
Qed.

(** When the worker runs, the URL parses, the transfer is complete and
    the files can be opened, [download_file] returns the first free
    candidate of the name and the data is in that file. *)
Lemma download_file_succeeds (u d : string) (ft : FileType) (s : Worker)
    (parsed : Url.ParseResult) (data : string) :
  running_at w (reads s) = true -> Url.urlparse u = Ok parsed ->
  url_open w (requests s) u = Transferred data ->
  (forall p, open_error w p = None) ->
  fs s !! manifest_path cfg <> Some Directory ->
  d ∈ destinations cfg ->
  let filename := Url.basename (Url.path parsed) in
  let base :=
    sanitize (if bool_decide (filename = "") || negb (Py.contains "." filename)
              then default_name ft (results s) else filename) in
  exists n,
    (download_file w cfg u d ft s).1 = Val (Some (Url.join d (candidate base n)))
    /\ fs s !! Url.join d (candidate base n) = None
    /\ (forall i, i < n -> is_Some (fs s !! Url.join d (candidate base i)))
    /\ fs (download_file w cfg u d ft s).2 !! Url.join d (candidate base n)
       = Some (Bytes data).
Proof.
  intros Hrun Hp Hopen Herr Hman Hd filename base.
  set (s1 := upd_log (fun l => l ++ [ReadRunning true]) (upd_reads S s)).
  destruct (free_name_run d base s1) as (n & Hfn & Hfree & Hbelow).
  exists n. set (fp := Url.join d (candidate base n)) in *.
  assert (fp <> manifest_path cfg) as Hne
    by (apply destination_not_manifest; [done | apply candidate_head]).
  assert (exists s', download_file w cfg u d ft s = (Val (Some fp), s')
                     /\ fs s' !! fp = Some (Bytes data)) as (s' & Hrun' & Hfile).
  { unfold download_file, bind at 1.
    unfold read_running, bind at 1, get, bind at 1, modify, bind at 1, emit,
      modify, ret.
    rewrite Hrun. cbn [negb]. fold s1. unfold try_except.
    rewrite Hp. unfold bind at 1, lift, ret. unfold bind at 1, get.
    cbv zeta. change (results s1) with (results s). fold filename. fold base.
    unfold bind at 1. rewrite Hfn. fold fp.
    unfold bind at 1. rewrite (transfer_run u fp data s1) by done.
    unfold bind at 1, get. unfold bind at 1, modify. unfold bind at 1, get.
    unfold bind at 1. rewrite write_file_run; [|simpl|done].
    2:{ rewrite lookup_insert_ne by done. exact Hman. }
    eexists. split; [reflexivity|]. simpl.
    rewrite lookup_insert_ne by done. by rewrite lookup_insert_eq. }
  rewrite Hrun'. by repeat split.
Qed.

End Succeeds.

(** **C8.** [download_file] always ends, and the path it writes to did not
    exist before: it is the first free one among the sanitized name and
    that name with [_1], [_2], ... in front of its extension.  Every file
    that existed keeps its content (the manifest, which is rewritten, is
    not in a destination directory), so two downloads into one directory
    give two different files, the first of which survives the second.
    And the download does happen: when the worker runs, the URL parses, the
    transfer is complete and the files can be opened, the first free
    candidate is returned and holds the data. *)
Theorem C8_download_never_overwrites (w : World) (cfg : Config) (u d : string)
    (ft : FileType) (s : Worker) :
  let r := (download_file w cfg u d ft s).1 in
  let s' := (download_file w cfg u d ft s).2 in
  r <> OutOfFuel
  /\ files_kept cfg (fs s) s'
  /\ (forall fp, r = Val (Some fp) -> fresh_path (fs s) d fp s')
  /\ (forall (u2 : string) (ft2 : FileType) (p1 p2 : string),
       r = Val (Some p1) ->
       (download_file w cfg u2 d ft2 s').1 = Val (Some p2) ->
       p1 <> p2
       /\ is_Some (fs (download_file w cfg u2 d ft2 s').2 !! p2)
       /\ (d ∈ destinations cfg ->
           fs (download_file w cfg u2 d ft2 s').2 !! p1 = fs s' !! p1))
  /\ (d ∈ destinations cfg ->
      forall name x, Py.startswith "/" name = false ->
        fs s !! Url.join d name = Some x -> fs s' !! Url.join d name = Some x)
  /\ (d ∈ destinations cfg ->
      forall (parsed : Url.ParseResult) (data : string),
        running_at w (reads s) = true -> Url.urlparse u = Ok parsed ->
        url_open w (requests s) u = Transferred data ->
        (forall p, open_error w p = None) ->
        fs s !! manifest_path cfg <> Some Directory ->
        let filename := Url.basename (Url.path parsed) in
        let base :=
          sanitize (if bool_decide (filename = "") || negb (Py.contains "." filename)
                    then default_name ft (results s) else filename) in
        exists n,
          r = Val (Some (Url.join d (candidate base n)))
          /\ fs s !! Url.join d (candidate base n) = None
          /\ (forall i, i < n -> is_Some (fs s !! Url.join d (candidate base i)))
          /\ fs s' !! Url.join d (candidate base n) = Some (Bytes data)).
Proof.
  intros r s'.
  assert (forall (u0 : string) (ft0 : FileType) (s0 : Worker),
    files_kept cfg (fs s0) (download_file w cfg u0 d ft0 s0).2
    /\ forall fp, (download_file w cfg u0 d ft0 s0).1 = Val (Some fp) ->
         fresh_path (fs s0) d fp (download_file w cfg u0 d ft0 s0).2) as Hspec.
  { intros u0 ft0 s0.
    pose proof (download_file_spec w cfg (fs s0) u0 d ft0 s0 eq_refl) as H.
    destruct (download_file w cfg u0 d ft0 s0) as [[a|e|] s1]; simpl.
    - destruct H as [H1 H2]. split; [done|]. intros fp [= ->]. by apply H2.
    - by split.
    - by split. }
  destruct (Hspec u ft s) as [Hkept Hfresh]. fold r s' in Hkept, Hfresh.
  split; [apply total_download_file; done|].
  split; [done|]. split; [done|]. split; [|split].
  - intros u2 ft2 p1 p2 Hr1 Hr2.
    destruct (Hspec u2 ft2 s') as [Hkept2 Hfresh2].
    destruct (Hfresh p1 Hr1) as (x1 & n1 & Hp1 & Hnew1 & Hin1 & _).
    destruct (Hfresh2 p2 Hr2) as (x2 & n2 & Hp2 & Hnew2 & Hin2 & _).
    split; [|split; [done|]].
    + intros ->. rewrite Hnew2 in Hin1. by destruct Hin1.
    + intros Hd. destruct Hin1 as [v Hv]. rewrite Hv. apply Hkept2; [done|].
      rewrite Hp1. apply destination_not_manifest; [done|]. apply candidate_head.
  - intros Hd name x Hname Hx. apply Hkept; [done|].
    by apply destination_not_manifest.
  - intros Hd parsed data Hrun Hp Hopen Herr Hman.
    by apply download_file_succeeds.
Qed.

(** ** The frontier along a run *)

Lemma replay_snoc (l : list Event) (e : Event) :
  replay (l ++ [e]) = apply_event (replay l) e.
Proof. unfold replay. by rewrite foldl_app. Qed.

Lemma apply_neutral (f : Frontier) (e : Event) :
  is_frontier e = false -> apply_event f e = f.
Proof. by destruct e. Qed.

Lemma good_neutral (limit : Z) (f : Frontier) (e : Event) :
  is_frontier e = false -> good_event limit f e.
Proof. by destruct e. Qed.

Lemma prefix_snoc_inv {A} (p l : list A) (x : A) :
  p `prefix_of` l ++ [x] -> p `prefix_of` l \/ p = l ++ [x].
Proof.
  intros [k Hk]. destruct k as [|y k _] using rev_ind.
  - right. by rewrite app_nil_r in Hk.
  - left. rewrite app_assoc in Hk. apply app_inj_tail in Hk as [-> _].
    by exists k.
Qed.

Lemma good_log_prefix (limit : Z) (l p : list Event) :
  good_log limit l -> p `prefix_of` l -> good_log limit p.
Proof.
  induction 1 as [|l e Hl IH He]; intros Hp.
  - apply prefix_nil_inv in Hp as ->. constructor.
  - apply prefix_snoc_inv in Hp as [Hp| ->]; [by apply IH | by constructor].
Qed.

Lemma good_log_last (limit : Z) (p : list Event) (e : Event) :
  good_log limit (p ++ [e]) -> good_event limit (replay p) e.
Proof.
  inversion 1 as [Hnil | l e' Hl He Heq].
  - by destruct p.
  - apply app_inj_tail in Heq as [-> ->]. done.
Qed.

Lemma good_log_wf (limit : Z) (l : list Event) :
  good_log limit l -> wf_frontier limit (replay l).
Proof.
  induction 1 as [|l e Hl (Hnd & Hdis & Hsz) He].
  - split; [|split].
    + apply NoDup_nil_2.
    + intros u Hu. inversion Hu.
    + change (f_visited (replay [])) with (∅ : gset string).
      rewrite size_empty. lia.
  - rewrite replay_snoc. destruct e; try done; simpl in *.
    + destruct He as (_ & Hv & Hq & Hlt). split; [|split]; simpl; [done| |].
      * intros x Hx [->%elem_of_singleton|Hin]%elem_of_union; [done|].
        by apply (Hdis x).
      * rewrite size_union by set_solver. rewrite size_singleton. lia.
    + destruct He as [Hv Hq]. split; [|split]; simpl; [| |done].
      * apply NoDup_app. repeat split; [done| |apply NoDup_singleton].
        intros x Hx ->%list_elem_of_singleton. done.
      * intros x [Hx| ->%list_elem_of_singleton]%elem_of_app; auto.
    + destruct He as [[q Hq] _]. rewrite Hq in *. simpl.
      apply NoDup_cons in Hnd as [_ Hnd]. split; [|split]; [done| |done].
      intros x Hx. apply Hdis. by right.
Qed.

Section Frontier.
Context (w : World) (cfg : Config).


Lemma on_track_emit (e : Event) : is_frontier e = false -> keeps (on_track cfg) (emit e).
Proof.
  intros He. apply keeps_modify. intros s [Hg [Hv Hq]]. split; simpl.
  - constructor; [done | by apply good_neutral].
  - unfold tracks. simpl. by rewrite replay_snoc, apply_neutral.
Qed.

Lemma on_track_modify (f : Worker -> Worker) :
  (forall s, log (f s) = log s) -> (forall s, visited_urls (f s) = visited_urls s) ->
  (forall s, queue (f s) = queue s) -> keeps (on_track cfg) (modify f).
Proof.
  intros Hl Hv Hq. apply keeps_modify. intros s [Hg [H1 H2]].
  unfold on_track, tracks. by rewrite Hl, Hv, Hq.
Qed.

Lemma on_track_enqueue (u : string) (s : Worker) :
  on_track cfg s -> u ∉ visited_urls s -> u ∉ queue s ->
  on_track cfg (enqueue u s).2.
Proof.
  intros [Hg [Hv Hq]] Hnv Hnq. split; simpl.
  - constructor; [done|]. simpl. by rewrite Hv, Hq.
  - unfold tracks. simpl. rewrite replay_snoc. simpl. by rewrite Hv, Hq.
Qed.

Lemma on_track_offer_link (u : string) : keeps (on_track cfg) (offer_link cfg u).
Proof.
  intros s Hs. unfold offer_link, bind at 1, get.
  destruct (_ && _) eqn:Hc; [|done]. unfold when.
  apply andb_prop in Hc as [[_ Hv%negb_true_iff%bool_decide_eq_false]%andb_prop
    Hq%negb_true_iff%bool_decide_eq_false].
  by apply on_track_enqueue.
Qed.

Ltac track_leaf :=
  first
    [ apply on_track_offer_link
    | apply on_track_emit; reflexivity
    | apply on_track_modify; intros; reflexivity ].

Lemma on_track_page (u : string) :
  keeps (on_track cfg) (try_except (page_body w cfg u)
    (fun msg => emit (SigError ("Error scraping " +:+ u +:+ ": " +:+ msg)))).
Proof.
  apply keeps_try; [|intros e; track_leaf].
  unfold page_body. apply keeps_bind.
  - apply keeps_fetch_attempts; intros; unfold http_request, upd_res;
      repeat keeps_step; track_leaf.
  - intros [r|]; [|apply keeps_ret].
    unfold handle_response, save_html, extract_page, process_link, record_meta,
      process_text. unfold_asset. unfold write_file, upd_res.
    repeat keeps_step; track_leaf.
Qed.

End Frontier.

Section FrontierRun.
Context (w : World) (cfg : Config).

Local Abbreviation limit := (max_pages (options cfg)).

Lemma on_track_wf (s : Worker) :
  on_track cfg s ->
  NoDup (queue s) /\ (forall u, u ∈ queue s -> u ∉ visited_urls s).
Proof.
  intros [Hg [Hv Hq]]. destruct (good_log_wf _ _ Hg) as (Hnd & Hdis & _).
  rewrite Hv, Hq in *. done.
Qed.

Lemma on_track_scrape_page (u : string) :
  hoare (fun s => on_track cfg s /\ f_next (replay (log s)) = Some u
                  /\ (u ∉ queue s)
                  /\ (Z.of_nat (size (visited_urls s)) < limit)%Z)
    (scrape_page w cfg u) (fun _ => on_track cfg) (on_track cfg) (on_track cfg).
Proof.
  intros s (Hs & Hnext & Hq & Hlt).
  enough (on_track cfg (scrape_page w cfg u s).2) as H
    by (by destruct (scrape_page w cfg u s) as [[[]|e|] s']).
  destruct (decide (u ∈ visited_urls s)) as [Hin|Hnot].
  { by rewrite scrape_page_visited. }
  destruct (running_at w (reads s)) eqn:Hrun.
  - rewrite scrape_page_start by done. apply keeps_state; [apply on_track_page|].
    destruct Hs as [Hg [Hv Hqq]]. split.
    + simpl. constructor; [constructor|done].
      * constructor; [done|done].
      * rewrite replay_snoc. simpl. rewrite Hv, Hqq. auto.
    + unfold tracks. simpl. rewrite !replay_snoc. simpl. by rewrite Hv, Hqq.
  - rewrite scrape_page_stopped by done.
    apply (keeps_state _ (emit (ReadRunning false))); [by apply on_track_emit|].
    apply (keeps_state _ (modify (upd_reads S))); [|done].
    by apply on_track_modify.
Qed.

Lemma on_track_loop_test :
  hoare (on_track cfg) (loop_test w cfg)
    (fun b s => on_track cfg s
       /\ (b = true -> queue s <> []
             /\ (Z.of_nat (size (visited_urls s)) < limit)%Z))
    (on_track cfg) (on_track cfg).
Proof.
  intros s Hs. unfold loop_test, bind at 1, get.
  destruct (queue s) as [|u rest] eqn:Hq; [by split|].
  assert (on_track cfg (read_running w s).2 /\ queue (read_running w s).2 = u :: rest
          /\ visited_urls (read_running w s).2 = visited_urls s) as (H1 & H2 & H3).
  { split; [|done]. apply keeps_state; [|done]. unfold read_running.
    repeat keeps_step; first [by apply on_track_emit | by apply on_track_modify]. }
  unfold bind at 1.
  destruct (read_running w s) as [[b|e|] s1] eqn:Hr; simpl in *; try done.
  destruct b; simpl; [|by split]. unfold bind, get, ret. simpl.
  split; [done|]. intros Hlt%Z.ltb_lt. rewrite H2. split; [done|exact Hlt].
Qed.

Lemma on_track_loop_body :
  hoare (fun s => on_track cfg s /\ queue s <> []
                  /\ (Z.of_nat (size (visited_urls s)) < limit)%Z)
    (loop_body w cfg) (fun _ => on_track cfg) (on_track cfg) (on_track cfg).
Proof.
  intros s (Hs & Hq & Hlt). destruct (queue s) as [|u rest] eqn:Hqs; [done|].
  rewrite (loop_body_pop w cfg u rest) by done.
  set (s2 := upd_log (fun l => l ++ [Dequeue u]) (upd_queue (fun _ => rest) s)).
  destruct (on_track_wf s Hs) as [Hnd Hdis]. rewrite Hqs in Hnd, Hdis.
  apply NoDup_cons in Hnd as [Hu Hnd].
  assert (on_track cfg s2 /\ f_next (replay (log s2)) = Some u /\ (u ∉ queue s2)
          /\ (Z.of_nat (size (visited_urls s2)) < limit)%Z) as Hpre.
  { destruct Hs as [Hg [Hv Hqq]]. repeat split; simpl; try done.
    - constructor; [done|]. simpl. rewrite Hv, Hqq, Hqs. split; [by exists rest|done].
    - rewrite replay_snoc. simpl. done.
    - rewrite replay_snoc. simpl. by rewrite Hqq, Hqs.
    - by rewrite replay_snoc. }
  assert (hoare (fun s => s = s2)
    (try_except (scrape_page w cfg u)
       (fun msg =>
          let line := "Error processing " +:+ u +:+ ": " +:+ msg in
          bind (emit (SigError line))
            (fun _ => upd_res (upd_errors (fun l => l ++ [line])))))
    (fun _ => on_track cfg) (on_track cfg) (on_track cfg)) as H.
  { apply hoare_try with (E' := on_track cfg).
    - intros ? ->. by apply on_track_scrape_page.
    - intros e. cbv zeta. unfold upd_res. as_keeps. repeat keeps_step;
        first [by apply on_track_emit | by apply on_track_modify]. }
  by apply H.
Qed.

Lemma on_track_crawl_loop (fuel : nat) : keeps (on_track cfg) (crawl_loop w cfg fuel).
Proof.
  induction fuel as [|fuel IH]; [by intros s Hs|].
  simpl. eapply hoare_bind; [apply on_track_loop_test|].
  intros [|]; [|by apply hoare_ret; intros s [Hs _]].
  eapply hoare_bind with (Q' := fun _ => on_track cfg); [|intros _; exact IH].
  eapply hoare_conseq; [apply on_track_loop_body|..]; auto.
  intros s [Hs Hb]. destruct (Hb eq_refl). done.
Qed.

Lemma on_track_init (fs0 : gmap string FileData) : on_track cfg (init fs0).
Proof. split; [constructor|done]. Qed.

Lemma on_track_run (fs0 : gmap string FileData) :
  on_track cfg (run w cfg (init fs0)).2.
Proof.
  assert (hoare (fun s => s = init fs0) (run w cfg)
    (fun _ => on_track cfg) (on_track cfg) (on_track cfg)) as H.
  2:{ eapply hoare_state; [exact H|done]. }
  unfold run.
  assert (forall (m : M unit) (k : M unit), keeps (on_track cfg) k ->
    hoare (fun s => s = init fs0) m (fun _ => on_track cfg) (on_track cfg) (on_track cfg) ->
    hoare (fun s => s = init fs0) (try_finally m k)
      (fun _ => on_track cfg) (on_track cfg) (on_track cfg)) as Hfin.
  { intros m k Hk Hm s Hs. specialize (Hm s Hs). unfold try_finally.
    destruct (m s) as [[[]|e|] s']; [| |done];
      specialize (Hk s' Hm); by destruct (k s') as [[[]|e'|] s'']. }
  apply Hfin; [by apply on_track_emit|].
  apply hoare_try with (E' := on_track cfg); [|intros e; by apply on_track_emit].
  eapply hoare_bind with (Q' := fun _ => on_track cfg).
  { intros s ->. apply on_track_enqueue; [apply on_track_init|set_solver|].
    simpl. apply not_elem_of_nil. }
  intros _. apply keeps_bind; [apply on_track_crawl_loop|]. intros _.
  unfold read_running. repeat keeps_step;
    first [by apply on_track_emit | by apply on_track_modify].
Qed.

End FrontierRun.

(** ** Termination of the crawl loop *)

Section Termination.
Context (w : World) (cfg : Config).

Local Abbreviation limit := (max_pages (options cfg)).

Lemma running_at_mono (n m : nat) :
  running_at w n = false -> n <= m -> running_at w m = false.
Proof.
  unfold running_at. destruct (stop_after w) as [k|]; [|done].
  intros H%Nat.ltb_ge Hle. apply Nat.ltb_ge. lia.
Qed.

Lemma total_fetch_attempts (u : string) (left : nat) :
  total (fun _ => True) (fetch_attempts w u left).
Proof.
  induction left as [|left IH]; simpl; [apply total_ret|].
  unfold http_request, emit, upd_res. repeat total_step. exact IH.
Qed.

Lemma total_scrape_page (u : string) : total (fun _ => True) (scrape_page w cfg u).
Proof.
  unfold scrape_page, read_running, mark_visited, page_body, handle_response,
    save_html, write_file, extract_page, process_link, offer_link, enqueue,
    record_meta, process_text, process_image, process_script, process_stylesheet,
    process_asset, upd_res, emit.
  repeat total_step;
    first [apply total_download_file | apply total_fetch_attempts].
Qed.

Lemma visited_page (u : string) (V : gset string) :
  keeps (fun s => visited_urls s = V)
    (try_except (page_body w cfg u)
       (fun msg => emit (SigError ("Error scraping " +:+ u +:+ ": " +:+ msg)))).
Proof.
  apply keeps_try; [|intros e; unfold emit; frame].
  unfold page_body. apply keeps_bind.
  - apply keeps_fetch_attempts; intros; unfold_prims; frame.
  - intros [r|]; [|apply keeps_ret]. unfold_page. unfold_prims. frame.
Qed.

Lemma loop_body_turns (s : Worker) :
  on_track cfg s -> queue s <> [] ->
  (Z.of_nat (size (visited_urls s)) < limit)%Z ->
  (loop_body w cfg s).1 = Val tt
  /\ turns_left w cfg (loop_body w cfg s).2
     <= Z.to_nat (limit - Z.of_nat (size (visited_urls s))).
Proof.
  intros Hs Hq Hlt. destruct (queue s) as [|u rest] eqn:Hqs; [done|].
  destruct (on_track_wf cfg s Hs) as [Hnd Hdis]. rewrite Hqs in Hnd, Hdis.
  assert (u ∉ visited_urls s) as Hu by (apply Hdis; by left).
  rewrite (loop_body_pop w cfg u rest) by done.
  set (s2 := upd_log (fun l => l ++ [Dequeue u]) (upd_queue (fun _ => rest) s)).
  unfold try_except. destruct (running_at w (reads s2)) eqn:Hrun.
  - rewrite scrape_page_start by done.
    pose proof (visited_page u _ (page_started u s2) eq_refl) as Hv.
    pose proof (total_scrape_page u s2 I) as Ht.
    rewrite scrape_page_start in Ht by done.
    destruct (try_except _ _ (page_started u s2)) as [[[]|e|] s3]; simpl in Hv, Ht |- *;
      try done; (split; [done|]);
      unfold turns_left, bind, emit, upd_res, modify; simpl; rewrite Hv;
      rewrite size_union, size_singleton by set_solver;
      match goal with |- context [if ?b then 1 else 0] => destruct b end; lia.
  - rewrite scrape_page_stopped by done. simpl. split; [done|].
    unfold turns_left. simpl.
    rewrite (running_at_mono (reads s2) (S (reads s))) by (simpl; done || lia).
    lia.
Qed.

Lemma crawl_loop_total (fuel : nat) (s : Worker) :
  on_track cfg s -> turns_left w cfg s < fuel ->
  (crawl_loop w cfg fuel s).1 = Val tt.
Proof.
  revert s. induction fuel as [|fuel IH]; intros s Hs Hfuel; [lia|].
  simpl. unfold bind at 1.
  pose proof (on_track_loop_test w cfg s Hs) as Ht.
  assert (forall b s1, loop_test w cfg s = (Val b, s1) -> b = true ->
    running_at w (reads s) = true /\ visited_urls s1 = visited_urls s) as Hflag.
  { unfold loop_test, bind at 1, get. destruct (queue s); [by intros ?? [= <- <-]|].
    unfold bind at 1, read_running, bind, get, modify, emit, ret. simpl.
    destruct (running_at w (reads s)); simpl; [|by intros ?? [= <- <-]].
    intros b s1 [= <- <-] _. done. }
  destruct (loop_test w cfg s) as [[[|]|e|] s1] eqn:Htest; simpl; try done.
  - destruct Ht as [Hs1 Hb]. destruct (Hb eq_refl) as [Hq Hlt].
    destruct (Hflag true s1 eq_refl eq_refl) as [Hrun Hv].
    destruct (loop_body_turns s1 Hs1 Hq Hlt) as [Hval Hturns].
    pose proof (on_track_loop_body w cfg s1 (conj Hs1 (conj Hq Hlt))) as Hs2.
    unfold bind. destruct (loop_body w cfg s1) as [[[]|e|] s2]; simpl in *;
      try done.
    apply IH; [done|]. unfold turns_left in Hfuel. rewrite Hrun in Hfuel.
    rewrite Hv in Hturns. lia.
  - exfalso. clear -Htest. revert Htest. unfold loop_test, bind at 1, get.
    destruct (queue s); [done|].
    unfold bind at 1, read_running, bind, get, modify, emit, ret. simpl.
    by destruct (running_at w (reads s)).
  - exfalso. clear -Htest. revert Htest. unfold loop_test, bind at 1, get.
    destruct (queue s); [done|].
    unfold bind at 1, read_running, bind, get, modify, emit, ret. simpl.
    by destruct (running_at w (reads s)).
Qed.

Lemma run_returns (fs0 : gmap string FileData) :
  (run w cfg (init fs0)).1 = Val tt.
Proof.
  pose proof (crawl_loop_total (run_fuel cfg) (enqueue (url cfg) (init fs0)).2) as H.
  assert ((crawl_loop w cfg (run_fuel cfg) (enqueue (url cfg) (init fs0)).2).1 = Val tt)
    as Hloop.
  { apply H.
    - apply on_track_enqueue; [apply on_track_init|set_solver|apply not_elem_of_nil].
    - unfold turns_left, run_fuel.
      change (visited_urls (enqueue (url cfg) (init fs0)).2) with (∅ : gset string).
      rewrite size_empty.
      match goal with |- context [if ?b then 1 else 0] => destruct b end; lia. }
  clear H. unfold run, try_finally, try_except. unfold bind at 1.
  destruct (enqueue (url cfg) (init fs0)) as [[[]|e|] s0] eqn:Henq; try done.
  simpl in Hloop. unfold bind at 1.
  destruct (crawl_loop w cfg (run_fuel cfg) s0) as [[[]|e|] s1]; try done.
  unfold bind at 1, read_running, bind at 1, get, bind, modify, emit, ret. simpl.
  by destruct (running_at w (reads s1)).
Qed.

End Termination.

(** ** The frontier at every point of a run *)

Section FrontierClaims.
Context (w : World) (cfg : Config).

Lemma scrape_page_visits (u : string) (s : Worker) :
  visited_urls (scrape_page w cfg u s).2 = visited_urls s
  \/ ((u ∉ visited_urls s)
      /\ visited_urls (scrape_page w cfg u s).2 = {[u]} ∪ visited_urls s).
Proof.
  destruct (decide (u ∈ visited_urls s)) as [Hin|Hnot].
  { left. by rewrite scrape_page_visited. }
  destruct (running_at w (reads s)) eqn:Hrun.
  - right. split; [done|]. rewrite scrape_page_start by done.
    apply (keeps_state _ _ _ (visited_page w cfg u _)). done.
  - left. by rewrite scrape_page_stopped.
Qed.

Lemma run_points (fs0 : gmap string FileData) (p : list Event) :
  p `prefix_of` log (run w cfg (init fs0)).2 ->
  good_log (max_pages (options cfg)) p.
Proof.
  intros Hp. eapply good_log_prefix; [|exact Hp]. apply on_track_run.
Qed.

End FrontierClaims.

(** **C1.** In a run with a non-negative [max_pages], at every point (after
    every prefix of the events) the visited set has at most [max_pages]
    elements; a URL is popped, and then added to the visited set, only
    while the set has fewer than [max_pages] elements, and only if it is
    not in the set yet; [scrape_page] adds at most its own URL.  The run
    ends, and the visited set of the events is the worker's. *)
Theorem C1_visited_bounded (w : World) (cfg : Config) (fs0 : gmap string FileData) :
  (0 <= max_pages (options cfg))%Z ->
  let final := run w cfg (init fs0) in
  final.1 = Val tt
  /\ f_visited (replay (log final.2)) = visited_urls final.2
  /\ NoDup (elements (visited_urls final.2))
  /\ (forall p, p `prefix_of` log final.2 ->
        (Z.of_nat (size (f_visited (replay p))) <= max_pages (options cfg))%Z)
  /\ (forall p u, p ++ [Dequeue u] `prefix_of` log final.2 ->
        (Z.of_nat (size (f_visited (replay p))) < max_pages (options cfg))%Z)
  /\ (forall p u, p ++ [Visit u] `prefix_of` log final.2 ->
        (u ∉ f_visited (replay p))
        /\ (Z.of_nat (size (f_visited (replay p))) < max_pages (options cfg))%Z)
  /\ (forall u s,
        visited_urls (scrape_page w cfg u s).2 = visited_urls s
        \/ ((u ∉ visited_urls s)
            /\ visited_urls (scrape_page w cfg u s).2 = {[u]} ∪ visited_urls s)).
Proof.
  intros Hmax final. split; [apply run_returns|].
  split; [apply (on_track_run w cfg fs0)|].
  split; [apply NoDup_elements|]. split; [|split; [|split]].
  - intros p Hp. destruct (good_log_wf _ _ (run_points w cfg fs0 p Hp)) as (_ & _ & H).
    lia.
  - intros p u Hp. apply run_points, good_log_last in Hp. apply Hp.
  - intros p u Hp. apply run_points, good_log_last in Hp.
    destruct Hp as (_ & Hv & _ & Hlt). done.
  - apply scrape_page_visits.
Qed.

(** **C2.** At every point of a run the queue has no URL twice and no URL
    of the visited set.  A URL is appended to the queue only when it is
    neither visited nor queued, the URL that is popped is the head of the
    queue, and the URL that is added to the visited set is the one that was
    popped last and is no longer in the queue. *)
Theorem C2_queue_disjoint (w : World) (cfg : Config) (fs0 : gmap string FileData) :
  let final := run w cfg (init fs0) in
  final.1 = Val tt
  /\ f_queue (replay (log final.2)) = queue final.2
  /\ (forall p, p `prefix_of` log final.2 ->
        NoDup (f_queue (replay p))
        /\ forall u, u ∈ f_queue (replay p) -> u ∉ f_visited (replay p))
  /\ (forall p u, p ++ [Enqueue u] `prefix_of` log final.2 ->
        (u ∉ f_visited (replay p)) /\ (u ∉ f_queue (replay p)))
  /\ (forall p u, p ++ [Dequeue u] `prefix_of` log final.2 ->
        exists q, f_queue (replay p) = u :: q)
  /\ (forall p u, p ++ [Visit u] `prefix_of` log final.2 ->
        f_next (replay p) = Some u /\ u ∉ f_queue (replay p)).
Proof.
  intros final. split; [apply run_returns|].
  split; [apply (on_track_run w cfg fs0)|]. split; [|split; [|split]].
  - intros p Hp. destruct (good_log_wf _ _ (run_points w cfg fs0 p Hp)) as (H1 & H2 & _).
    done.
  - intros p u Hp. apply run_points, good_log_last in Hp. apply Hp.
  - intros p u Hp. apply run_points, good_log_last in Hp. apply Hp.
  - intros p u Hp. apply run_points, good_log_last in Hp.
    destruct Hp as (Hn & _ & Hq & _). done.
Qed.

(** ** Stopping *)

Lemma quiet_snoc (l : list Event) (e : Event) :
  quiet_after_stop l -> starts_work e = false \/ ReadRunning false ∉ l ->
  quiet_after_stop (l ++ [e]).
Proof.
  intros Hl He p q Heq e' Hin. destruct q as [|x q _] using rev_ind.
  { inversion Hin. }
  change (p ++ ReadRunning false :: q ++ [x])
    with (p ++ (ReadRunning false :: q) ++ [x]) in Heq.
  rewrite app_assoc in Heq. apply app_inj_tail in Heq as [-> ->].
  apply elem_of_app in Hin as [Hin| ->%list_elem_of_singleton].
  - by apply (Hl p q).
  - destruct He as [He|He]; [done|]. exfalso. apply He.
    apply elem_of_app. right. by left.
Qed.

Section Stop.
Context (w : World) (cfg : Config).

Lemma live_unseen (s : Worker) : (calm w) s -> (live w) s -> ReadRunning false ∉ log s.
Proof.
  intros [_ Hseen] (i & Hi & Hrun) Hin. destruct (Hseen Hin) as (j & Hj & Hoff).
  rewrite (running_at_mono w j i) in Hrun by (done || lia). done.
Qed.

Lemma calm_emit (e : Event) :
  starts_work e = false -> is_read e = false -> keeps (calm w) (emit e).
Proof.
  intros Hw Hr. apply keeps_modify. intros s [Hq Hseen]. split; simpl.
  - apply quiet_snoc; auto.
  - intros [Hin| Heq%list_elem_of_singleton]%elem_of_app; [auto|by subst e].
Qed.

Lemma calm_modify (f : Worker -> Worker) :
  (forall s, log (f s) = log s) -> (forall s, reads (f s) = reads s) ->
  keeps (calm w) (modify f).
Proof.
  intros Hl Hr. apply keeps_modify. intros s Hs. unfold calm. by rewrite Hl, Hr.
Qed.

Lemma active_emit (e : Event) : is_read e = false -> keeps (active w) (emit e).
Proof.
  intros Hr. apply keeps_modify. intros s [Hc Hlive].
  pose proof (live_unseen s Hc Hlive) as Hun. destruct Hc as [Hq Hseen].
  split; [split|]; simpl.
  - apply quiet_snoc; auto.
  - intros [Hin| Heq%list_elem_of_singleton]%elem_of_app; [auto|by subst e].
  - exact Hlive.
Qed.

Lemma active_modify (f : Worker -> Worker) :
  (forall s, log (f s) = log s) -> (forall s, reads (f s) = reads s) ->
  keeps (active w) (modify f).
Proof.
  intros Hl Hr. apply keeps_modify. intros s Hs. unfold active, calm, live.
  by rewrite Hl, Hr.
Qed.

Lemma read_running_spec :
  hoare (calm w) (read_running w) (fun b s => (calm w) s /\ (b = true -> (live w) s)) (calm w) (calm w).
Proof.
  intros s [Hq Hseen]. unfold read_running, bind, get, modify, emit, ret. simpl.
  split; [split|]; simpl.
  - apply quiet_snoc; auto.
  - intros [Hin| Hin%list_elem_of_singleton]%elem_of_app.
    + destruct (Hseen Hin) as (j & Hj & Hoff). exists j. split; [lia|done].
    + exists (reads s). split; [lia|]. by injection Hin as <-.
  - intros Hb. by exists (reads s).
Qed.

Ltac calm_leaf :=
  first
    [ apply calm_emit; reflexivity
    | apply calm_modify; intros; reflexivity ].

Ltac active_leaf :=
  first
    [ apply active_emit; reflexivity
    | apply active_modify; intros; reflexivity ].

Lemma calm_download_file (u d : string) (ft : FileType) :
  keeps (calm w) (download_file w cfg u d ft).
Proof.
  unfold download_file. eapply hoare_bind; [apply read_running_spec|].
  intros [|]; simpl negb; cbv iota.
  - eapply hoare_conseq with (P' := (active w))
      (Q' := fun _ => (active w)) (E' := (active w)) (F' := (active w));
      [|by intros s [Hs Hl]; split; auto | by intros ? ? [? ?]
       | by intros ? [? ?] | by intros ? [? ?]].
    unfold transfer, free_name, write_file. as_keeps.
    repeat keeps_step; active_leaf.
  - apply hoare_ret. by intros s [Hs _].
Qed.

Lemma calm_handle_response (u : string) (r : Response) :
  keeps (calm w) (handle_response w cfg u r).
Proof.
  unfold handle_response, save_html, extract_page, process_link, offer_link,
    enqueue, record_meta, process_text, process_image, process_script,
    process_stylesheet, process_asset, write_file, upd_res.
  repeat keeps_step; first [apply calm_download_file | calm_leaf].
Qed.

Lemma active_page (u : string) :
  hoare (active w)
    (try_except (page_body w cfg u)
       (fun msg => emit (SigError ("Error scraping " +:+ u +:+ ": " +:+ msg))))
    (fun _ => (calm w)) (calm w) (calm w).
Proof.
  apply hoare_try with (E' := (calm w)); [|intros e; calm_leaf].
  unfold page_body. eapply hoare_bind with (Q' := fun _ => (calm w)).
  - eapply hoare_conseq with (P' := (active w))
      (Q' := fun _ => (active w)) (E' := (active w)) (F' := (active w));
      [|done|by intros ? ? [? ?] | by intros ? [? ?] | by intros ? [? ?]].
    apply keeps_fetch_attempts; intros; unfold http_request, upd_res;
      repeat keeps_step; active_leaf.
  - intros [r|]; [apply calm_handle_response | apply keeps_ret].
Qed.

Lemma calm_scrape_page (u : string) : keeps (calm w) (scrape_page w cfg u).
Proof.
  unfold scrape_page. apply keeps_bind; [apply keeps_get|]. intros s0.
  destruct (bool_decide _); [apply keeps_ret|].
  eapply hoare_bind; [apply read_running_spec|].
  intros [|]; simpl negb; cbv iota; [|apply hoare_ret; by intros s [Hs _]].
  eapply hoare_conseq with (P' := (active w))
    (Q' := fun _ => (calm w)) (E' := (calm w)) (F' := (calm w));
    [|by intros s [Hs Hl]; split; auto | done..].
  eapply hoare_bind with (Q' := fun _ => (active w)).
  { unfold mark_visited. as_keeps. repeat keeps_step; active_leaf. }
  intros _. eapply hoare_bind with (Q' := fun _ => (active w)).
  { as_keeps. active_leaf. }
  intros _. apply active_page.
Qed.

Lemma calm_loop_test :
  hoare (calm w) (loop_test w cfg) (fun b s => (calm w) s /\ (b = true -> (live w) s)) (calm w) (calm w).
Proof.
  unfold loop_test.
  eapply hoare_bind with (Q' := fun _ => (calm w)); [apply keeps_get|]. intros s0.
  destruct (queue s0) as [|u0 rest0]; [apply hoare_ret; by split|].
  eapply hoare_bind; [apply read_running_spec|].
  intros [|]; simpl negb; cbv iota.
  - eapply hoare_bind with (Q' := fun _ s => (calm w) s /\ (live w) s).
    + apply hoare_get. intros s [Hs Hl]. auto.
    + intros s1. apply hoare_ret. intros s [Hs Hl]. auto.
  - apply hoare_ret. intros s [Hs _]. by split.
Qed.

Lemma active_loop_body :
  hoare (active w) (loop_body w cfg) (fun _ => (calm w)) (calm w) (calm w).
Proof.
  unfold loop_body. eapply hoare_bind with (Q' := fun _ => (calm w)).
  - eapply hoare_conseq with (P' := (active w))
      (Q' := fun _ => (active w)) (E' := (active w)) (F' := (active w));
      [|done|by intros ? ? [? ?] | by intros ? [? ?] | by intros ? [? ?]].
    unfold dequeue. as_keeps. repeat keeps_step; active_leaf.
  - intros u. apply keeps_try; [apply calm_scrape_page|].
    intros e. cbv zeta. unfold upd_res. repeat keeps_step; calm_leaf.
Qed.

Lemma calm_crawl_loop (fuel : nat) : keeps (calm w) (crawl_loop w cfg fuel).
Proof.
  induction fuel as [|fuel IH]; [by intros s Hs|].
  simpl. eapply hoare_bind; [apply calm_loop_test|].
  intros [|]; [|apply hoare_ret; by intros s [Hs _]].
  eapply hoare_bind with (Q' := fun _ => (calm w)); [|intros _; exact IH].
  eapply hoare_conseq; [apply active_loop_body|..]; auto.
  intros s [Hs Hl]. split; auto.
Qed.

Lemma calm_run : keeps (calm w) (run w cfg).
Proof.
  unfold run, enqueue. eapply keeps_finally; [|calm_leaf].
  apply keeps_try; [|intros e; calm_leaf].
  apply keeps_bind; [repeat keeps_step; calm_leaf|]. intros _.
  apply keeps_bind; [apply calm_crawl_loop|]. intros _.
  apply keeps_bind.
  { eapply hoare_conseq; [apply read_running_spec|..]; auto. by intros ? ? [? ?]. }
  intros b. repeat keeps_step; calm_leaf.
Qed.

Lemma calm_init (fs0 : gmap string FileData) : (calm w) (init fs0).
Proof.
  split; simpl.
  - intros p q Heq. by destruct p.
  - intros Hin. inversion Hin.
Qed.

(** Once a read has seen [False], the loop ends at its test. *)
Lemma crawl_loop_stopped (fuel : nat) (s : Worker) :
  running_at w (reads s) = false ->
  exists s', crawl_loop w cfg (S fuel) s = (Val tt, s')
    /\ results s' = results s /\ visited_urls s' = visited_urls s
    /\ queue s' = queue s /\ fs s' = fs s
    /\ (log s' = log s \/ log s' = log s ++ [ReadRunning false]).
Proof.
  intros Hoff. simpl. unfold bind at 1, loop_test, bind at 1, get.
  destruct (queue s) as [|u rest] eqn:Hq.
  - exists s. simpl. rewrite Hq. auto 10.
  - unfold bind at 1, read_running, bind, get, modify, emit, ret. simpl.
    rewrite Hoff. simpl. eexists. split; [done|]. simpl. auto 10.
Qed.

End Stop.

(** ** Results only grow *)

Lemma results_le_refl (r : Results) : results_le r r.
Proof. unfold results_le. repeat split; reflexivity. Qed.

Lemma results_le_trans (a b c : Results) :
  results_le a b -> results_le b c -> results_le a c.
Proof.
  unfold results_le. intros H1 H2.
  repeat match goal with H : _ /\ _ |- _ => destruct H end.
  repeat split; etrans; eassumption.
Qed.

Ltac results_step :=
  unfold results_le; simpl; repeat split;
    first [ reflexivity | set_solver | by apply prefix_app_r | lia ].

Ltac grown_leaf :=
  apply keeps_modify; intros ? [? ?]; split;
    [ first [ assumption
            | eapply results_le_trans; [eassumption|]; results_step ]
    | simpl; set_solver ].

Section Growth.
Context (w : World) (cfg : Config).

Lemma grown_record_meta (r0 : Results) (V0 : gset string) (u : string)
    (found : gmap string (option string)) :
  keeps (grown r0 V0) (record_meta u found).
Proof.
  intros s [Hr Hv]. unfold record_meta, bind, get.
  destruct (bool_decide _) eqn:Hb; simpl; [by split|].
  apply bool_decide_eq_false in Hb. split; [|done].
  eapply results_le_trans; [exact Hr|]. unfold results_le. simpl.
  repeat split; try reflexivity. apply insert_subseteq.
  by apply eq_None_not_Some.
Qed.

Lemma grown_scrape_page (r0 : Results) (V0 : gset string) (u : string) :
  keeps (grown r0 V0) (scrape_page w cfg u).
Proof.
  unfold scrape_page, read_running, mark_visited, page_body.
  repeat keeps_step.
  all: try (unfold emit; grown_leaf).
  - apply keeps_fetch_attempts; intros; unfold http_request, upd_res, emit;
      repeat keeps_step; grown_leaf.
  - unfold handle_response, save_html, extract_page, process_link, offer_link,
      enqueue, process_text, process_image, process_script, process_stylesheet,
      process_asset, download_file, free_name, transfer, write_file,
      read_running, upd_res, emit.
    repeat keeps_step; first [apply grown_record_meta | grown_leaf].
Qed.

Lemma grown_crawl_loop (r0 : Results) (V0 : gset string) (fuel : nat) :
  keeps (grown r0 V0) (crawl_loop w cfg fuel).
Proof.
  induction fuel as [|fuel IH]; [by intros s Hs|].
  simpl. unfold loop_test, loop_body, dequeue, read_running, upd_res, emit.
  repeat keeps_step; first [apply grown_scrape_page | exact IH | grown_leaf].
Qed.

Lemma crawl_loop_grows (fuel : nat) (s : Worker) :
  results_le (results s) (results (crawl_loop w cfg fuel s).2)
  /\ visited_urls s ⊆ visited_urls (crawl_loop w cfg fuel s).2.
Proof.
  apply (keeps_state _ _ _ (grown_crawl_loop (results s) (visited_urls s) fuel)).
  split; [apply results_le_refl|done].
Qed.

End Growth.

(** **C9.** The stop flag only goes from [True] to [False].  In the events
    of a run, no request, no download and no page comes after a read of the
    flag that saw [False].  From a state in which the flag is off, the loop
    ends at its test, and the results, the visited set, the queue and the
    files are as they were; and at no point does the loop remove or change
    an entry of the results or of the visited set. *)
Theorem C9_cooperative_stop (w : World) (cfg : Config) :
  (forall n m, running_at w n = false -> n <= m -> running_at w m = false)
  /\ (forall fs0, quiet_after_stop (log (run w cfg (init fs0)).2))
  /\ (forall fuel s, running_at w (reads s) = false ->
        exists s', crawl_loop w cfg (S fuel) s = (Val tt, s')
          /\ results s' = results s /\ visited_urls s' = visited_urls s
          /\ queue s' = queue s /\ fs s' = fs s
          /\ (log s' = log s \/ log s' = log s ++ [ReadRunning false]))
  /\ (forall fuel s,
        results_le (results s) (results (crawl_loop w cfg fuel s).2)
        /\ visited_urls s ⊆ visited_urls (crawl_loop w cfg fuel s).2).
Proof.
  split; [apply running_at_mono|]. split; [|split].
  - intros fs0.
    apply (keeps_state _ _ _ (calm_run w cfg) (calm_init w fs0)).
  - apply crawl_loop_stopped.
  - apply crawl_loop_grows.
Qed.

(** ** Which links are kept *)

Ltac valid_sets Hset :=
  first
    [ exact Hset
    | let x := fresh "x" in
      let Hx := fresh "Hx" in
      intros x Hx;
      lazymatch goal with
      | H : negb (is_valid_url ?a) = false |- _ =>
          let Hne := fresh "Hne" in
          destruct (decide (x = a)) as [->|Hne];
            [ by apply negb_false_iff in H
            | apply Hset; revert Hx Hne; clear; rewrite !elem_of_union,
                ?elem_of_singleton; tauto ]
      end ].

Ltac valid_queue Hq :=
  first
    [ exact Hq
    | let x := fresh "x" in
      let Hin := fresh "Hin" in
      intros x [Hin|Hin%list_elem_of_singleton]%elem_of_app;
        [ by apply Hq
        | first
            [ discriminate Hin
            | injection Hin as ->;
              first
                [ by left
                | right;
                  lazymatch goal with
                  | H : negb (is_valid_url _) = false |- _ =>
                      by apply negb_false_iff in H
                  end ] ] ] ].

Ltac valid_leaf :=
  let Hset := fresh "Hset" in
  let Hq := fresh "Hq" in
  apply keeps_modify; intros ? [Hset Hq]; split; simpl;
    [valid_sets Hset | valid_queue Hq].

Section Valid.
Context (w : World) (cfg : Config).

Lemma links_valid_scrape_page (u : string) :
  keeps (links_valid cfg) (scrape_page w cfg u).
Proof.
  unfold scrape_page, read_running, mark_visited, page_body.
  repeat keeps_step.
  all: try (unfold emit; valid_leaf).
  - apply keeps_fetch_attempts; intros; unfold http_request, upd_res, emit;
      repeat keeps_step; valid_leaf.
  - unfold handle_response, save_html, extract_page, process_link, offer_link,
      enqueue, record_meta, process_text, process_image, process_script,
      process_stylesheet, process_asset, download_file, free_name, transfer,
      write_file, read_running, upd_res, emit.
    repeat keeps_step; valid_leaf.
Qed.

Lemma links_valid_crawl_loop (fuel : nat) :
  keeps (links_valid cfg) (crawl_loop w cfg fuel).
Proof.
  induction fuel as [|fuel IH]; [by intros s Hs|].
  simpl. unfold loop_test, loop_body, dequeue, read_running, upd_res, emit.
  repeat keeps_step;
    first [apply links_valid_scrape_page | exact IH | valid_leaf].
Qed.

Lemma links_valid_run (fs0 : gmap string FileData) :
  links_valid cfg (run w cfg (init fs0)).2.
Proof.
  apply keeps_state.
  - unfold run, enqueue, read_running, emit.
    repeat keeps_step; first [apply links_valid_crawl_loop | valid_leaf].
  - split; simpl; [|intros u Hu; inversion Hu].
    intros u Hu. rewrite !elem_of_union in Hu. destruct Hu as [[Hu|Hu]|Hu];
      by apply elem_of_empty in Hu.
Qed.

Lemma process_link_dropped (base_url base_domain href full : string) (s : Worker) :
  normalize_url w (Py.strip href) base_url = Ok full ->
  is_valid_url full = false ->
  process_link w cfg base_url base_domain href s = (Val tt, s).
Proof.
  intros Hn Hv. unfold process_link. destruct (skip_href _); [done|].
  rewrite Hn. unfold bind, lift, ret. by rewrite Hv.
Qed.

Lemma process_link_kept (base_url base_domain href full : string) (s : Worker) :
  skip_href (Py.strip href) = false ->
  normalize_url w (Py.strip href) base_url = Ok full ->
  is_valid_url full = true ->
  full ∈ links (results (process_link w cfg base_url base_domain href s).2).
Proof.
  intros Hskip Hn Hv.
  set (s1 := upd_results (upd_links (fun l => {[full]} ∪ l)) s).
  assert (full ∈ links (results s1)) as Hin by (simpl; set_solver).
  assert (keeps (fun s' => full ∈ links (results s'))
    (internal ← lift (is_internal_link full base_domain);
     if internal then
       upd_res (upd_internal_links (fun l => {[full]} ∪ l)) ;;
       offer_link cfg full
     else upd_res (upd_external_links (fun l => {[full]} ∪ l)))) as Hk.
  { unfold offer_link, enqueue, upd_res, emit. frame. }
  apply (keeps_state _ _ s1) in Hk; [|exact Hin].
  unfold process_link. rewrite Hskip, Hn.
  unfold bind at 1, lift, ret. rewrite Hv. simpl negb. cbv iota.
  unfold bind at 1, upd_res, modify. exact Hk.
Qed.

End Valid.

Lemma valid_scheme (u : string) (parsed : Url.ParseResult) :
  is_valid_url u = true -> Url.urlparse u = Ok parsed ->
  Url.scheme parsed = "http" \/ Url.scheme parsed = "https".
Proof.
  intros Hv%is_valid_url_http Hp. by destruct (page_base_http u parsed Hv Hp).
Qed.

(** **C5 (amended).** A URL passes [is_valid_url] exactly when it begins
    with [http://] or [https://] and its whole lower-cased text does not
    end in one of the six extensions; such a URL has the scheme http or
    https.  In a run, every URL of the three link sets passed the test, and
    so did every URL appended to the queue, the seed apart, which is queued
    untested; when the seed begins with [http://] or [https://], so does
    every URL of the queue.  A normalised link that fails the test changes
    nothing: no set, no queue entry, no error; one that passes it is put in
    [links]. *)
Theorem C5_valid_links_only (w : World) (cfg : Config) :
  (forall u,
     is_valid_url u = true <->
     (Py.startswith "http://" u = true \/ Py.startswith "https://" u = true)
     /\ forall ext, ext ∈ unwanted_exts -> Py.endswith ext (Py.lower u) = false)
  /\ (forall u parsed,
        is_valid_url u = true -> Url.urlparse u = Ok parsed ->
        Url.scheme parsed = "http" \/ Url.scheme parsed = "https")
  /\ (forall fs0 u,
        u ∈ links (results (run w cfg (init fs0)).2)
            ∪ internal_links (results (run w cfg (init fs0)).2)
            ∪ external_links (results (run w cfg (init fs0)).2) ->
        is_valid_url u = true)
  /\ (forall fs0 u,
        Enqueue u ∈ log (run w cfg (init fs0)).2 ->
        u = url cfg \/ is_valid_url u = true)
  /\ (forall base_url base_domain href full s,
        normalize_url w (Py.strip href) base_url = Ok full ->
        is_valid_url full = false ->
        process_link w cfg base_url base_domain href s = (Val tt, s))
  /\ (forall base_url base_domain href full s,
        skip_href (Py.strip href) = false ->
        normalize_url w (Py.strip href) base_url = Ok full ->
        is_valid_url full = true ->
        full ∈ links (results (process_link w cfg base_url base_domain href s).2))
  /\ (is_http (url cfg) = true ->
      forall fs0 u, Enqueue u ∈ log (run w cfg (init fs0)).2 -> is_http u = true).
Proof.
  split; [apply is_valid_url_spec|]. split; [apply valid_scheme|].
  split; [|split; [|split; [|split]]].
  - intros fs0. apply (links_valid_run w cfg fs0).
  - intros fs0. apply (links_valid_run w cfg fs0).
  - apply process_link_dropped.
  - apply process_link_kept.
  - intros Hseed fs0 u Hu.
    destruct (proj2 (links_valid_run w cfg fs0) u Hu) as [->|Hv]; [done|].
    by apply is_valid_url_http.
Qed.

(** ** Internal and external links *)

Section Classify.
Context (w : World) (cfg : Config).

Lemma offer_link_links (u : string) (I E : gset string) :
  keeps (fun s => internal_links (results s) = I /\ external_links (results s) = E)
    (offer_link cfg u).
Proof. unfold offer_link, enqueue, emit. frame. Qed.

Lemma process_link_classifies (base_url base_domain href full : string)
    (parsed : Url.ParseResult) (s : Worker) :
  skip_href (Py.strip href) = false ->
  normalize_url w (Py.strip href) base_url = Ok full ->
  is_valid_url full = true -> Url.urlparse full = Ok parsed ->
  let s' := (process_link w cfg base_url base_domain href s).2 in
  (host_within (Url.netloc parsed) base_domain ->
     internal_links (results s') = {[full]} ∪ internal_links (results s)
     /\ external_links (results s') = external_links (results s))
  /\ (~ host_within (Url.netloc parsed) base_domain ->
      external_links (results s') = {[full]} ∪ external_links (results s)
      /\ internal_links (results s') = internal_links (results s)).
Proof.
  intros Hskip Hn Hv Hp. cbv zeta.
  destruct (is_internal_link_spec full base_domain parsed Hp) as (b & Hb & Hiff).
  fold (host_within (Url.netloc parsed) base_domain) in Hiff.
  set (s1 := upd_results (upd_links (fun l => {[full]} ∪ l)) s).
  assert (process_link w cfg base_url base_domain href s =
    if b then offer_link cfg full
                (upd_results (upd_internal_links (fun l => {[full]} ∪ l)) s1)
    else (Val tt, upd_results (upd_external_links (fun l => {[full]} ∪ l)) s1))
    as ->.
  { unfold process_link. rewrite Hskip, Hn.
    unfold bind at 1, lift, ret. rewrite Hv. simpl negb. cbv iota.
    unfold bind at 1, upd_res, modify. rewrite Hb. unfold bind at 1, ret.
    destruct b; [|done]. unfold bind. done. }
  destruct b.
  - match goal with |- context [offer_link cfg full ?s2] =>
      pose proof (keeps_state _ _ s2
        (offer_link_links full _ _) (conj eq_refl eq_refl)) as [H1 H2]
    end.
    simpl in H1, H2. split; [intros _; by split|].
    intros Hno. destruct Hno. by apply Hiff.
  - simpl. split; [|intros _; by split]. intros Hyes. apply Hiff in Hyes. done.
Qed.

End Classify.

(** **C4 (amended).** A link that passed [is_valid_url] is put in [links]
    and then classified against the host of the page it was found on: the
    network location of that page's URL when it begins with [http://] or
    [https://].  When [urlparse] accepts the link, it goes to
    [internal_links] when its network location (with the port and the user,
    if any) is that host or ends in a dot and that host, and to
    [external_links] otherwise; when [urlparse] raises, the link is in
    neither set and the exception leaves the loop over the links.  Against
    [example.com], [https://example.com/a] and [https://blog.example.com/b]
    are internal and [https://other.com] is external, and so is
    [https://example.com:8080/a]; a host with a tab in it is read without
    the tab; against [blog.example.com], [https://example.com/a] is
    external. *)
Theorem C4_internal_by_page_host (w : World) (cfg : Config)
    (page_url base_url base_domain href full : string) (s : Worker) :
  page_base page_url = Ok (base_url, base_domain) ->
  skip_href (Py.strip href) = false ->
  normalize_url w (Py.strip href) base_url = Ok full ->
  is_valid_url full = true ->
  let s' := (process_link w cfg base_url base_domain href s).2 in
  full ∈ links (results s')
  /\ (forall parsed, Url.urlparse full = Ok parsed ->
        (host_within (Url.netloc parsed) base_domain ->
           internal_links (results s') = {[full]} ∪ internal_links (results s)
           /\ external_links (results s') = external_links (results s))
        /\ (~ host_within (Url.netloc parsed) base_domain ->
            external_links (results s') = {[full]} ∪ external_links (results s)
            /\ internal_links (results s') = internal_links (results s)))
  /\ (forall msg, Url.urlparse full = Raise msg ->
        process_link w cfg base_url base_domain href s
        = (Exn msg, upd_results (upd_links (fun l => {[full]} ∪ l)) s))
  /\ (forall page_parsed,
        is_http page_url = true -> Url.urlparse page_url = Ok page_parsed ->
        base_domain = Url.netloc page_parsed)
  /\ is_internal_link "https://example.com/a" "example.com" = Ok true
  /\ is_internal_link "https://blog.example.com/b" "example.com" = Ok true
  /\ is_internal_link "https://other.com" "example.com" = Ok false
  /\ is_internal_link "https://example.com:8080/a" "example.com" = Ok false
  /\ is_internal_link tabbed_url "example.com" = Ok true
  /\ is_internal_link "https://example.com/a" "blog.example.com" = Ok false.
Proof.
  intros Hbase Hskip Hn Hv s'.
  split; [by apply process_link_kept|].
  split; [|split; [|split; [|by vm_compute]]].
  - intros parsed Hp.
    by apply (process_link_classifies w cfg base_url base_domain href full parsed s).
  - intros msg Hp. unfold process_link. rewrite Hskip, Hn.
    unfold bind at 1, lift, ret. rewrite Hv. simpl negb. cbv iota.
    unfold bind at 1, upd_res, modify. unfold is_internal_link. by rewrite Hp.
  - intros pp Hhttp Hpp. destruct (page_base_http page_url pp Hhttp Hpp) as [_ Hb].
    rewrite Hb in Hbase. by injection Hbase as _ <-.
Qed.

(** ** Errors of the extraction *)

(** After a fetch that succeeded, [scrape_page] returns normally whatever
    the page raises, and the error list is as it was: the handler only
    emits the error signal. *)
Lemma scrape_page_errors_after_fetch (w : World) (cfg : Config) (u : string)
    (s : Worker) (k : nat) (r : Response) :
  u ∉ visited_urls s -> running_at w (reads s) = true ->
  k < max_retries -> succeeds_at w s u k r ->
  errors (results (scrape_page w cfg u s).2) = errors (results s)
  /\ (scrape_page w cfg u s).1 = Val tt.
Proof.
  intros Hu Hrun Hk Hok. rewrite scrape_page_start by done.
  destruct (fetch_attempts_success w u r max_retries k (page_started u s))
    as (s2 & Hf & Hres & _); [done..|].
  assert (keeps (fun s' => errors (results s') = errors (results s))
    (handle_response w cfg u r)) as Hkeep.
  { unfold_page. unfold_prims. frame. }
  pose proof (total_scrape_page w cfg u s I) as Htot.
  rewrite scrape_page_start in Htot by done.
  assert (errors (results s2) = errors (results s)) as Hpre by (by rewrite Hres).
  specialize (Hkeep s2 Hpre). revert Htot.
  unfold try_except, page_body, bind. rewrite Hf.
  destruct (handle_response w cfg u r s2) as [[[]|e|] s3]; simpl; done.
Qed.

(** **C7.** The run of the small site.  The page of the subdomain raises
    in the middle of its links ([urlparse] rejects the second anchor): the
    run ends normally, the error signal is emitted and the loop goes on to
    the next URL, the link found before the exception is kept and the one
    after it is not reached; but the error list holds only the entry of the
    URL whose fetch failed, and nothing for the page that raised. *)
Theorem C7_extraction_error_not_listed :
  let final := run demo_world demo_cfg (init ∅) in
  final.1 = Val tt
  /\ signals_error "Error scraping https://blog.example.com/b: Invalid IPv6 URL"
       (log final.2) = true
  /\ errors (results final.2)
     = ["Error accessing https://example.com/file.pdf?download=1: timed out"]
  /\ elements (external_links (results final.2))
     = ["https://other.com"; "https://example.com/a"]
  /\ bool_decide ("https://example.com/c" ∈ links (results final.2)) = false
  /\ visited_pages (results final.2) = 1
  /\ size (visited_urls final.2) = 3.
Proof. cbv zeta. repeat split; vm_compute; reflexivity. Qed.

(** ** The theorems at the small site *)

Lemma enqueues_elem (u : string) (l : list Event) :
  enqueues u l = true -> Enqueue u ∈ l.
Proof.
  unfold enqueues. intros (e & Hin & He)%existsb_exists.
  destruct e; try done. apply String.eqb_eq in He as ->. by apply list_elem_of_In.
Qed.

Lemma C1_witness :
  (0 <= max_pages (options demo_cfg))%Z
  /\ (Z.of_nat (size (f_visited (replay (log (run demo_world demo_cfg (init ∅)).2))))
      <= max_pages (options demo_cfg))%Z.
Proof.
  assert (0 <= max_pages (options demo_cfg))%Z as H by (vm_compute; discriminate).
  split; [exact H|].
  destruct (C1_visited_bounded demo_world demo_cfg ∅ H) as (_ & _ & _ & Hp & _).
  by apply Hp.
Defined.

Lemma C2_witness :
  log (run demo_world demo_cfg (init ∅)).2
    `prefix_of` log (run demo_world demo_cfg (init ∅)).2
  /\ NoDup (f_queue (replay (log (run demo_world demo_cfg (init ∅)).2))).
Proof.
  assert (log (run demo_world demo_cfg (init ∅)).2
    `prefix_of` log (run demo_world demo_cfg (init ∅)).2) as H by done.
  split; [exact H|].
  destruct (C2_queue_disjoint demo_world demo_cfg ∅) as (_ & _ & Hp & _).
  by destruct (Hp _ H).
Defined.

Lemma C3_witness :
  exists s',
    crawl_loop demo_world demo_cfg 1 (queued "https://example.com/missing")
    = crawl_loop demo_world demo_cfg 0 s'
    /\ errors (results s')
       = ["Error accessing https://example.com/missing: timed out"]
    /\ visited_pages (results s') = 0
    /\ queue s' = [].
Proof.
  destruct (C3_three_attempts demo_world demo_cfg) as [_ H].
  destruct (H 0 "https://example.com/missing" [] (queued "https://example.com/missing")
    "timed out" "timed out" "timed out") as (s' & H1 & _ & H3 & H4 & _ & H6);
    [reflexivity | apply not_elem_of_empty | reflexivity | reflexivity
    | vm_compute; reflexivity | reflexivity | reflexivity | reflexivity |].
  exists s'. split; [exact H1|]. split; [exact H3|]. split; [exact H4|exact H6].
Defined.

Lemma C4_witness :
  page_base "https://example.com/" = Ok ("https://example.com", "example.com")
  /\ internal_links (results
       (process_link demo_world demo_cfg "https://example.com" "example.com"
          "  https://blog.example.com/b " (init ∅)).2)
     = {["https://blog.example.com/b"]} ∪ internal_links (results (init ∅)).
Proof.
  assert (page_base "https://example.com/"
          = Ok ("https://example.com", "example.com")) as H by reflexivity.
  split; [exact H|].
  destruct (C4_internal_by_page_host demo_world demo_cfg "https://example.com/"
    "https://example.com" "example.com" "  https://blog.example.com/b "
    "https://blog.example.com/b" (init ∅) H eq_refl eq_refl eq_refl)
    as (_ & Hclass & _).
  destruct (Hclass
    {| Url.scheme := "https"; Url.netloc := "blog.example.com"; Url.path := "/b";
       Url.params := ""; Url.query := ""; Url.fragment := "" |} eq_refl)
    as [Hint _].
  apply Hint. right. by exists "blog".
Defined.

Lemma C5_witness :
  Enqueue "https://blog.example.com/b" ∈ log (run demo_world demo_cfg (init ∅)).2
  /\ ("https://blog.example.com/b" = url demo_cfg
      \/ is_valid_url "https://blog.example.com/b" = true).
Proof.
  assert (Enqueue "https://blog.example.com/b"
          ∈ log (run demo_world demo_cfg (init ∅)).2) as H.
  { apply enqueues_elem. vm_compute. reflexivity. }
  split; [exact H|].
  destruct (C5_valid_links_only demo_world demo_cfg) as (_ & _ & _ & Hq & _).
  by apply (Hq ∅).
Defined.

Lemma C6_witness :
  succeeds_at demo_world (init ∅) "https://example.com/a" 0 pdf_response
  /\ extraction_untouched (results (init ∅))
       (results (scrape_page demo_world demo_cfg "https://example.com/a" (init ∅)).2).
Proof.
  assert (succeeds_at demo_world (init ∅) "https://example.com/a" 0 pdf_response)
    as H by (split; [intros j Hj; lia | reflexivity]).
  split; [exact H|].
  destruct (C6_non_html_skipped demo_world demo_cfg "https://example.com/a" (init ∅))
    as [Hnon _].
  apply (Hnon 0 pdf_response); [apply not_elem_of_empty | reflexivity
    | unfold max_retries; lia | exact H | reflexivity].
Defined.

Lemma C8_witness :
  images_dir demo_cfg ∈ destinations demo_cfg
  /\ (download_file demo_world demo_cfg "https://cdn.example.com/logo.png"
        (images_dir demo_cfg) FtImage (init old_logo)).1
     = Val (Some "downloads/run/images/logo_1.png")
  /\ fs (download_file demo_world demo_cfg "https://cdn.example.com/logo.png"
           (images_dir demo_cfg) FtImage (init old_logo)).2
     !! "downloads/run/images/logo_1.png" = Some (Bytes "PNG")
  /\ fs (download_file demo_world demo_cfg "https://cdn.example.com/logo.png"
           (images_dir demo_cfg) FtImage (init old_logo)).2
     !! "downloads/run/images/logo.png" = Some (Bytes "old")
  /\ (download_file demo_world demo_cfg "https://static.example.com/logo.png"
        (images_dir demo_cfg) FtImage
        (download_file demo_world demo_cfg "https://cdn.example.com/logo.png"
           (images_dir demo_cfg) FtImage (init old_logo)).2).1
     = Val (Some "downloads/run/images/logo_2.png").
Proof.
  assert (images_dir demo_cfg ∈ destinations demo_cfg) as H by left.
  split; [exact H|].
  destruct (C8_download_never_overwrites demo_world demo_cfg
    "https://cdn.example.com/logo.png" (images_dir demo_cfg) FtImage (init old_logo))
    as (_ & _ & _ & _ & Hkeep & Hdone).
  destruct (Hdone H
    {| Url.scheme := "https"; Url.netloc := "cdn.example.com";
       Url.path := "/logo.png"; Url.params := ""; Url.query := "";
       Url.fragment := "" |} "PNG" eq_refl eq_refl eq_refl (fun _ => eq_refl))
    as (n & Hr & Hfree & Hbelow & Hdata); [done|].
  destruct n as [|[|n]].
  - discriminate Hfree.
  - split; [exact Hr|]. split; [exact Hdata|].
    split; [apply (Hkeep H "logo.png"); reflexivity|].
    vm_compute. reflexivity.
  - destruct (Hbelow 1) as [x Hx]; [lia|]. discriminate Hx.
Defined.

Lemma C9_witness :
  running_at stopped_world (reads (queued "https://example.com/")) = false
  /\ exists s',
       crawl_loop stopped_world demo_cfg 1 (queued "https://example.com/") = (Val tt, s')
       /\ results s' = results (queued "https://example.com/")
       /\ visited_urls s' = visited_urls (queued "https://example.com/").
Proof.
  assert (running_at stopped_world (reads (queued "https://example.com/")) = false)
    as H by reflexivity.
  split; [exact H|].
  destruct (C9_cooperative_stop stopped_world demo_cfg) as (_ & _ & Hstop & _).
  destruct (Hstop 0 _ H) as (s' & H1 & H2 & H3 & _).
  exists s'. split; [exact H1|]. split; [exact H2|exact H3].
Defined.

Lemma C10_witness :
  succeeds_at demo_world (init ∅) "https://example.com/a" 0 pdf_response
  /\ total_data_size
       (results (scrape_page demo_world demo_cfg "https://example.com/a" (init ∅)).2)
     = total_data_size (results (init ∅)) + String.length (content pdf_response).
Proof.
  assert (succeeds_at demo_world (init ∅) "https://example.com/a" 0 pdf_response)
    as H by (split; [intros j Hj; lia | reflexivity]).
  split; [exact H|].
  apply (C10_bytes_counted demo_world demo_cfg "https://example.com/a" (init ∅)
    0 pdf_response); [apply not_elem_of_empty | reflexivity
    | unfold max_retries; lia | exact H].
Defined.

(** ** Where the specification and the code part *)

(** On the page of [blog.example.com] the link to [https://example.com/a]
    is external, although its host is the host of the seed. *)
Lemma C4_counterexample : ~ classified_by_seed_host demo_world demo_cfg.
Proof.
  intros H.
  destruct (H "https://example.com" "example.com" "https://example.com/a"
    {| Url.scheme := "https"; Url.netloc := "example.com"; Url.path := "/a";
       Url.params := ""; Url.query := ""; Url.fragment := "" |})
    as [_ [Hext _]]; [reflexivity| |reflexivity|].
  - eapply bool_decide_unpack. vm_compute. exact I.
  - apply Hext; [eapply bool_decide_unpack; vm_compute; exact I | by left].
Qed.

(** The seed page arrives through a redirect that was followed, and it is
    counted; so is a [301] with an HTML body that arrives as it is. *)
Lemma C6_counterexample :
  ~ redirects_not_counted redirect_world demo_cfg
  /\ http_get redirect_world 0 "https://example.com/old" = Responded moved_page
  /\ redirected moved_page = true
  /\ visited_pages (results
       (scrape_page redirect_world demo_cfg "https://example.com/old" (init ∅)).2)
     = 1.
Proof.
  split; [|by vm_compute].
  intros H.
  specialize (H "https://example.com/" (init ∅) 0 followed_page).
  assert (visited_pages (results
            (scrape_page redirect_world demo_cfg "https://example.com/" (init ∅)).2)
          = visited_pages (results (init ∅))) as Hv.
  { apply H; [apply not_elem_of_empty | reflexivity | unfold max_retries; lia
             | split; [intros j Hj; lia | reflexivity] | reflexivity]. }
  vm_compute in Hv. discriminate Hv.
Qed.

(** A URL whose path ends in [.pdf] passes when a query follows, and a URL
    whose query ends in [.pdf] is dropped although its path does not; and
    the seed is queued without a test, whatever its scheme. *)
Lemma C5_counterexample :
  ~ dropped_by_scheme_or_path "https://example.com/file.pdf?download=1"
  /\ ~ dropped_by_scheme_or_path "https://example.com/page?file=a.pdf"
  /\ ~ queue_only_http demo_world ftp_cfg.
Proof.
  split; [|split]; intros H.
  - destruct (H {| Url.scheme := "https"; Url.netloc := "example.com";
                   Url.path := "/file.pdf"; Url.params := "";
                   Url.query := "download=1"; Url.fragment := "" |} eq_refl)
      as [_ Hdrop].
    assert (is_valid_url "https://example.com/file.pdf?download=1" = false) as Hv
      by (apply Hdrop; right; reflexivity).
    vm_compute in Hv. discriminate Hv.
  - destruct (H {| Url.scheme := "https"; Url.netloc := "example.com";
                   Url.path := "/page"; Url.params := "";
                   Url.query := "file=a.pdf"; Url.fragment := "" |} eq_refl)
      as [Hdrop _].
    destruct (Hdrop eq_refl) as [[_ Hs]|He]; [by apply Hs|].
    vm_compute in He. discriminate He.
  - destruct (H "ftp://example.com/pub"
      {| Url.scheme := "ftp"; Url.netloc := "example.com"; Url.path := "/pub";
         Url.params := ""; Url.query := ""; Url.fragment := "" |})
      as [Hs|Hs]; [|reflexivity|discriminate Hs..].
    apply enqueues_elem. vm_compute. reflexivity.
Qed.

(** * Further properties of the code *)

(** ** The order of the queue *)

Lemma good_log_fifo (limit : Z) (l : list Event) :
  good_log limit l -> enqueued l = dequeued l ++ f_queue (replay l).
Proof.
  induction 1 as [|l e Hl IH He]; [done|].
  unfold enqueued, dequeued in *. rewrite !omap_app, replay_snoc.
  destruct e; simpl in *; rewrite ?app_nil_r; try done.
  - by rewrite IH, app_assoc.
  - destruct He as [[q Hq] _]. rewrite IH, Hq. simpl.
    by rewrite <- app_assoc.
Qed.

(** **X1.** The queue is first in, first out: at every point of a run the
    URLs enqueued so far are the URLs dequeued so far, in the same order,
    followed by the queue. *)
Theorem run_is_fifo (w : World) (cfg : Config) (fs0 : gmap string FileData)
    (p : list Event) :
  p `prefix_of` log (run w cfg (init fs0)).2 ->
  enqueued p = dequeued p ++ f_queue (replay p).
Proof.
  intros Hp. apply good_log_fifo with (limit := max_pages (options cfg)).
  eapply good_log_prefix; [|exact Hp]. apply (on_track_run w cfg fs0).
Qed.

Lemma run_is_fifo_witness :
  log (run demo_world demo_cfg (init ∅)).2
    `prefix_of` log (run demo_world demo_cfg (init ∅)).2
  /\ enqueued (log (run demo_world demo_cfg (init ∅)).2)
     = dequeued (log (run demo_world demo_cfg (init ∅)).2)
       ++ f_queue (replay (log (run demo_world demo_cfg (init ∅)).2)).
Proof.
  assert (log (run demo_world demo_cfg (init ∅)).2
    `prefix_of` log (run demo_world demo_cfg (init ∅)).2) as H by done.
  split; [exact H|]. exact (run_is_fifo demo_world demo_cfg ∅ _ H).
Defined.

(** ** The signals at the end of a run *)

Ltac unsignalled_leaf :=
  let H := fresh "H" in
  let e := fresh "e" in
  let He := fresh "He" in
  apply keeps_modify; intros ? H e He; simpl in He;
  first
    [ by apply H
    | apply elem_of_app in He as [He|He%list_elem_of_singleton];
        [by apply H | by subst e] ].

Section Signals.
Context (w : World) (cfg : Config).

Lemma unsignalled_scrape_page (u : string) : keeps unsignalled (scrape_page w cfg u).
Proof.
  unfold scrape_page, read_running, mark_visited, page_body.
  repeat keeps_step.
  all: try (unfold emit; unsignalled_leaf).
  - apply keeps_fetch_attempts; intros; unfold_prims; repeat keeps_step;
      unsignalled_leaf.
  - unfold_page. unfold_prims. repeat keeps_step; unsignalled_leaf.
Qed.

Lemma unsignalled_crawl_loop (fuel : nat) : keeps unsignalled (crawl_loop w cfg fuel).
Proof.
  induction fuel as [|fuel IH]; [by intros s Hs|].
  simpl. unfold loop_test, loop_body, dequeue, read_running, upd_res, emit.
  repeat keeps_step;
    first [apply unsignalled_scrape_page | exact IH | unsignalled_leaf].
Qed.

Lemma run_unfold (fs0 : gmap string FileData) :
  exists s1, unsignalled s1
    /\ crawl_loop w cfg (run_fuel cfg) (enqueue (url cfg) (init fs0)).2 = (Val tt, s1)
    /\ run w cfg (init fs0)
       = (Val tt,
          upd_log (fun l => l ++ ReadRunning (running_at w (reads s1))
                              :: closing_events (running_at w (reads s1)) (results s1))
            (upd_reads S s1)).
Proof.
  set (s0 := (enqueue (url cfg) (init fs0)).2).
  assert ((crawl_loop w cfg (run_fuel cfg) s0).1 = Val tt) as Hloop.
  { apply crawl_loop_total.
    - apply on_track_enqueue; [apply on_track_init|set_solver|apply not_elem_of_nil].
    - unfold turns_left, run_fuel.
      change (visited_urls s0) with (∅ : gset string). rewrite size_empty.
      match goal with |- context [if ?b then 1 else 0] => destruct b end; lia. }
  assert (unsignalled (crawl_loop w cfg (run_fuel cfg) s0).2) as Hun.
  { apply keeps_state; [apply unsignalled_crawl_loop|].
    intros e He. simpl in He. apply list_elem_of_singleton in He. by subst e. }
  exists (crawl_loop w cfg (run_fuel cfg) s0).2. split; [done|].
  unfold run, try_finally, try_except. unfold bind at 1.
  change (enqueue (url cfg) (init fs0)) with (Val tt, s0).
  unfold bind at 1.
  destruct (crawl_loop w cfg (run_fuel cfg) s0) as [[[]|e|] s1]; try done.
  split; [done|].
  unfold bind at 1, read_running, bind at 1, get, bind, modify, emit, ret. simpl.
  destruct (running_at w (reads s1)); simpl; unfold upd_log; simpl;
    by rewrite <- !app_assoc.
Qed.

End Signals.

(** **X2.** [run] always returns.  Its events end with the last read of
    [self.running] and what follows it: after a read that saw [True], the
    result signal with the results as they are at the end, the status
    [Scraping completed] and [finished] once; after a read that saw
    [False], the status [Scraping stopped by user] and [finished] twice, and
    no result.  Before that read neither signal is emitted. *)
Theorem run_closing_signals (w : World) (cfg : Config) (fs0 : gmap string FileData) :
  (run w cfg (init fs0)).1 = Val tt
  /\ exists l b,
       log (run w cfg (init fs0)).2
       = l ++ ReadRunning b :: closing_events b (results (run w cfg (init fs0)).2)
       /\ forall e, e ∈ l -> is_finished e = false /\ is_result e = false.
Proof.
  destruct (run_unfold w cfg fs0) as (s1 & Hun & _ & Hrun). rewrite Hrun.
  split; [done|]. exists (log s1), (running_at w (reads s1)). split; [done|].
  exact Hun.
Qed.

(** ** The number of requests of a run *)

Lemma gets_snoc_other (l : list Event) (e : Event) :
  is_get e = false -> gets (l ++ [e]) = gets l.
Proof.
  intros He. rewrite gets_app. unfold gets at 2. simpl.
  rewrite filter_cons_False by (by rewrite He). simpl. lia.
Qed.

Ltac requests_leaf :=
  let H := fresh "H" in
  apply keeps_modify; intros ? H; red; simpl;
  rewrite ?gets_snoc_other by done; exact H.

Section Requests.
Context (w : World) (cfg : Config).

Lemma three_per_page_scrape_page (u : string) :
  keeps three_per_page (scrape_page w cfg u).
Proof.
  assert (forall s, three_per_page s -> three_per_page (scrape_page w cfg u s).2) as H.
  2:{ intros s Hs. specialize (H s Hs).
      by destruct (scrape_page w cfg u s) as [[[]|e|] s']. }
  intros s Hs. unfold three_per_page in *.
  destruct (decide (u ∈ visited_urls s)) as [Hin|Hnot].
  { by rewrite scrape_page_visited. }
  destruct (running_at w (reads s)) eqn:Hrun.
  - destruct (page_gets w cfg u s) as (l & Hl & Hn). rewrite Hl, gets_app.
    rewrite scrape_page_start by done.
    pose proof (keeps_state _ _ (page_started u s)
      (visited_page w cfg u (visited_urls (page_started u s))) eq_refl) as Hv.
    rewrite Hv. simpl.
    rewrite size_union by (by apply disjoint_singleton_l).
    rewrite size_singleton. unfold max_retries in Hn.
    lia.
  - rewrite scrape_page_stopped by done. simpl.
    by rewrite gets_snoc_other.
Qed.

Lemma three_per_page_crawl_loop (fuel : nat) :
  keeps three_per_page (crawl_loop w cfg fuel).
Proof.
  induction fuel as [|fuel IH]; [by intros s Hs|].
  simpl. unfold loop_test, loop_body, dequeue, read_running, upd_res, emit.
  repeat keeps_step;
    first [apply three_per_page_scrape_page | exact IH | requests_leaf].
Qed.

Lemma three_per_page_run (fs0 : gmap string FileData) :
  three_per_page (run w cfg (init fs0)).2.
Proof.
  apply keeps_state.
  - unfold run, enqueue, read_running, emit.
    repeat keeps_step; first [apply three_per_page_crawl_loop | requests_leaf].
  - unfold three_per_page. simpl. unfold gets. simpl. lia.
Qed.

End Requests.

(** ** What is requested *)

Lemma good_log_visited (limit : Z) (l : list Event) :
  good_log limit l ->
  (forall u, f_next (replay l) = Some u -> u ∈ dequeued l)
  /\ (forall u, u ∈ f_visited (replay l) -> u ∈ dequeued l).
Proof.
  induction 1 as [|l e Hl [IHn IHv] He]; [split; [done|set_solver]|].
  unfold dequeued in *. rewrite omap_app, replay_snoc.
  split; intros u; rewrite elem_of_app; destruct e; simpl in *; auto.
  - intros [= ->]. right. by left.
  - rewrite elem_of_union, elem_of_singleton. intros [->|Hu]; [|by auto].
    left. apply IHn. by destruct He.
Qed.

Lemma dequeued_enqueued (limit : Z) (l : list Event) (u : string) :
  good_log limit l -> u ∈ dequeued l -> u ∈ enqueued l.
Proof.
  intros Hl Hu. rewrite (good_log_fifo _ _ Hl). apply elem_of_app. by left.
Qed.

Ltac fetches_leaf :=
  let H := fresh "H" in
  let Hu := fresh "Hu" in
  let x := fresh "x" in
  let Hx := fresh "Hx" in
  apply keeps_modify; intros ? [H Hu]; split; [|exact Hu];
  intros x Hx; simpl in Hx;
  first
    [ by apply H
    | apply elem_of_app in Hx as [Hx|Hx%list_elem_of_singleton];
        [ by apply H
        | first [discriminate Hx | injection Hx as ->; exact Hu] ] ].

Section Fetches.
Context (w : World) (cfg : Config).

Lemma fetches_visited_page (u : string) :
  keeps (fun s => fetches_visited s /\ u ∈ visited_urls s)
    (try_except (page_body w cfg u)
       (fun msg => emit (SigError ("Error scraping " +:+ u +:+ ": " +:+ msg)))).
Proof.
  apply keeps_try; [|intros e; unfold emit; fetches_leaf].
  unfold page_body. apply keeps_bind.
  - apply keeps_fetch_attempts; intros; unfold_prims; repeat keeps_step;
      fetches_leaf.
  - intros [r|]; [|apply keeps_ret]. unfold_page. unfold_prims.
    repeat keeps_step; fetches_leaf.
Qed.

Lemma fetches_visited_scrape_page (u : string) :
  keeps fetches_visited (scrape_page w cfg u).
Proof.
  assert (forall s, fetches_visited s -> fetches_visited (scrape_page w cfg u s).2) as H.
  2:{ intros s Hs. specialize (H s Hs).
      by destruct (scrape_page w cfg u s) as [[[]|e|] s']. }
  intros s Hs. destruct (decide (u ∈ visited_urls s)) as [Hin|Hnot].
  { by rewrite scrape_page_visited. }
  destruct (running_at w (reads s)) eqn:Hrun.
  - rewrite scrape_page_start by done.
    apply (keeps_state _ _ _ (fetches_visited_page u)). split.
    + intros x Hx. simpl in Hx. rewrite <- !app_assoc in Hx.
      apply elem_of_app in Hx as [Hx|Hx].
      * simpl. apply elem_of_union. right. by apply Hs.
      * simpl in Hx. rewrite !elem_of_cons in Hx.
        destruct Hx as [Hx|[Hx|[Hx|Hx]]]; try discriminate Hx.
        by apply elem_of_nil in Hx.
    + simpl. apply elem_of_union. left. by apply elem_of_singleton.
  - rewrite scrape_page_stopped by done. intros x Hx. simpl in Hx.
    apply elem_of_app in Hx as [Hx|Hx%list_elem_of_singleton]; [|discriminate Hx].
    simpl. by apply Hs.
Qed.

End Fetches.

(** ** [scrape_page] does not raise *)

Lemma scrape_page_no_exn (w : World) (cfg : Config) (u : string) (s : Worker) :
  (scrape_page w cfg u s).1 = Val tt.
Proof.
  destruct (decide (u ∈ visited_urls s)) as [Hin|Hnot].
  { by rewrite scrape_page_visited. }
  destruct (running_at w (reads s)) eqn:Hrun.
  - pose proof (total_scrape_page w cfg u s I) as Htot.
    rewrite scrape_page_start in * by done. revert Htot. unfold try_except.
    by destruct (page_body w cfg u (page_started u s)) as [[[]|e|] s1].
  - by rewrite scrape_page_stopped.
Qed.

(** ** Invariants of the loop

    An invariant [I] of the worker is kept by [run] when the bookkeeping of
    the loop keeps it, when popping [u] leads to a state [J u] and when
    [scrape_page u] leads from [J u] back to [I].  Nothing is asked of the
    handler of the loop: [scrape_page] does not raise. *)

Section RunInvariant.
Context (w : World) (cfg : Config).
Context (I : Worker -> Prop) (J : string -> Worker -> Prop).
Hypothesis Hevent : forall s e,
  is_neutral e = true -> I s -> I (upd_log (fun l => l ++ [e]) s).
Hypothesis Hreads : forall s, I s -> I (upd_reads S s).
Hypothesis Hpop : forall s u q,
  I s -> queue s = u :: q ->
  J u (upd_log (fun l => l ++ [Dequeue u]) (upd_queue (fun _ => q) s)).
Hypothesis Hpage : forall u s, J u s -> I (scrape_page w cfg u s).2.

Lemma read_running_invariant : keeps I (read_running w).
Proof.
  intros s Hs. unfold read_running, bind, get, modify, emit, ret. simpl.
  apply Hevent; [done|]. by apply Hreads.
Qed.

Lemma loop_body_invariant (s : Worker) :
  I s -> queue s <> [] ->
  match loop_body w cfg s with
  | (_, s') => I s'
  end.
Proof.
  intros Hs Hq. destruct (queue s) as [|u rest] eqn:Hqs; [done|].
  rewrite (loop_body_pop w cfg u rest) by done.
  pose proof (Hpage u _ (Hpop s u rest Hs Hqs)) as Hp.
  pose proof (scrape_page_no_exn w cfg u
    (upd_log (fun l => l ++ [Dequeue u]) (upd_queue (fun _ => rest) s))) as Hv.
  unfold try_except.
  by destruct (scrape_page w cfg u _) as [[[]|e|] s1].
Qed.

Lemma crawl_loop_invariant (fuel : nat) : keeps I (crawl_loop w cfg fuel).
Proof.
  induction fuel as [|fuel IH]; [by intros s Hs|].
  intros s Hs. simpl. unfold bind at 1, loop_test, bind at 1, get.
  destruct (queue s) as [|u rest] eqn:Hq; [done|].
  pose proof (read_running_invariant s Hs) as Hr.
  unfold bind at 1.
  destruct (read_running w s) as [[b| |] s1] eqn:Hread; try done.
  assert (queue s1 = queue s) as Hq1.
  { revert Hread. unfold read_running, bind, get, modify, emit, ret. simpl.
    by intros [= _ <-]. }
  destruct b; simpl; [|done]. unfold bind at 1, get.
  destruct (_ <? _)%Z; simpl; [|done].
  pose proof (loop_body_invariant s1 Hr) as Hb.
  rewrite Hq1, Hq in Hb. specialize (Hb ltac:(done)).
  unfold bind. destruct (loop_body w cfg s1) as [[[]|e|] s2]; try done.
  by apply IH.
Qed.

Lemma run_invariant (fs0 : gmap string FileData) :
  I (enqueue (url cfg) (init fs0)).2 -> I (run w cfg (init fs0)).2.
Proof.
  intros H0.
  assert (forall e, is_neutral e = true -> keeps I (emit e)) as Hemit.
  { intros e He. apply keeps_modify. intros s Hs. by apply Hevent. }
  assert (keeps I (crawl_loop w cfg (run_fuel cfg) ;;
    running ← read_running w;
    if negb running
    then emit (SigStatus "Scraping stopped by user") ;; emit SigFinished
    else s1 ← get; emit (SigResult (results s1)) ;;
         emit (SigStatus "Scraping completed"))) as Hrest.
  { apply keeps_bind; [apply crawl_loop_invariant|]. intros _.
    apply keeps_bind; [apply read_running_invariant|]. intros b.
    repeat keeps_step; by apply Hemit. }
  specialize (Hrest _ H0).
  unfold run, try_finally, try_except. unfold bind at 1.
  change (enqueue (url cfg) (init fs0))
    with (Val tt, (enqueue (url cfg) (init fs0)).2).
  cbv iota beta.
  destruct (bind _ _ _) as [[[]|e|] s1]; simpl; try done.
  - by apply Hevent.
  - apply Hevent; [done|]. by apply Hevent.
Qed.

End RunInvariant.

(** *** Requests for one URL *)

Lemma gets_of_app (u : string) (l1 l2 : list Event) :
  gets_of u (l1 ++ l2) = gets_of u l1 + gets_of u l2.
Proof. unfold gets_of. by rewrite filter_app, length_app. Qed.

Lemma gets_of_le (u : string) (l : list Event) : gets_of u l <= gets l.
Proof.
  unfold gets_of, gets. induction l as [|e l IH]; [done|].
  destruct (is_get_of u e) eqn:Hu.
  - rewrite !filter_cons_True by (done || by destruct e). simpl. lia.
  - rewrite (filter_cons_False (fun e => is_get_of u e = true))
      by (by rewrite Hu).
    destruct (is_get e) eqn:Hg.
    + rewrite filter_cons_True by done. simpl. lia.
    + by rewrite filter_cons_False by (by rewrite Hg).
Qed.

Lemma gets_of_none (u : string) (l : list Event) :
  (forall v, HttpGet v ∈ l -> v <> u) -> gets_of u l = 0.
Proof.
  unfold gets_of. induction l as [|e l IH]; intros H; [done|].
  rewrite filter_cons_False.
  - apply IH. intros v Hv. apply H. by right.
  - destruct e; try done. simpl. intros He%String.eqb_eq. subst.
    by apply (H u); [left|].
Qed.

Ltac only_leaf :=
  let l := fresh "l" in
  let Hl := fresh "Hl" in
  let H := fresh "H" in
  let x := fresh "x" in
  let Hx := fresh "Hx" in
  apply keeps_modify; intros ? (l & Hl & H); unfold only_gets; simpl;
  first
    [ by exists l
    | eexists (l ++ [_]); split; [by rewrite Hl, <- app_assoc|];
      intros x [Hx|Hx%list_elem_of_singleton]%elem_of_app;
        [by apply H | first [discriminate Hx | by injection Hx as ->]] ].

Section PerUrl.
Context (w : World) (cfg : Config).

Lemma only_gets_scrape_page (l0 : list Event) (u : string) :
  keeps (only_gets l0 u) (scrape_page w cfg u).
Proof.
  unfold scrape_page, read_running, mark_visited, page_body.
  repeat keeps_step.
  all: try (unfold emit; only_leaf).
  - apply keeps_fetch_attempts; intros; unfold_prims; repeat keeps_step; only_leaf.
  - unfold_page. unfold_prims. repeat keeps_step; only_leaf.
Qed.

Lemma thrice_each_scrape_page (u : string) (s : Worker) :
  thrice_each s -> thrice_each (scrape_page w cfg u s).2.
Proof.
  intros Hs. destruct (decide (u ∈ visited_urls s)) as [Hin|Hnot].
  { by rewrite scrape_page_visited. }
  destruct (page_gets w cfg u s) as (l & Hl & Hn).
  assert (only_gets (log s) u s) as Hstart.
  { exists []. split; [by rewrite app_nil_r|]. by intros v ?%elem_of_nil. }
  destruct (keeps_state _ _ s (only_gets_scrape_page (log s) u) Hstart)
    as (l' & Hl' & Honly).
  rewrite Hl in Hl'. apply app_inv_head in Hl'. subst l'.
  assert (visited_urls s ⊆ visited_urls (scrape_page w cfg u s).2) as Hsub.
  { destruct (running_at w (reads s)) eqn:Hrun.
    - rewrite scrape_page_start by done.
      rewrite (keeps_state _ _ (page_started u s)
        (visited_page w cfg u (visited_urls (page_started u s))) eq_refl).
      simpl. intros x Hx. apply elem_of_union. by right.
    - by rewrite scrape_page_stopped. }
  intros v. destruct (Hs v) as [H3 H0]. rewrite Hl, gets_of_app.
  destruct (decide (v = u)) as [->|Hne].
  - rewrite (H0 Hnot). pose proof (gets_of_le u l). unfold max_retries in Hn.
    split; [lia|]. intros Hv. destruct (running_at w (reads s)) eqn:Hrun.
    + exfalso. apply Hv. rewrite scrape_page_start by done.
      rewrite (keeps_state _ _ (page_started u s)
        (visited_page w cfg u (visited_urls (page_started u s))) eq_refl).
      simpl. apply elem_of_union. left. by apply elem_of_singleton.
    + revert Hl. rewrite scrape_page_stopped by done. simpl.
      intros Hl%app_inv_head. by subst l.
  - rewrite (gets_of_none v l).
    + rewrite Nat.add_0_r. split; [done|]. intros Hv. apply H0.
      intros Hin. by apply Hv, Hsub.
    + intros x Hx ->. by apply Honly in Hx.
Qed.

Lemma thrice_each_run (fs0 : gmap string FileData) :
  thrice_each (run w cfg (init fs0)).2.
Proof.
  assert (forall s e, is_get e = false -> thrice_each s ->
    thrice_each (upd_log (fun l => l ++ [e]) s)) as Hother.
  { intros s e He Hs v. simpl. rewrite gets_of_app.
    assert (gets_of v [e] = 0) as -> by (by destruct e).
    rewrite Nat.add_0_r. apply Hs. }
  apply (run_invariant w cfg thrice_each (fun _ => thrice_each)).
  - intros s e He. apply Hother. by destruct e.
  - done.
  - intros s u q Hs _. by apply (Hother (upd_queue _ s)).
  - apply thrice_each_scrape_page.
  - intros v. rewrite gets_of_none; [split; [lia|done]|].
    intros x Hx. simpl in Hx. apply list_elem_of_singleton in Hx. discriminate Hx.
Qed.

End PerUrl.

(** **X3.** In a run no URL is requested more than three times, a URL
    that is not visited is not requested at all, and the requests are at
    most three for each visited URL, so at most [3 * max_pages] in all
    (none when [max_pages] is not positive). *)
Theorem run_request_bound (w : World) (cfg : Config) (fs0 : gmap string FileData) :
  (forall u, gets_of u (log (run w cfg (init fs0)).2) <= 3)
  /\ (forall u, u ∉ visited_urls (run w cfg (init fs0)).2 ->
        gets_of u (log (run w cfg (init fs0)).2) = 0)
  /\ gets (log (run w cfg (init fs0)).2)
     <= 3 * size (visited_urls (run w cfg (init fs0)).2)
  /\ gets (log (run w cfg (init fs0)).2) <= 3 * Z.to_nat (max_pages (options cfg)).
Proof.
  pose proof (three_per_page_run w cfg fs0) as H.
  pose proof (thrice_each_run w cfg fs0) as Heach.
  pose proof (on_track_run w cfg fs0) as Ht.
  destruct Ht as [Hg [Hv _]].
  destruct (good_log_wf _ _ Hg) as (_ & _ & Hsize). rewrite Hv in Hsize.
  split; [intros u; apply Heach|]. split; [intros u; apply Heach|].
  split; [exact H|]. unfold three_per_page in H. lia.
Qed.

(** ** A run without crawling *)

Lemma enqueued_snoc_other (l : list Event) (e : Event) :
  is_frontier e = false -> enqueued (l ++ [e]) = enqueued l.
Proof.
  intros He. unfold enqueued. rewrite omap_app.
  destruct e; try discriminate He; simpl; by rewrite app_nil_r.
Qed.

Lemma enqueued_snoc_dequeue (l : list Event) (u : string) :
  enqueued (l ++ [Dequeue u]) = enqueued l.
Proof. unfold enqueued. rewrite omap_app. simpl. by rewrite app_nil_r. Qed.

Lemma enqueued_snoc_visit (l : list Event) (u : string) :
  enqueued (l ++ [Visit u]) = enqueued l.
Proof. unfold enqueued. rewrite omap_app. simpl. by rewrite app_nil_r. Qed.

Ltac enqueued_leaf :=
  let H := fresh "H" in
  apply keeps_modify; intros ? H; simpl;
  rewrite ?enqueued_snoc_other, ?enqueued_snoc_visit by done; exact H.

Section NoCrawl.
Context (w : World) (cfg : Config).
Hypothesis Hoff : crawl_pages (options cfg) = false.

Lemma offer_link_off (u : string) (s : Worker) : offer_link cfg u s = (Val tt, s).
Proof. unfold offer_link, bind, get. by rewrite Hoff. Qed.

Lemma keeps_offer_link_off (I : Worker -> Prop) (u : string) :
  keeps I (offer_link cfg u).
Proof. intros s Hs. by rewrite offer_link_off. Qed.

Lemma seed_only_scrape_page (l : list string) (u : string) :
  keeps (fun s => enqueued (log s) = l) (scrape_page w cfg u).
Proof.
  unfold scrape_page, read_running, mark_visited, page_body.
  repeat keeps_step.
  all: try (unfold emit; enqueued_leaf).
  - apply keeps_fetch_attempts; intros; unfold_prims; repeat keeps_step;
      enqueued_leaf.
  - unfold handle_response, save_html, extract_page, process_link, record_meta,
      process_text. unfold_asset. unfold write_file. unfold_prims.
    repeat keeps_step; first [apply keeps_offer_link_off | enqueued_leaf].
Qed.

Lemma seed_only_run (fs0 : gmap string FileData) :
  enqueued (log (run w cfg (init fs0)).2) = [url cfg].
Proof.
  apply (run_invariant w cfg (fun s => enqueued (log s) = [url cfg])
           (fun _ s => enqueued (log s) = [url cfg])).
  - intros s e He Hs. simpl. rewrite enqueued_snoc_other; [done|].
    by destruct e.
  - done.
  - intros s u q Hs _. simpl. by rewrite enqueued_snoc_dequeue.
  - intros u s Hs. by apply keeps_state; [apply seed_only_scrape_page|].
  - done.
Qed.

End NoCrawl.

(** Without the download options, [urlopen] is never called. *)
Lemma opened_snoc (l : list Event) (e : Event) :
  match e with UrlOpen _ => False | _ => True end ->
  opened (l ++ [e]) = opened l.
Proof.
  intros He. unfold opened. rewrite omap_app.
  destruct e; simpl; by rewrite ?app_nil_r.
Qed.

Ltac opened_leaf :=
  let H := fresh "H" in
  apply keeps_modify; intros ? H; simpl;
  rewrite ?opened_snoc by done; exact H.

Section NoDownload.
Context (w : World) (cfg : Config).
Hypothesis Himg : download_images (options cfg) = false.
Hypothesis Hres : download_resources (options cfg) = false.

Lemma process_asset_off (I : Worker -> Prop) (base_url : string)
    (add : string -> Results -> Results) (d : string) (ft : FileType)
    (record : Download -> Results -> Results) (src : string) :
  (forall x, keeps I (upd_res (add x))) ->
  keeps I (process_asset w cfg base_url add false d ft record src).
Proof.
  intros H. unfold process_asset. cbn [when]. repeat keeps_step; apply H.
Qed.

Lemma no_download_scrape_page (u : string) :
  keeps (fun s => opened (log s) = []) (scrape_page w cfg u).
Proof.
  unfold scrape_page, read_running, mark_visited, page_body.
  repeat keeps_step.
  all: try (unfold emit; opened_leaf).
  - apply keeps_fetch_attempts; intros; unfold_prims; repeat keeps_step;
      opened_leaf.
  - unfold handle_response, save_html, extract_page, process_link, offer_link,
      record_meta, process_text, process_image, process_script,
      process_stylesheet.
    rewrite Himg, Hres. unfold write_file. unfold_prims.
    repeat keeps_step;
      first [apply process_asset_off; intros; unfold upd_res; opened_leaf
            | opened_leaf].
Qed.

Lemma no_download_run (fs0 : gmap string FileData) :
  opened (log (run w cfg (init fs0)).2) = [].
Proof.
  apply (run_invariant w cfg (fun s => opened (log s) = [])
           (fun _ s => opened (log s) = [])).
  - intros s e He Hs. simpl. rewrite opened_snoc; [done|]. by destruct e.
  - done.
  - intros s u q Hs _. simpl. by rewrite opened_snoc.
  - intros u s Hs. by apply keeps_state; [apply no_download_scrape_page|].
  - done.
Qed.

End NoDownload.

Lemma fetches_visited_run (w : World) (cfg : Config) (fs0 : gmap string FileData) :
  fetches_visited (run w cfg (init fs0)).2.
Proof.
  apply (run_invariant w cfg fetches_visited (fun _ => fetches_visited)).
  - intros s e He Hs x Hx. simpl in Hx.
    apply elem_of_app in Hx as [Hx|Hx%list_elem_of_singleton]; [by apply Hs|].
    subst e. discriminate He.
  - done.
  - intros s u q Hs _ x Hx. simpl in Hx.
    apply elem_of_app in Hx as [Hx|Hx%list_elem_of_singleton]; [by apply Hs|].
    discriminate Hx.
  - intros u s Hs. by apply keeps_state; [apply fetches_visited_scrape_page|].
  - intros x Hx. simpl in Hx. apply list_elem_of_singleton in Hx. discriminate Hx.
Qed.

(** **X4.** Without [crawl_pages] nothing but the seed is ever queued or
    visited, the page requests ([requests.get]) are all for the seed, and
    there are at most three of them.  The downloads of images, scripts and
    stylesheets ([urlopen]) go to the URLs of those files and are not among
    the page requests; without the two download options there is none. *)
Theorem no_crawl_only_seed (w : World) (cfg : Config) (fs0 : gmap string FileData) :
  crawl_pages (options cfg) = false ->
  enqueued (log (run w cfg (init fs0)).2) = [url cfg]
  /\ visited_urls (run w cfg (init fs0)).2 ⊆ {[url cfg]}
  /\ (forall u, HttpGet u ∈ log (run w cfg (init fs0)).2 -> u = url cfg)
  /\ gets (log (run w cfg (init fs0)).2) <= 3
  /\ (download_images (options cfg) = false ->
      download_resources (options cfg) = false ->
      opened (log (run w cfg (init fs0)).2) = []).
Proof.
  intros Hoff. pose proof (seed_only_run w cfg Hoff fs0) as Henq.
  destruct (on_track_run w cfg fs0) as [Hg [Hv _]].
  assert (visited_urls (run w cfg (init fs0)).2 ⊆ {[url cfg]}) as Hsub.
  { intros u Hu. rewrite <- Hv in Hu.
    apply (good_log_visited _ _ Hg) in Hu.
    apply (dequeued_enqueued _ _ _ Hg) in Hu. rewrite Henq in Hu.
    apply list_elem_of_singleton in Hu. by apply elem_of_singleton. }
  split; [done|]. split; [done|]. split; [|split].
  - intros u Hu. apply (fetches_visited_run w cfg fs0) in Hu.
    apply Hsub in Hu. by apply elem_of_singleton in Hu.
  - pose proof (three_per_page_run w cfg fs0) as H3. unfold three_per_page in H3.
    apply subseteq_size in Hsub. rewrite size_singleton in Hsub. lia.
  - intros Himg Hres. by apply no_download_run.
Qed.

Lemma no_crawl_only_seed_witness :
  crawl_pages (options single_page_cfg) = false
  /\ enqueued (log (run demo_world single_page_cfg (init ∅)).2)
     = ["https://example.com/"]
  /\ gets (log (run demo_world single_page_cfg (init ∅)).2) <= 3
  /\ opened (log (run demo_world single_page_cfg (init ∅)).2) = [].
Proof.
  assert (crawl_pages (options single_page_cfg) = false) as H by reflexivity.
  split; [exact H|].
  destruct (no_crawl_only_seed demo_world single_page_cfg ∅ H)
    as (H1 & _ & _ & H4 & H5).
  split; [exact H1|]. split; [exact H4|]. by apply H5.
Defined.

(** ** Links, classes and the queue *)

Ltac classified_leaf :=
  let H1 := fresh "H" in
  let H2 := fresh "H" in
  let x := fresh "x" in
  let Hx := fresh "Hx" in
  apply keeps_modify; intros ? [H1 H2]; split; simpl;
  [ exact H1
  | first
      [ exact H2
      | intros x [Hx|Hx%list_elem_of_singleton]%elem_of_app;
          [by apply H2 | discriminate Hx] ] ].

Section Classified.
Context (w : World) (cfg : Config).

Lemma classified_process_link (base_url base_domain href : string) :
  keeps (classified_within cfg) (process_link w cfg base_url base_domain href).
Proof.
  intros s [H1 H2].
  unfold process_link, offer_link, enqueue, upd_res, emit, when, bind, lift, get,
    modify, ret, raise.
  destruct (skip_href _); [done|].
  destruct (normalize_url w _ base_url) as [full|m]; [|done].
  destruct (is_valid_url full); simpl; [|done].
  destruct (is_internal_link full base_domain) as [[|]|m]; simpl.
  - assert (forall q l, classified_within cfg
      (Build_Worker (upd_internal_links (fun l => {[full]} ∪ l)
         (upd_links (fun l => {[full]} ∪ l) (results s)))
         (visited_urls s) q (manifest s) (fs s) l (reads s) (requests s))
      <-> forall u, Enqueue u ∈ l ->
            u = url cfg \/ u = full \/ u ∈ internal_links (results s)) as Hiff.
    { intros q l. unfold classified_within. simpl. split.
      - intros [_ H] u Hu. specialize (H u Hu).
        rewrite elem_of_union, elem_of_singleton in H. tauto.
      - intros H. split; intros u Hu.
        + specialize (H1 u). revert Hu H1.
          rewrite !elem_of_union, !elem_of_singleton. tauto.
        + specialize (H u Hu). rewrite elem_of_union, elem_of_singleton. tauto. }
    destruct (_ && _); simpl; unfold upd_results, upd_queue, upd_log; simpl;
      apply Hiff; intros u Hu.
    + apply elem_of_app in Hu as [Hu|Hu%list_elem_of_singleton].
      * destruct (H2 u Hu); auto.
      * injection Hu as ->. auto.
    + destruct (H2 u Hu); auto.
  - split; simpl; intros u Hu.
    + specialize (H1 u). revert Hu H1.
      rewrite !elem_of_union, !elem_of_singleton. tauto.
    + by apply H2.
  - split; simpl; intros u Hu.
    + specialize (H1 u). revert Hu H1.
      rewrite !elem_of_union, !elem_of_singleton. tauto.
    + by apply H2.
Qed.

Lemma classified_scrape_page (u : string) :
  keeps (classified_within cfg) (scrape_page w cfg u).
Proof.
  unfold scrape_page, read_running, mark_visited, page_body.
  repeat keeps_step.
  all: try (unfold emit; classified_leaf).
  - apply keeps_fetch_attempts; intros; unfold_prims; repeat keeps_step;
      classified_leaf.
  - unfold handle_response, save_html, extract_page, record_meta, process_text.
    unfold_asset. unfold write_file. unfold_prims.
    repeat keeps_step; first [apply classified_process_link | classified_leaf].
Qed.

Lemma classified_run (fs0 : gmap string FileData) :
  classified_within cfg (run w cfg (init fs0)).2.
Proof.
  apply (run_invariant w cfg (classified_within cfg) (fun _ => classified_within cfg)).
  - intros s e He [H1 H2]. split; simpl; [done|].
    intros x [Hx|Hx%list_elem_of_singleton]%elem_of_app; [by apply H2|].
    subst e. discriminate He.
  - done.
  - intros s u q [H1 H2] _. split; simpl; [done|].
    intros x [Hx|Hx%list_elem_of_singleton]%elem_of_app; [by apply H2|].
    discriminate Hx.
  - intros u s Hs. by apply keeps_state; [apply classified_scrape_page|].
  - split; simpl.
    + intros u Hu. apply elem_of_union in Hu as [Hu|Hu]; by apply elem_of_empty in Hu.
    + intros u Hu%list_elem_of_singleton. injection Hu as ->. by left.
Qed.

End Classified.

(** **X5.** At the end of a run every link that was classified internal or
    external is in [links], and every URL that was put in the queue, and
    so every URL that was visited or requested, is the seed or one of the
    internal links.  Such a URL can be among the external links as well,
    when another page, of another host, links to it: on the site of two
    pages that link to one another, the seed and [https://example.com/a]
    are external links, and both are requested. *)
Theorem run_crawls_internal_links (w : World) (cfg : Config)
    (fs0 : gmap string FileData) :
  internal_links (results (run w cfg (init fs0)).2)
    ∪ external_links (results (run w cfg (init fs0)).2)
    ⊆ links (results (run w cfg (init fs0)).2)
  /\ (forall u,
       Enqueue u ∈ log (run w cfg (init fs0)).2
       \/ u ∈ visited_urls (run w cfg (init fs0)).2
       \/ HttpGet u ∈ log (run w cfg (init fs0)).2 ->
       u = url cfg \/ u ∈ internal_links (results (run w cfg (init fs0)).2))
  /\ {["https://example.com/"; "https://example.com/a"]}
       ⊆ external_links (results (run mutual_world demo_cfg (init ∅)).2)
  /\ gets_of "https://example.com/" (log (run mutual_world demo_cfg (init ∅)).2) = 1
  /\ gets_of "https://example.com/a" (log (run mutual_world demo_cfg (init ∅)).2) = 1.
Proof.
  destruct (classified_run w cfg fs0) as [H1 H2]. split; [exact H1|].
  destruct (on_track_run w cfg fs0) as [Hg [Hv _]].
  assert (forall u, u ∈ visited_urls (run w cfg (init fs0)).2 ->
    Enqueue u ∈ log (run w cfg (init fs0)).2) as Hvis.
  { intros u Hu. rewrite <- Hv in Hu.
    apply (good_log_visited _ _ Hg) in Hu.
    apply (dequeued_enqueued _ _ _ Hg) in Hu.
    unfold enqueued in Hu. apply list_elem_of_omap in Hu as (e & He & Heq).
    destruct e; try discriminate Heq. by injection Heq as ->. }
  split; [|split; [|split]].
  - intros u [Hu|[Hu|Hu]]; apply H2; [done| by apply Hvis |].
    apply Hvis. by apply (fetches_visited_run w cfg fs0).
  - eapply bool_decide_unpack. vm_compute. exact I.
  - vm_compute. reflexivity.
  - vm_compute. reflexivity.
Qed.

(** ** The page counter, the errors and the visited set *)

Ltac prefix_leaf :=
  let H := fresh "H" in
  apply keeps_modify; intros ? H; simpl;
  first [exact H | by apply prefix_app_r].

Section Accounting.
Context (w : World) (cfg : Config).

Lemma log_grows_page (l0 : list Event) (u : string) :
  keeps (fun s => l0 `prefix_of` log s)
    (try_except (page_body w cfg u)
       (fun msg => emit (SigError ("Error scraping " +:+ u +:+ ": " +:+ msg)))).
Proof.
  apply keeps_try; [|intros e; unfold emit; prefix_leaf].
  unfold page_body. apply keeps_bind.
  - apply keeps_fetch_attempts; intros; unfold_prims; repeat keeps_step;
      prefix_leaf.
  - intros [r|]; [|apply keeps_ret]. unfold_page. unfold_prims.
    repeat keeps_step; prefix_leaf.
Qed.

(** A fetch leaves the error list as it is, unless it ends without a
    response: then it has appended the line of the failure and emitted
    the signal. *)
Lemma fetch_attempts_errors (u : string) (left : nat) (s : Worker) :
  0 < left ->
  (errors (results (fetch_attempts w u left s).2) = errors (results s)
   /\ (fetch_attempts w u left s).1 <> Val None)
  \/ (exists msg,
        (fetch_attempts w u left s).1 = Val None
        /\ errors (results (fetch_attempts w u left s).2)
           = errors (results s) ++ [access_error u msg]
        /\ SigNetworkError u msg ∈ log (fetch_attempts w u left s).2).
Proof.
  revert s. induction left as [|left IH]; intros s Hleft; [lia|].
  rewrite fetch_attempts_S. cbv zeta.
  destruct (http_get w (requests s) u) as [m|m|r]; [|by left..].
  destruct left as [|left].
  - right. exists m. simpl. split; [done|]. split; [done|].
    apply elem_of_app. right. by left.
  - apply (IH (upd_log (fun l => l ++ [Sleep])
      (upd_requests S (upd_log (fun l => l ++ [HttpGet u]) s)))). lia.
Qed.

Lemma errors_accounted_scrape_page (u : string) (s : Worker) :
  errors_accounted s -> errors_accounted (scrape_page w cfg u s).2.
Proof.
  intros [Hlines Hsum].
  assert (forall s', visited_urls s ⊆ visited_urls s' -> log s `prefix_of` log s' ->
    forall line, line ∈ errors (results s) ->
    exists v msg, line = access_error v msg /\ v ∈ visited_urls s'
      /\ SigNetworkError v msg ∈ log s') as Hmono.
  { intros s' Hv [k Hk] line Hline.
    destruct (Hlines line Hline) as (v & msg & -> & Hin & Hsig).
    exists v, msg. split; [done|]. split; [by apply Hv|].
    rewrite Hk. apply elem_of_app. by left. }
  destruct (decide (u ∈ visited_urls s)) as [Hin|Hnot].
  { by rewrite scrape_page_visited. }
  destruct (running_at w (reads s)) eqn:Hrun.
  2:{ rewrite scrape_page_stopped by done. split; [|done].
      apply Hmono; simpl; [done|by apply prefix_app_r]. }
  rewrite scrape_page_start by done.
  set (s0 := page_started u s).
  pose proof (keeps_state _ _ s0 (visited_page w cfg u (visited_urls s0)) eq_refl)
    as Hvis.
  assert (log s0 `prefix_of` log s0) as Hlog by reflexivity.
  apply (keeps_state _ _ s0 (log_grows_page (log s0) u)) in Hlog.
  cbv beta in Hvis, Hlog.
  assert (size (visited_urls s0) = S (size (visited_urls s))) as Hsize.
  { simpl. rewrite size_union by (by apply disjoint_singleton_l).
    by rewrite size_singleton. }
  assert (visited_urls s ⊆ visited_urls s0) as Hsub.
  { simpl. intros x Hx. apply elem_of_union. by right. }
  assert (log s `prefix_of` log s0) as Hpre.
  { simpl. rewrite <- !app_assoc. by apply prefix_app_r. }
  destruct (fetch_attempts_origin w u max_retries s0) as [Hvp _].
  pose proof (fetch_attempts_errors u max_retries s0 ltac:(unfold max_retries; lia))
    as Herr.
  revert Hvis Hlog. unfold try_except, page_body, bind.
  destruct (fetch_attempts w u max_retries s0) as [[[r|]|e|] s1] eqn:Hf;
    simpl in Hvp, Herr |- *.
  - destruct Herr as [[He _]|(msg & Hnone & _)]; [|done].
    pose proof (handle_response_counter w cfg u r _ s1 eq_refl) as Hc.
    assert (keeps (fun s' => errors (results s') = errors (results s1))
      (handle_response w cfg u r)) as Hkeep.
    { unfold_page. unfold_prims. frame. }
    specialize (Hkeep s1 eq_refl).
    assert (forall s3, errors (results s3) = errors (results s1) ->
      counted r (visited_pages (results s1)) s3 ->
      visited_urls s3 = visited_urls s0 -> log s0 `prefix_of` log s3 ->
      errors_accounted s3) as Hend.
    { intros s3 He3 Hc3 Hv3 Hl3. split.
      - rewrite He3, He. apply Hmono; [by rewrite Hv3 | by etrans].
      - change (visited_pages (results s0)) with (visited_pages (results s)) in Hvp.
        change (errors (results s0)) with (errors (results s)) in He.
        destruct Hc3 as [Hn|[Hn _]]; rewrite Hn, He3, He, Hv3, Hsize, Hvp; lia. }
    destruct (handle_response w cfg u r s1) as [[[]|e|] s2]; simpl;
      intros Hvis Hlog; by apply Hend.
  - destruct Herr as [[_ Hne]|(msg & _ & He & Hsig)]; [done|].
    intros Hvis Hlog.
    assert (visited_urls s1 = visited_urls s0) as Hv1 by exact Hvis.
    assert (log s0 `prefix_of` log s1) as Hl1 by exact Hlog.
    change (visited_pages (results s0)) with (visited_pages (results s)) in Hvp.
    change (errors (results s0)) with (errors (results s)) in He.
    split; simpl.
    + intros line. rewrite He.
      intros [Hline|Hline%list_elem_of_singleton]%elem_of_app.
      * apply Hmono; [by rewrite Hv1 | by etrans | exact Hline].
      * subst line. exists u, msg. split; [done|]. split; [|done].
        rewrite Hv1. simpl. apply elem_of_union. left. by apply elem_of_singleton.
    + rewrite He, Hv1, Hsize, Hvp, length_app. simpl. lia.
  - destruct Herr as [[He _]|(msg & Hnone & _)]; [|done].
    intros Hvis Hlog.
    set (s2 := upd_log (fun l => l ++ [SigError ("Error scraping " +:+ u +:+ ": " +:+ e)]) s1).
    assert (visited_urls s2 = visited_urls s0) as Hv1 by exact Hvis.
    assert (log s0 `prefix_of` log s2) as Hl1 by exact Hlog.
    change (visited_pages (results s0)) with (visited_pages (results s)) in Hvp.
    change (errors (results s0)) with (errors (results s)) in He.
    change (errors_accounted s2). split.
    + change (errors (results s2)) with (errors (results s1)). rewrite He.
      apply Hmono; [by rewrite Hv1 | by etrans].
    + change (errors (results s2)) with (errors (results s1)).
      change (visited_pages (results s2)) with (visited_pages (results s1)).
      rewrite He, Hv1, Hsize, Hvp. lia.
  - intros Hvis Hlog. exfalso.
    pose proof (total_fetch_attempts w u max_retries s0 I) as Ht.
    by rewrite Hf in Ht.
Qed.

Lemma errors_accounted_run (fs0 : gmap string FileData) :
  errors_accounted (run w cfg (init fs0)).2.
Proof.
  apply (run_invariant w cfg errors_accounted (fun _ => errors_accounted)).
  - intros s e He [Hlines Hsum]. split; [|done]. intros line Hline.
    destruct (Hlines line Hline) as (v & msg & -> & Hin & Hsig).
    exists v, msg. split; [done|]. split; [done|]. simpl.
    apply elem_of_app. by left.
  - done.
  - intros s u q [Hlines Hsum] _. split; [|done]. intros line Hline.
    destruct (Hlines line Hline) as (v & msg & -> & Hin & Hsig).
    exists v, msg. split; [done|]. split; [done|]. simpl.
    apply elem_of_app. by left.
  - intros u s Hs. by apply errors_accounted_scrape_page.
  - split; simpl; [|lia]. intros line Hline. by apply elem_of_nil in Hline.
Qed.

End Accounting.

(** **X6.** At the end of a run every entry of the error list is the line
    [Error accessing u: msg] of a visited URL whose last attempt failed,
    with its network-error signal among the events: the handler of the
    loop in [run] never adds a line.  A visited URL is counted in
    [visited_pages], or has one entry in the errors, or neither, so that
    the counter and the number of errors together are at most the number of
    visited URLs, and at most [max_pages]. *)
Theorem run_errors_accounted (w : World) (cfg : Config) (fs0 : gmap string FileData) :
  (forall line, line ∈ errors (results (run w cfg (init fs0)).2) ->
     exists u msg,
       line = access_error u msg
       /\ u ∈ visited_urls (run w cfg (init fs0)).2
       /\ SigNetworkError u msg ∈ log (run w cfg (init fs0)).2)
  /\ visited_pages (results (run w cfg (init fs0)).2)
     + length (errors (results (run w cfg (init fs0)).2))
     <= size (visited_urls (run w cfg (init fs0)).2)
  /\ visited_pages (results (run w cfg (init fs0)).2)
     + length (errors (results (run w cfg (init fs0)).2))
     <= Z.to_nat (max_pages (options cfg)).
Proof.
  destruct (errors_accounted_run w cfg fs0) as [H1 H2].
  destruct (on_track_run w cfg fs0) as [Hg [Hv _]].
  destruct (good_log_wf _ _ Hg) as (_ & _ & Hsize). rewrite Hv in Hsize.
  split; [exact H1|]. split; [exact H2|lia].
Qed.

(** ** The manifest and the recorded downloads *)

Lemma lists_all_grow (ms : list ManifestEntry) (e : ManifestEntry) (ds : list Download) :
  lists_all ms ds -> lists_all (ms ++ [e]) ds.
Proof.
  intros H d Hd. destruct (H d Hd) as (e' & He' & Hu & Hp).
  exists e'. split; [|done]. apply elem_of_app. by left.
Qed.

Lemma lists_all_record (ms : list ManifestEntry) (ds : list Download) (d : Download) :
  lists_all ms ds -> lists_download ms (dl_url d) (dl_local_path d) ->
  lists_all ms (ds ++ [d]).
Proof.
  intros H Hd d' [Hin|Hin%list_elem_of_singleton]%elem_of_app; [by apply H|].
  by subst d'.
Qed.

Lemma manifest_covers_add (ft : FileType) (e : ManifestEntry) (s : Worker) :
  ft <> FtHtml -> manifest_covers s ->
  manifest_covers (upd_manifest (manifest_add ft e) s)
  /\ lists_download (manifest_list ft (manifest (upd_manifest (manifest_add ft e) s)))
       (me_url e) (me_local_path e).
Proof.
  intros Hft (Hi & Hs & Hc & Hh).
  assert (forall ms, lists_download (ms ++ [e]) (me_url e) (me_local_path e)) as Hnew.
  { intros ms. exists e. split; [|done]. apply elem_of_app. right. by left. }
  destruct ft; [| | |done]; simpl; (split; [|by apply Hnew]);
    unfold manifest_covers; simpl; repeat split;
    first [done | by apply lists_all_grow].
Qed.

Ltac covers_leaf :=
  let H := fresh "H" in
  apply keeps_modify; intros ? H; exact H.

Section Covers.
Context (w : World) (cfg : Config).

Lemma download_file_listed (u d : string) (ft : FileType) :
  ft <> FtHtml ->
  hoare manifest_covers (download_file w cfg u d ft)
    (fun a s => manifest_covers s
       /\ forall p, a = Some p -> lists_download (manifest_list ft (manifest s)) u p)
    manifest_covers manifest_covers.
Proof.
  intros Hft. unfold download_file.
  apply hoare_step;
    [unfold read_running, emit; repeat keeps_step; covers_leaf | done | done |].
  intros running. destruct running; simpl negb; cbv iota.
  2:{ apply hoare_ret. intros s Hs. split; [done|]. intros p Hp. discriminate Hp. }
  apply hoare_try with (E' := manifest_covers).
  2:{ intros msg. eapply hoare_bind with (Q' := fun _ => manifest_covers).
      - unfold emit. covers_leaf.
      - intros _. apply hoare_ret. intros s Hs. split; [done|].
        intros p Hp. discriminate Hp. }
  apply hoare_step; [apply keeps_lift | done | done | intros parsed].
  apply hoare_step; [apply keeps_get | done | done | intros s0].
  cbv zeta.
  apply hoare_step;
    [unfold free_name; repeat keeps_step | done | done | intros filename].
  apply hoare_step;
    [unfold transfer, write_file, emit; repeat keeps_step; covers_leaf
    | done | done | intros _].
  apply hoare_step; [apply keeps_get | done | done | intros s1].
  set (e := {| me_url := u; me_local_path := Url.join d filename;
               me_timestamp := now w (requests s1) |}).
  set (Q := fun s => manifest_covers s
    /\ lists_download (manifest_list ft (manifest s)) u (Url.join d filename)).
  eapply hoare_bind with (Q' := fun _ => Q).
  { intros s Hs. simpl. by apply (manifest_covers_add ft e s). }
  intros _.
  assert (forall m : M unit, keeps Q m ->
    hoare Q (m ;; ret (Some (Url.join d filename)))
      (fun a s => manifest_covers s
         /\ forall p, a = Some p -> lists_download (manifest_list ft (manifest s)) u p)
      manifest_covers manifest_covers) as Hend.
  { intros m Hm. eapply hoare_bind with (Q' := fun _ => Q).
    - eapply hoare_conseq; [exact Hm|..]; try done; by intros ? [? ?].
    - intros _. apply hoare_ret. intros s [Hs Hl]. split; [done|].
      by intros p [= <-]. }
  eapply hoare_bind with (Q' := fun _ => Q);
    [apply hoare_get; by intros s Hs|intros s2].
  apply Hend. unfold write_file. repeat keeps_step; covers_leaf.
Qed.

Lemma covers_process_asset (base_url : string) (add : string -> Results -> Results)
    (download : bool) (directory : string) (ft : FileType)
    (record : Download -> Results -> Results) (src : string) :
  ft <> FtHtml ->
  (forall x s, manifest_covers s -> manifest_covers (upd_results (add x) s)) ->
  (forall d s, manifest_covers s ->
     lists_download (manifest_list ft (manifest s)) (dl_url d) (dl_local_path d) ->
     manifest_covers (upd_results (record d) s)) ->
  keeps manifest_covers
    (process_asset w cfg base_url add download directory ft record src).
Proof.
  intros Hft Hadd Hrec. unfold process_asset.
  destruct (bool_decide _); [apply keeps_ret|].
  apply keeps_bind; [apply keeps_lift|]. intros full.
  apply keeps_bind; [apply keeps_modify; intros s Hs; by apply Hadd|]. intros _.
  apply keeps_when.
  eapply hoare_bind; [by apply download_file_listed|].
  intros [p|]; [|apply hoare_ret; by intros s [Hs _]].
  destruct (bool_decide (p = "")); simpl.
  - apply hoare_ret. by intros s [Hs _].
  - intros s [Hs Hl]. simpl. apply Hrec; [done|]. by apply Hl.
Qed.

Lemma covers_scrape_page (u : string) :
  keeps manifest_covers (scrape_page w cfg u).
Proof.
  unfold scrape_page, read_running, mark_visited, page_body.
  repeat keeps_step.
  all: try (unfold emit; covers_leaf).
  - apply keeps_fetch_attempts; intros; unfold_prims; repeat keeps_step;
      covers_leaf.
  - unfold handle_response, save_html, extract_page, process_link, offer_link,
      record_meta, process_text, process_image, process_script,
      process_stylesheet, write_file.
    unfold_prims.
    repeat keeps_step;
      first
        [ covers_leaf
        | apply covers_process_asset; [done | by intros ?? H | ];
          intros d s (Hi & Hs & Hc & Hh) Hd; unfold manifest_covers; simpl;
          repeat split; first [done | by apply lists_all_record] ].
Qed.

Lemma covers_run (fs0 : gmap string FileData) :
  manifest_covers (run w cfg (init fs0)).2.
Proof.
  apply (run_invariant w cfg manifest_covers (fun _ => manifest_covers)); try done.
  - intros u s Hs. by apply keeps_state; [apply covers_scrape_page|].
  - unfold manifest_covers. simpl. repeat split; try done;
      intros d Hd; by apply elem_of_nil in Hd.
Qed.

End Covers.

(** **X7.** At the end of a run every download recorded in
    [downloaded_images], [downloaded_scripts] or [downloaded_stylesheets]
    has an entry with its URL and local path in the list of the manifest
    for its kind, and the list [html] of the manifest is empty: the pages
    saved by the [download_html] option are recorded in [downloaded_html]
    only. *)
Theorem run_manifest_covers (w : World) (cfg : Config) (fs0 : gmap string FileData) :
  (forall d, d ∈ downloaded_images (results (run w cfg (init fs0)).2) ->
     lists_download (m_images (manifest (run w cfg (init fs0)).2))
       (dl_url d) (dl_local_path d))
  /\ (forall d, d ∈ downloaded_scripts (results (run w cfg (init fs0)).2) ->
        lists_download (m_scripts (manifest (run w cfg (init fs0)).2))
          (dl_url d) (dl_local_path d))
  /\ (forall d, d ∈ downloaded_stylesheets (results (run w cfg (init fs0)).2) ->
        lists_download (m_styles (manifest (run w cfg (init fs0)).2))
          (dl_url d) (dl_local_path d))
  /\ m_html (manifest (run w cfg (init fs0)).2) = [].
Proof. exact (covers_run w cfg fs0). Qed.

(** ** Saved pages *)

Lemma contains_after_last (c : ascii) (s : string) :
  Py.contains c (Py.after_last c s) = false.
Proof.
  induction s as [|a s IH]; [done|]. simpl.
  destruct (Ascii.eqb a c) eqn:Ha; simpl; [done|].
  destruct (Py.contains c s) eqn:Hc; [done|]. simpl. by rewrite Ha.
Qed.

Lemma contains_replace_char (a b : ascii) (s : string) :
  a <> b -> Py.contains a (Py.replace_char a b s) = false.
Proof.
  intros Hab. unfold Py.replace_char. induction s as [|c s IH]; [done|]. simpl.
  rewrite IH. destruct (Ascii.eqb_spec c a) as [->|Hc].
  - destruct (Ascii.eqb_spec b a); congruence.
  - destruct (Ascii.eqb_spec c a); congruence.
Qed.

Lemma html_page_name_flat (u : string) :
  Py.contains "/" (html_page_name u) = false /\ html_page_name u <> "".
Proof.
  unfold html_page_name. cbv zeta.
  destruct (bool_decide (Py.after_last "/" u = "")) eqn:He; simpl.
  - split; [|by apply app_not_empty].
    rewrite contains_app, contains_replace_char by done. done.
  - apply bool_decide_eq_false in He.
    destruct (Py.contains "." (Py.after_last "/" u)); simpl.
    + split; [apply contains_after_last|done].
    + split; [|by apply app_not_empty].
      rewrite contains_app, contains_replace_char by done. done.
Qed.

Lemma save_html_writes (w : World) (cfg : Config) (u : string) (r : Response)
    (s : Worker) :
  fs s !! Url.join (html_dir cfg) (html_page_name u) <> Some Directory ->
  open_error w (Url.join (html_dir cfg) (html_page_name u)) = None ->
  save_html w cfg u r s
  = (Val tt,
     upd_results (upd_downloaded_html (fun l =>
         l ++ [{| dl_url := u;
                  dl_local_path := Url.join (html_dir cfg) (html_page_name u) |}]))
       (upd_fs (fun m =>
          <[Url.join (html_dir cfg) (html_page_name u) := Bytes (content r)]> m) s)).
Proof.
  intros Hdir Hopen. unfold save_html. cbv zeta.
  change (if bool_decide (Py.after_last "/" u = "")
             || negb (Py.contains "." (Py.after_last "/" u))
          then Py.replace_char "/" "_" (Py.after_last_dslash u u) +:+ ".html"
          else Py.after_last "/" u) with (html_page_name u).
  unfold write_file, upd_res, bind, get, modify. rewrite Hopen.
  destruct (fs s !! _) as [[| |]|]; done.
Qed.

(** **X8.** The file of a saved page is a direct child of the [html]
    directory: its name is not empty and has no slash.  Unlike
    [download_file], [save_html] does not look for a free name: when two
    pages have the same file name, both are recorded in [downloaded_html]
    with the same local path, and the file holds the content of the second
    one only. *)
Theorem save_html_overwrites (w : World) (cfg : Config) (u1 u2 : string)
    (r1 r2 : Response) (s : Worker) :
  html_page_name u1 = html_page_name u2 ->
  fs s !! Url.join (html_dir cfg) (html_page_name u1) <> Some Directory ->
  open_error w (Url.join (html_dir cfg) (html_page_name u1)) = None ->
  Url.join (html_dir cfg) (html_page_name u1)
    = html_dir cfg +:+ "/" +:+ html_page_name u1
  /\ Py.contains "/" (html_page_name u1) = false
  /\ html_page_name u1 <> ""
  /\ exists s',
       (save_html w cfg u1 r1 ;; save_html w cfg u2 r2) s = (Val tt, s')
       /\ fs s' = <[Url.join (html_dir cfg) (html_page_name u1) := Bytes (content r2)]>
                    (fs s)
       /\ downloaded_html (results s')
          = downloaded_html (results s)
            ++ [{| dl_url := u1;
                   dl_local_path := Url.join (html_dir cfg) (html_page_name u1) |};
                {| dl_url := u2;
                   dl_local_path := Url.join (html_dir cfg) (html_page_name u1) |}].
Proof.
  intros Hsame Hdir Hopen.
  destruct (html_page_name_flat u1) as [Hflat Hne].
  split; [|split; [done|split; [done|]]].
  { unfold html_dir. change "html" with ("htm" +:+ String "l" "").
    rewrite subdir_join by (done || by apply no_slash_head).
    rewrite (join_relative (download_dir cfg)) by done.
    rewrite !app_assoc_s. f_equal. }
  eexists. split.
  - unfold bind at 1. rewrite save_html_writes by done.
    rewrite save_html_writes.
    + reflexivity.
    + rewrite <- Hsame. simpl. rewrite lookup_insert_eq. done.
    + by rewrite <- Hsame.
  - simpl. rewrite <- Hsame. rewrite insert_insert_eq. split; [done|].
    by rewrite <- app_assoc.
Qed.

Lemma save_html_overwrites_witness :
  html_page_name "https://example.com/docs/index.html"
    = html_page_name "https://blog.example.com/index.html"
  /\ fs (bind (save_html demo_world demo_cfg "https://example.com/docs/index.html"
                 (html_page [] []))
           (fun _ => save_html demo_world demo_cfg
                       "https://blog.example.com/index.html" pdf_response)
           (init ∅)).2
     = {[ "downloads/run/html/index.html" := Bytes "%PDF-1.4" ]}.
Proof.
  assert (html_page_name "https://example.com/docs/index.html"
          = html_page_name "https://blog.example.com/index.html") as H
    by reflexivity.
  split; [exact H|].
  destruct (save_html_overwrites demo_world demo_cfg
    "https://example.com/docs/index.html" "https://blog.example.com/index.html"
    (html_page [] []) pdf_response (init ∅) H)
    as (_ & _ & _ & s' & Hrun & Hfs & _); [done | reflexivity |].
  rewrite Hrun. simpl. rewrite Hfs. reflexivity.
Defined.

(** ** The names of downloaded files *)

Lemma all_chars_app (p : ascii -> bool) (a b : string) :
  Url.all_chars p (a +:+ b) = Url.all_chars p a && Url.all_chars p b.
Proof.
  induction a as [|c a IH]; [done|]. rewrite String_app. simpl.
  by rewrite IH, andb_assoc.
Qed.

Lemma legal_sanitize (x : string) : legal_name (sanitize x) = true.
Proof.
  unfold legal_name, sanitize. induction x as [|c x IH]; [done|]. simpl.
  rewrite IH, andb_true_r. by destruct (is_illegal_char c) eqn:Hc; [|rewrite Hc].
Qed.

Lemma legal_pretty_N_go (x : N) (s : string) :
  legal_name s = true -> legal_name (pretty_N_go x s) = true.
Proof.
  revert s. induction (N.lt_wf_0 x) as [x _ IH]; intros s Hs.
  assert (x = 0 \/ 0 < x)%N as [->|Hx] by lia; [done|].
  rewrite pretty_N_go_step by done. apply IH; [by apply N.div_lt|].
  unfold legal_name in *. simpl. rewrite Hs, andb_true_r.
  unfold pretty_N_char. by repeat case_match.
Qed.

Lemma legal_pretty (n : nat) : legal_name (pretty n) = true.
Proof.
  unfold pretty, pretty_nat, pretty, pretty_N.
  destruct (decide _); [done|]. by apply legal_pretty_N_go.
Qed.

Lemma legal_candidate (x : string) (n : nat) :
  legal_name (candidate (sanitize x) n) = true.
Proof.
  pose proof (legal_sanitize x) as Hx.
  destruct n as [|n]; [done|]. simpl. unfold numbered.
  destruct (Url.splitext (sanitize x)) as [name ext] eqn:Hsp.
  apply splitext_app in Hsp; [|apply sanitize_no_slash].
  rewrite Hsp in Hx. unfold legal_name in *.
  rewrite all_chars_app in Hx. apply andb_true_iff in Hx as [Hn He].
  rewrite !all_chars_app, Hn, He, andb_true_r. simpl.
  apply (legal_pretty (S n)).
Qed.

(** **X9.** The local path that [download_file] returns is the directory
    joined with a file name that has none of the characters that the
    [re.sub] replaces (backslash, slash, asterisk, question mark, colon,
    double quote, angle brackets, bar), whatever the URL: neither the
    default names nor the numbering of a taken name bring one in. *)
Theorem download_file_name_legal (w : World) (cfg : Config) (u d : string)
    (ft : FileType) (s : Worker) (fp : string) :
  (download_file w cfg u d ft s).1 = Val (Some fp) ->
  exists name, fp = Url.join d name /\ legal_name name = true
    /\ Py.contains "/" name = false.
Proof.
  intros Hret. pose proof (download_file_spec w cfg (fs s) u d ft s eq_refl) as H.
  destruct (download_file w cfg u d ft s) as [[a|e|] s']; try discriminate Hret.
  simpl in Hret. injection Hret as ->. destruct H as [_ H].
  destruct (H fp eq_refl) as (x & n & Hfp & _).
  exists (candidate (sanitize x) n). split; [done|].
  pose proof (legal_candidate x n) as Hl. split; [done|].
  clear -Hl. unfold legal_name in Hl.
  induction (candidate (sanitize x) n) as [|c t IH]; [done|]. simpl in *.
  apply andb_true_iff in Hl as [Hc Ht]. rewrite (IH Ht).
  destruct (Ascii.eqb_spec c "/") as [->|]; done.
Qed.

Lemma download_file_name_legal_witness :
  (download_file demo_world demo_cfg "https://cdn.example.com/a%3Fb/lo:go.png?x=1"
     (images_dir demo_cfg) FtImage (init ∅)).1
    = Val (Some "downloads/run/images/lo_go.png")
  /\ exists name,
       "downloads/run/images/lo_go.png" = Url.join (images_dir demo_cfg) name
       /\ legal_name name = true /\ Py.contains "/" name = false.
Proof.
  assert ((download_file demo_world demo_cfg
             "https://cdn.example.com/a%3Fb/lo:go.png?x=1"
             (images_dir demo_cfg) FtImage (init ∅)).1
          = Val (Some "downloads/run/images/lo_go.png")) as H
    by (vm_compute; reflexivity).
  split; [exact H|].
  exact (download_file_name_legal demo_world demo_cfg _ _ _ _ _ H).
Defined.

(** ** Repeating a page, and exceptions in a download *)

(** **X10.** [scrape_page] returns normally, whatever happens on the page.
    When the worker is not stopped, the URL is visited afterwards, and a
    second call for the same URL does nothing at all: no read of
    [self.running], no request, no signal. *)
Theorem scrape_page_once (w : World) (cfg : Config) (u : string) (s : Worker) :
  running_at w (reads s) = true ->
  exists s',
    scrape_page w cfg u s = (Val tt, s')
    /\ u ∈ visited_urls s'
    /\ scrape_page w cfg u s' = (Val tt, s').
Proof.
  intros Hrun. destruct (decide (u ∈ visited_urls s)) as [Hin|Hnot].
  { exists s. by rewrite scrape_page_visited. }
  pose proof (total_scrape_page w cfg u s I) as Htot.
  rewrite scrape_page_start in * by done.
  pose proof (keeps_state _ _ (page_started u s)
    (visited_page w cfg u (visited_urls (page_started u s))) eq_refl) as Hv.
  assert (u ∈ visited_urls
    (try_except (page_body w cfg u)
       (fun msg => emit (SigError ("Error scraping " +:+ u +:+ ": " +:+ msg)))
       (page_started u s)).2) as Hu.
  { rewrite Hv. simpl. apply elem_of_union. left. by apply elem_of_singleton. }
  revert Htot Hu. unfold try_except.
  destruct (page_body w cfg u (page_started u s)) as [[[]|e|] s1]; simpl;
    intros Htot Hu; [| |done].
  - exists s1. by rewrite scrape_page_visited.
  - eexists. split; [reflexivity|]. split; [done|]. by rewrite scrape_page_visited.
Qed.

Lemma scrape_page_once_witness :
  running_at demo_world (reads (init ∅)) = true
  /\ exists s',
       scrape_page demo_world demo_cfg "https://example.com/a" (init ∅) = (Val tt, s')
       /\ "https://example.com/a" ∈ visited_urls s'
       /\ scrape_page demo_world demo_cfg "https://example.com/a" s' = (Val tt, s').
Proof.
  assert (running_at demo_world (reads (init ∅)) = true) as H by reflexivity.
  split; [exact H|].
  exact (scrape_page_once demo_world demo_cfg "https://example.com/a" (init ∅) H).
Defined.

(** **X11.** [download_file] lets no exception out: a URL that does not
    parse, a failed or broken transfer and a file that cannot be written
    all end in the value [None] (with one error signal), and the method
    itself changes neither the results nor the visited set nor the queue.
    For a stopped worker it returns [None] at once: the read of
    [self.running] is all that happens. *)
Theorem download_file_never_raises (w : World) (cfg : Config) (u d : string)
    (ft : FileType) (s : Worker) :
  (exists a s',
     download_file w cfg u d ft s = (Val a, s')
     /\ results s' = results s /\ visited_urls s' = visited_urls s
     /\ queue s' = queue s)
  /\ (running_at w (reads s) = false ->
      download_file w cfg u d ft s
      = (Val None, upd_log (fun l => l ++ [ReadRunning false]) (upd_reads S s))).
Proof.
  split.
  - pose proof (total_download_file w cfg u d ft s I) as Htot.
    assert (keeps (fun s' => results s' = results s
                     /\ visited_urls s' = visited_urls s /\ queue s' = queue s)
              (download_file w cfg u d ft)) as Hk.
    { unfold_asset. unfold_prims. frame. }
    specialize (Hk s ltac:(done)).
    assert (forall e s', download_file w cfg u d ft s <> (Exn e, s')) as Hexn.
    { intros e s'. unfold download_file, bind at 1.
      unfold read_running, bind at 1, get, bind at 1, modify, bind at 1, emit,
        modify, ret.
      destruct (running_at w (reads s)); simpl; [|done].
      unfold try_except. by destruct (bind _ _ _) as [[a|e'|] s2]. }
    destruct (download_file w cfg u d ft s) as [[a|e|] s']; simpl in *;
      [by exists a, s' | by destruct (Hexn e s') | done].
  - intros Hrun. unfold download_file, bind at 1, read_running, bind, get,
      modify, emit, ret. simpl. by rewrite Hrun.
Qed.

Lemma download_file_never_raises_witness :
  running_at stopped_world (reads (init ∅)) = false
  /\ download_file stopped_world demo_cfg "https://cdn.example.com/logo.png"
       (images_dir demo_cfg) FtImage (init ∅)
     = (Val None,
        upd_log (fun l => l ++ [ReadRunning false]) (upd_reads S (init ∅))).
Proof.
  assert (running_at stopped_world (reads (init ∅)) = false) as H by reflexivity.
  split; [exact H|].
  destruct (download_file_never_raises stopped_world demo_cfg
    "https://cdn.example.com/logo.png" (images_dir demo_cfg) FtImage (init ∅))
    as [_ Hstop].
  exact (Hstop H).
Defined.

(** ** The base URL of a page *)

Lemma break_at_app (p : ascii -> bool) (s l r : string) :
  Py.break_at p s = (l, r) -> s = l +:+ r.
Proof.
  revert l r. induction s as [|a s IH]; intros l r; simpl.
  - by intros [= <- <-].
  - destruct (p a); [by intros [= <- <-]|].
    destruct (Py.break_at p s) as [l' r'] eqn:Hb. intros [= <- <-].
    rewrite String_app. f_equal. by apply IH.
Qed.

(** **X12.** For a URL that begins with [http://] or [https://] and that
    [urlparse] accepts, [extract_base_url] gives the scheme, [://] and the
    network location; this base parses back to the same scheme and network
    location with everything else empty, so that [extract_base_url] leaves
    it as it is; and the URL is an internal link of its own network
    location.  The base is the beginning of the URL when the URL has no
    tab, CR or LF, which [urlparse] removes: with a tab in the host it is
    not. *)
Theorem base_url_round_trip (u : string) (r : Url.ParseResult) :
  is_http u = true -> Url.urlparse u = Ok r ->
  extract_base_url u = Ok (Url.scheme r +:+ "://" +:+ Url.netloc r)
  /\ is_http (Url.scheme r +:+ "://" +:+ Url.netloc r) = true
  /\ Url.urlparse (Url.scheme r +:+ "://" +:+ Url.netloc r)
     = Ok {| Url.scheme := Url.scheme r; Url.netloc := Url.netloc r;
             Url.path := ""; Url.params := ""; Url.query := "";
             Url.fragment := "" |}
  /\ extract_base_url (Url.scheme r +:+ "://" +:+ Url.netloc r)
     = Ok (Url.scheme r +:+ "://" +:+ Url.netloc r)
  /\ is_internal_link u (Url.netloc r) = Ok true
  /\ (Url.remove_unsafe u = u ->
      Py.startswith (Url.scheme r +:+ "://" +:+ Url.netloc r) u = true)
  /\ extract_base_url tabbed_url = Ok "https://example.com"
  /\ Py.startswith "https://example.com" tabbed_url = false.
Proof.
  intros (sch & rest & Hsch & ->)%is_http_inv Hp.
  destruct (urlparse_http_netloc _ _ _ Hsch Hp) as (Hsc & Hb & Hchk & Hsafe).
  pose proof (urlparse_base _ _ _ Hsch (break_at_idem _ _ _ _ Hb) Hchk Hsafe)
    as Hbase.
  rewrite Hsc.
  split; [|split; [|split; [done|split; [|split; [|split; [|done]]]]]].
  - unfold extract_base_url. by rewrite Hp, Hsc.
  - unfold is_http. apply orb_true_iff. rewrite !startswith_spec.
    destruct Hsch as [-> | ->]; [left|right]; by exists (Url.netloc r).
  - unfold extract_base_url. by rewrite Hbase.
  - unfold is_internal_link. rewrite Hp. by rewrite bool_decide_true.
  - intros Hclean.
    assert (Url.remove_unsafe rest = rest) as Hrest.
    { apply remove_unsafe_safe.
      pose proof (safe_remove_unsafe (sch +:+ "://" +:+ rest)) as Hs.
      rewrite Hclean, !safe_app in Hs.
      by apply andb_true_iff in Hs as [_ [_ Hs]%andb_true_iff]. }
    rewrite Hrest in Hb. apply break_at_app in Hb.
    apply startswith_spec. eexists. rewrite Hb at 1. by rewrite !app_assoc_s.
Qed.

Lemma base_url_round_trip_witness :
  is_http "https://blog.example.com/b?x=1#top" = true
  /\ extract_base_url "https://blog.example.com/b?x=1#top"
     = Ok "https://blog.example.com".
Proof.
  assert (is_http "https://blog.example.com/b?x=1#top" = true) as H by reflexivity.
  split; [exact H|].
  destruct (base_url_round_trip "https://blog.example.com/b?x=1#top"
    {| Url.scheme := "https"; Url.netloc := "blog.example.com"; Url.path := "/b";
       Url.params := ""; Url.query := "x=1"; Url.fragment := "top" |} H eq_refl)
    as [Hb _].
  exact Hb.
Defined.

(** ** The seed URL *)

Lemma rev_app_spec (a b : string) : String.rev_app a b = String.rev a +:+ b.
Proof.
  unfold String.rev. revert b. induction a as [|c a IH]; intros b; [done|].
  simpl. rewrite IH, (IH (String c "")). by rewrite app_assoc_s.
Qed.

Lemma app_nil_r_s (a : string) : a +:+ "" = a.
Proof. induction a; rewrite ?String_app; [done | congruence]. Qed.

Lemma rev_cons (c : ascii) (a : string) :
  String.rev (String c a) = String.rev a +:+ String c "".
Proof. unfold String.rev at 1. simpl. by rewrite rev_app_spec. Qed.

Lemma rev_app_distr_s (a b : string) :
  String.rev (a +:+ b) = String.rev b +:+ String.rev a.
Proof.
  induction a as [|c a IH].
  - by rewrite app_nil_r_s.
  - rewrite String_app, !rev_cons, IH. by rewrite app_assoc_s.
Qed.

Lemma rev_involutive_s (a : string) : String.rev (String.rev a) = a.
Proof.
  induction a as [|c a IH]; [done|].
  by rewrite rev_cons, rev_app_distr_s, IH.
Qed.

Lemma lstrip_head (s : string) : head_ok (Py.lstrip s).
Proof.
  induction s as [|c s IH]; [done|]. simpl.
  by destruct (Py.isspace c) eqn:Hc.
Qed.

Lemma lstrip_fixed (s : string) : head_ok s -> Py.lstrip s = s.
Proof. destruct s as [|c s]; [done|]. simpl. by intros ->. Qed.

Lemma lstrip_suffix (s : string) : exists ws, s = ws +:+ Py.lstrip s.
Proof.
  induction s as [|c s [ws IH]]; [by exists ""|]. simpl.
  destruct (Py.isspace c).
  - exists (String c ws). rewrite String_app. by f_equal.
  - by exists "".
Qed.

Lemma head_ok_app (a b : string) : a <> "" -> head_ok a -> head_ok (a +:+ b).
Proof. destruct a; [done|]. by rewrite String_app. Qed.

Lemma head_ok_prefix (a b : string) : head_ok (a +:+ b) -> head_ok a.
Proof. destruct a; [done|]. by rewrite String_app. Qed.

Lemma strip_ends (s : string) :
  head_ok (Py.strip s) /\ head_ok (String.rev (Py.strip s)).
Proof.
  unfold Py.strip. rewrite rev_involutive_s. split; [|apply lstrip_head].
  destruct (lstrip_suffix (String.rev (Py.lstrip s))) as [ws Hws].
  apply (f_equal String.rev) in Hws.
  rewrite rev_involutive_s, rev_app_distr_s in Hws.
  pose proof (lstrip_head s) as Hh. rewrite Hws in Hh.
  by apply head_ok_prefix in Hh.
Qed.

Lemma strip_fixed (s : string) :
  head_ok s -> head_ok (String.rev s) -> Py.strip s = s.
Proof.
  intros H1 H2. unfold Py.strip.
  by rewrite (lstrip_fixed s), (lstrip_fixed (String.rev s)), rev_involutive_s.
Qed.

Lemma rev_not_empty (s : string) : s <> "" -> String.rev s <> "".
Proof.
  intros Hs Hr. apply Hs. apply (f_equal String.rev) in Hr.
  by rewrite rev_involutive_s in Hr.
Qed.

Lemma start_scraping_url_http (text u : string) :
  start_scraping_url text = Some u -> is_http u = true.
Proof.
  unfold start_scraping_url. cbv zeta.
  destruct (bool_decide (Py.strip text = "")); [done|].
  destruct (is_http (Py.strip text)) eqn:Hhttp; simpl; intros [= <-]; [done|].
  unfold is_http. apply orb_true_iff. left. apply startswith_spec. eauto.
Qed.

(** **X13.** The URL that the window hands to the worker is the stripped
    text of the URL field, with [http://] in front unless it begins with
    [http://] or [https://]; an empty or blank text starts no worker.  The
    URL begins with [http://] or [https://], has no white space at its
    ends, and is left as it is when it is entered again. *)
Theorem start_scraping_url_spec (text u : string) :
  start_scraping_url text = Some u ->
  is_http u = true
  /\ Py.strip u = u
  /\ (u = Py.strip text \/ u = "http://" +:+ Py.strip text)
  /\ start_scraping_url u = Some u.
Proof.
  unfold start_scraping_url. cbv zeta.
  destruct (bool_decide (Py.strip text = "")) eqn:He; [done|].
  apply bool_decide_eq_false in He.
  destruct (strip_ends text) as [Hh Hr].
  assert (is_http u = true -> Py.strip u = u -> u <> "" ->
    (if bool_decide (Py.strip u = "") then None
     else if negb (is_http (Py.strip u)) then Some ("http://" +:+ Py.strip u)
          else Some (Py.strip u)) = Some u) as Hagain.
  { intros Hu Hs Hne. rewrite Hs, bool_decide_false, Hu by done. done. }
  destruct (is_http (Py.strip text)) eqn:Hhttp; simpl; intros [= <-].
  - assert (Py.strip (Py.strip text) = Py.strip text) as Hs by (by apply strip_fixed).
    auto.
  - assert (is_http ("http://" +:+ Py.strip text) = true) as Hu.
    { unfold is_http. apply orb_true_iff. left. apply startswith_spec. eauto. }
    assert (Py.strip ("http://" +:+ Py.strip text) = "http://" +:+ Py.strip text)
      as Hs.
    { apply strip_fixed; [done|]. rewrite rev_app_distr_s.
      apply head_ok_app; [by apply rev_not_empty | done]. }
    split; [done|]. split; [done|]. split; [by right|].
    apply Hagain; [done | done | by apply app_not_empty].
Qed.

Lemma start_scraping_url_spec_witness :
  start_scraping_url "  example.com/docs " = Some "http://example.com/docs"
  /\ is_http "http://example.com/docs" = true
  /\ start_scraping_url "http://example.com/docs" = Some "http://example.com/docs".
Proof.
  assert (start_scraping_url "  example.com/docs " = Some "http://example.com/docs")
    as H by reflexivity.
  split; [exact H|].
  destruct (start_scraping_url_spec _ _ H) as (H1 & _ & _ & H4).
  split; [exact H1 | exact H4].
Defined.

(** **X14.** In a run whose seed comes from the URL field, every page
    request goes to a URL that begins with [http://] or [https://]. *)
Theorem window_run_requests_http (w : World) (cfg : Config)
    (fs0 : gmap string FileData) (text : string) :
  start_scraping_url text = Some (url cfg) ->
  forall v, HttpGet v ∈ log (run w cfg (init fs0)).2 -> is_http v = true.
Proof.
  intros Hseed v Hv. apply start_scraping_url_http in Hseed as Hhttp.
  apply (fetches_visited_run w cfg fs0) in Hv.
  destruct (on_track_run w cfg fs0) as [Hg [Hvis _]]. rewrite <- Hvis in Hv.
  apply (good_log_visited _ _ Hg) in Hv.
  apply (dequeued_enqueued _ _ _ Hg) in Hv.
  unfold enqueued in Hv. apply list_elem_of_omap in Hv as (e & He & Heq).
  destruct e; try discriminate Heq. injection Heq as ->.
  destruct (links_valid_run w cfg fs0) as [_ Hq].
  destruct (Hq v He) as [->|Hvalid]; [done|]. by apply is_valid_url_http.
Qed.

Lemma window_run_requests_http_witness :
  start_scraping_url " https://example.com/ " = Some (url demo_cfg)
  /\ forall v, HttpGet v ∈ log (run demo_world demo_cfg (init ∅)).2 ->
       is_http v = true.
Proof.
  assert (start_scraping_url " https://example.com/ " = Some (url demo_cfg)) as H
    by reflexivity.
  split; [exact H|].
  exact (window_run_requests_http demo_world demo_cfg ∅ _ H).
Defined.

(** ** The contact extractors *)

Lemma length_app_s (a b : string) :
  String.length (a +:+ b) = String.length a + String.length b.
Proof. induction a as [|c a IH]; [done|]. rewrite String_app. simpl. by rewrite IH. Qed.

Lemma rep_sound (it : Re.Item) (k : string -> option string) (n : nat)
    (s m : string) :
  match Re.hi it with Some h => n <= h | None => True end ->
  Re.rep it k n s = Some m ->
  exists a b rest,
    s = a +:+ rest /\ m = a +:+ b /\ k rest = Some b
    /\ Url.all_chars (Re.cls it) a = true
    /\ Re.lo it <= n + String.length a
    /\ match Re.hi it with Some h => n + String.length a <= h | None => True end.
Proof.
  revert n m. induction s as [|c s IH]; intros n m Hn.
  - simpl. intros H.
    assert ((if Re.lo it <=? n then k "" else None) = Some m) as Hstop
      by (by destruct (Re.greedy it), (if Re.lo it <=? n then k "" else None)).
    destruct (Nat.leb_spec (Re.lo it) n) as [Hlo|]; [|done].
    exists "", m, "". rewrite Nat.add_0_r. by destruct (Re.hi it).
  - simpl. intros H.
    assert ((if Re.lo it <=? n then k (String c s) else None) = Some m
            \/ (if Re.cls it c && Re.below (Re.hi it) n
                then String c <$> Re.rep it k (S n) s else None) = Some m) as [Hs|Hm].
    { destruct (Re.greedy it);
        [destruct (if Re.cls it c && _ then _ else _)
        |destruct (if Re.lo it <=? n then _ else _)]; auto. }
    + destruct (Nat.leb_spec (Re.lo it) n) as [Hlo|]; [|done].
      exists "", m, (String c s). rewrite Nat.add_0_r. by destruct (Re.hi it).
    + destruct (Re.cls it c) eqn:Hc; [|done].
      destruct (Re.below (Re.hi it) n) eqn:Hb; [|done]. simpl in Hm.
      destruct (Re.rep it k (S n) s) as [m'|] eqn:Hrep; [|done].
      injection Hm as <-.
      destruct (IH (S n) m') as (a & b & rest & -> & -> & Hk & Ha & Hlo & Hhi);
        [|done|].
      { unfold Re.below in Hb. destruct (Re.hi it); [|done].
        apply Nat.ltb_lt in Hb. lia. }
      exists (String c a), b, rest. rewrite !String_app. simpl. rewrite Hc, Ha.
      repeat split; try done; [lia|]. destruct (Re.hi it); [lia|done].
Qed.

Lemma match_at_sound (p : list Re.Item) (s m : string) :
  Re.match_at p s = Some m ->
  exists ms rest, Re.splits p ms /\ m = Re.concat_all ms /\ s = m +:+ rest.
Proof.
  revert s m. induction p as [|it p IH]; intros s m; simpl.
  - intros [= <-]. exists [], s. split; [constructor|done].
  - intros H. apply rep_sound in H as (a & b & rest & -> & -> & Hk & Ha & Hlo & Hhi).
    2:{ destruct (Re.hi it); [lia|done]. }
    destruct (IH _ _ Hk) as (ms & rest' & Hms & -> & ->).
    exists (a :: ms), rest'. split; [|by rewrite app_assoc_s].
    constructor; [|done]. split; [done|]. split; [lia|].
    by destruct (Re.hi it).
Qed.

Lemma findall_go_sound (p : list Re.Item) (skip : nat) (s x : string) :
  x ∈ Re.findall_go p skip s ->
  exists pre post ms, s = pre +:+ x +:+ post /\ Re.splits p ms /\ x = Re.concat_all ms.
Proof.
  revert skip. induction s as [|c s IH]; intros skip; simpl.
  { by intros ?%elem_of_nil. }
  assert (forall k, x ∈ Re.findall_go p k s ->
    exists pre post ms,
      String c s = pre +:+ x +:+ post /\ Re.splits p ms /\ x = Re.concat_all ms)
    as Hnext.
  { intros k (pre & post & ms & -> & Hms & Hx)%IH.
    exists (String c pre), post, ms. by rewrite String_app. }
  destruct skip as [|n]; [|by apply Hnext].
  destruct (Re.match_at p (String c s)) as [m|] eqn:Hm; [|by apply Hnext].
  intros [->|Hx]%elem_of_cons; [|by eapply Hnext].
  apply match_at_sound in Hm as (ms & rest & Hms & Hx & Hs).
  exists "", rest, ms. by rewrite Hs.
Qed.

Lemma takes_lit (c : ascii) (m : string) : Re.takes (Re.lit c) m -> m = String c "".
Proof.
  intros (Hall & Hlo & Hhi). simpl in *.
  destruct m as [|a [|b m]]; simpl in *; [lia| |lia].
  apply andb_true_iff in Hall as [Ha _]. apply Ascii.eqb_eq in Ha. by subst.
Qed.

(** **X15.** Every address that [extract_emails] returns is a piece of the
    text of the form [local@domain.tld]: a non-empty local part of letters,
    digits and [._%+-], one [@], a non-empty domain of letters, digits,
    dots and hyphens, a dot, and at least two letters. *)
Theorem extract_emails_shape (text e : string) :
  e ∈ extract_emails text ->
  exists pre post local domain tld,
    text = pre +:+ e +:+ post
    /\ e = local +:+ "@" +:+ domain +:+ "." +:+ tld
    /\ local <> "" /\ Url.all_chars is_local_char local = true
    /\ domain <> "" /\ Url.all_chars is_domain_char domain = true
    /\ 2 <= String.length tld /\ Url.all_chars Url.is_ascii_alpha tld = true.
Proof.
  unfold extract_emails. rewrite elem_of_list_to_set.
  intros (pre & post & ms & -> & Hms & ->)%findall_go_sound.
  unfold email_pattern in Hms.
  inversion Hms as [|? ? local ms1 Hl Hms1]; subst.
  inversion Hms1 as [|? ? at_ ms2 Hat Hms2]; subst.
  inversion Hms2 as [|? ? domain ms3 Hd Hms3]; subst.
  inversion Hms3 as [|? ? dot ms4 Hdot Hms4]; subst.
  inversion Hms4 as [|? ? tld ms5 Ht Hms5]; subst.
  inversion Hms5; subst.
  apply takes_lit in Hat as ->. apply takes_lit in Hdot as ->.
  destruct Hl as (Hl1 & Hl2 & _), Hd as (Hd1 & Hd2 & _), Ht as (Ht1 & Ht2 & _).
  simpl in *. exists pre, post, local, domain, tld.
  rewrite app_nil_r_s. repeat split; try done.
  - intros ->. simpl in Hl2. lia.
  - intros ->. simpl in Hd2. lia.
Qed.

Lemma extract_emails_shape_witness :
  "john.doe@example.com" ∈ extract_emails "Write to john.doe@example.com, please."
  /\ exists pre post local domain tld,
       "Write to john.doe@example.com, please." = pre +:+ "john.doe@example.com" +:+ post
       /\ "john.doe@example.com" = local +:+ "@" +:+ domain +:+ "." +:+ tld
       /\ local <> "" /\ 2 <= String.length tld.
Proof.
  assert ("john.doe@example.com"
          ∈ extract_emails "Write to john.doe@example.com, please.") as H.
  { apply elem_of_list_to_set. vm_compute. left. }
  split; [exact H|].
  destruct (extract_emails_shape _ _ H)
    as (pre & post & l & d & t & H1 & H2 & H3 & _ & _ & _ & H7 & _).
  by exists pre, post, l, d, t.
Defined.

Lemma digits_app (a b : string) : digits (a +:+ b) = digits a + digits b.
Proof.
  induction a as [|c a IH]; [done|]. rewrite String_app. simpl. rewrite IH. lia.
Qed.

Lemma digits_all (m : string) :
  Url.all_chars Url.is_digit m = true -> digits m = String.length m.
Proof.
  induction m as [|c m IH]; [done|]. simpl.
  intros [-> Hm]%andb_true_iff. by rewrite IH.
Qed.

Lemma digits_none (f : ascii -> bool) (m : string) :
  (forall c, f c = true -> Url.is_digit c = false) ->
  Url.all_chars f m = true -> digits m = 0.
Proof.
  intros Hf. induction m as [|c m IH]; [done|]. simpl.
  intros [Hc Hm]%andb_true_iff. by rewrite (Hf c Hc), IH.
Qed.

Lemma all_chars_impl (f g : ascii -> bool) (m : string) :
  (forall c, f c = true -> g c = true) ->
  Url.all_chars f m = true -> Url.all_chars g m = true.
Proof.
  intros Hfg. induction m as [|c m IH]; [done|]. simpl.
  intros [Hc Hm]%andb_true_iff. by rewrite (Hfg c Hc), IH.
Qed.

Lemma separator_not_digit (c : ascii) :
  is_separator c = true -> Url.is_digit c = false.
Proof. destruct c as [[] [] [] [] [] [] [] []]; by vm_compute. Qed.

Lemma separator_phone_char (c : ascii) :
  is_separator c = true -> is_phone_char c = true.
Proof. unfold is_phone_char. intros ->. by rewrite orb_true_r. Qed.

Lemma digit_phone_char (c : ascii) : Url.is_digit c = true -> is_phone_char c = true.
Proof. unfold is_phone_char. by intros ->. Qed.

Lemma sign_phone_char (a c : ascii) :
  a ∈ ["+"; "("; ")"]%char -> Ascii.eqb a c = true -> is_phone_char c = true.
Proof.
  intros Ha <-%Ascii.eqb_eq. unfold is_phone_char.
  rewrite (bool_decide_true _ Ha). by rewrite orb_true_r.
Qed.

Lemma sign_not_digit (a c : ascii) :
  a ∈ ["+"; "("; ")"]%char -> Ascii.eqb a c = true -> Url.is_digit c = false.
Proof.
  intros Ha <-%Ascii.eqb_eq. rewrite !elem_of_cons in Ha.
  destruct Ha as [->|[->|[->|Ha]]]; [done..|]. by apply elem_of_nil in Ha.
Qed.

(** What a text taken by an optional item, and by an item of digits, adds
    to the length, the digits and the characters of a match. *)
Lemma takes_opt (f : ascii -> bool) (m : string) :
  (forall c, f c = true -> Url.is_digit c = false) ->
  (forall c, f c = true -> is_phone_char c = true) ->
  Re.takes (Re.opt f) m ->
  String.length m <= 1 /\ digits m = 0 /\ Url.all_chars is_phone_char m = true.
Proof.
  intros Hd Hp (Hall & _ & Hhi). simpl in *. split; [done|].
  split; [by eapply digits_none | by eapply all_chars_impl].
Qed.

Lemma takes_digits (lazy : bool) (a b : nat) (m : string) :
  Re.takes {| Re.cls := Url.is_digit; Re.lo := a; Re.hi := Some b;
              Re.greedy := lazy |} m ->
  a <= String.length m <= b /\ digits m = String.length m
  /\ Url.all_chars is_phone_char m = true.
Proof.
  intros (Hall & Hlo & Hhi). simpl in *. split; [done|].
  split; [by apply digits_all|].
  eapply all_chars_impl; [|exact Hall]. apply digit_phone_char.
Qed.

Lemma takes_sign (a : ascii) (m : string) :
  bool_decide (a ∈ ["+"; "("; ")"]%char) = true ->
  Re.takes (Re.opt (Ascii.eqb a)) m ->
  String.length m <= 1 /\ digits m = 0 /\ Url.all_chars is_phone_char m = true.
Proof.
  intros Ha%bool_decide_eq_true. apply takes_opt.
  - intros c. by apply sign_not_digit.
  - intros c. by apply sign_phone_char.
Qed.

Ltac invert_splits :=
  repeat match goal with
  | H : Re.splits (_ :: _) _ |- _ => inversion H; clear H; subst
  | H : Re.splits [] _ |- _ => inversion H; clear H; subst
  end.

Lemma phone_match_shape (ms : list string) :
  Re.splits phone_pattern ms ->
  5 <= digits (Re.concat_all ms) <= 24
  /\ String.length (Re.concat_all ms) <= 31
  /\ Url.all_chars is_phone_char (Re.concat_all ms) = true.
Proof.
  unfold phone_pattern. intros Hms. invert_splits.
  repeat match goal with
  | H : Re.takes (Re.opt is_separator) _ |- _ =>
      apply (takes_opt _ _ separator_not_digit separator_phone_char) in H
        as (? & ? & ?)
  | H : Re.takes (Re.opt (Ascii.eqb ?a)) _ |- _ =>
      apply (takes_sign a _ eq_refl) in H as (? & ? & ?)
  | H : Re.takes (Re.between _ _ _) _ |- _ =>
      apply takes_digits in H as (? & ? & ?)
  | H : Re.takes (Re.between_lazy _ _ _) _ |- _ =>
      apply takes_digits in H as (? & ? & ?)
  end.
  simpl. rewrite !digits_app, !length_app_s, !all_chars_app. simpl.
  split; [lia|]. split; [lia|].
  repeat (apply andb_true_iff; split); done.
Qed.

(** **X16.** Every number that [extract_phones] returns is a piece of the
    text made of digits, separators ([-], [.], white space), [+] and
    parentheses only, with at least 5 and at most 24 digits and at most 31
    characters; a text with fewer than five digits has no phone number. *)
Theorem extract_phones_shape (text p : string) :
  p ∈ extract_phones text ->
  (exists pre post, text = pre +:+ p +:+ post)
  /\ 5 <= digits p <= 24
  /\ String.length p <= 31
  /\ Url.all_chars is_phone_char p = true
  /\ 5 <= digits text.
Proof.
  unfold extract_phones. rewrite elem_of_list_to_set.
  intros (pre & post & ms & -> & Hms & ->)%findall_go_sound.
  destruct (phone_match_shape ms Hms) as (Hd & Hl & Hc).
  split; [by exists pre, post|]. split; [done|]. split; [done|]. split; [done|].
  rewrite !digits_app. lia.
Qed.

Lemma extract_phones_shape_witness :
  "+1 (555) 123-4567" ∈ extract_phones "Call +1 (555) 123-4567 today"
  /\ 5 <= digits "+1 (555) 123-4567" <= 24.
Proof.
  assert ("+1 (555) 123-4567" ∈ extract_phones "Call +1 (555) 123-4567 today") as H.
  { apply elem_of_list_to_set. vm_compute. left. }
  split; [exact H|].
  destruct (extract_phones_shape _ _ H) as (_ & Hd & _). exact Hd.
Defined.

(** *** When something is found *)

Lemma rep_complete (it : Re.Item) (k : string -> option string) (n : nat)
    (a rest b : string) :
  Url.all_chars (Re.cls it) a = true ->
  Re.lo it <= n + String.length a ->
  match Re.hi it with Some h => n + String.length a <= h | None => True end ->
  k rest = Some b ->
  exists m, Re.rep it k n (a +:+ rest) = Some m.
Proof.
  revert n. induction a as [|c a IH]; intros n Hall Hlo Hhi Hk.
  - simpl in Hlo. rewrite Nat.add_0_r in Hlo.
    assert ((if Re.lo it <=? n then k rest else None) = Some b) as Hstop.
    { by destruct (Nat.leb_spec (Re.lo it) n); [|lia]. }
    change ("" +:+ rest) with rest.
    destruct rest as [|c rest]; simpl; rewrite Hstop;
      destruct (Re.greedy it); try (by eexists);
      destruct (if _ && _ then _ else _); by eexists.
  - rewrite String_app. simpl in *. apply andb_true_iff in Hall as [Hc Ha].
    destruct (IH (S n) Ha) as [m Hm]; [lia| |done|].
    { destruct (Re.hi it); [lia|done]. }
    rewrite Hc, Hm.
    assert (Re.below (Re.hi it) n = true) as ->.
    { unfold Re.below. destruct (Re.hi it); [|done]. apply Nat.ltb_lt. lia. }
    simpl. destruct (Re.greedy it); [by eexists|].
    by destruct (if Re.lo it <=? n then _ else _); eexists.
Qed.

Lemma match_at_complete (p : list Re.Item) (ms : list string) (rest : string) :
  Re.splits p ms -> exists m, Re.match_at p (Re.concat_all ms +:+ rest) = Some m.
Proof.
  induction 1 as [|it p a ms (Hall & Hlo & Hhi) Hms [b Hb]]; simpl; [by eexists|].
  rewrite app_assoc_s. eapply rep_complete; [done|lia| |exact Hb].
  by destruct (Re.hi it).
Qed.

Lemma findall_found (p : list Re.Item) (pre s m : string) :
  s <> "" -> Re.match_at p s = Some m -> Re.findall p (pre +:+ s) <> [].
Proof.
  intros Hs Hm. unfold Re.findall. induction pre as [|c pre IH].
  - change ("" +:+ s) with s. destruct s as [|c s]; [done|]. simpl.
    by rewrite Hm.
  - rewrite String_app. simpl. destruct (Re.match_at p (String c _)); [done|exact IH].
Qed.

Lemma found_iff (l : list string) : (list_to_set l : gset string) <> ∅ <-> l <> [].
Proof.
  split.
  - intros H ->. by apply H.
  - intros H Hl. destruct l as [|x l]; [done|].
    assert (x ∈ (list_to_set (x :: l) : gset string)) as Hx
      by (apply elem_of_list_to_set; by left).
    rewrite Hl in Hx. by apply elem_of_empty in Hx.
Qed.

Lemma takes_digit (lazy : bool) (b : nat) (c : ascii) :
  Url.is_digit c = true -> 1 <= b ->
  Re.takes {| Re.cls := Url.is_digit; Re.lo := 1; Re.hi := Some b;
              Re.greedy := lazy |} (String c "").
Proof. intros Hc Hb. split; simpl; [by rewrite Hc|lia]. Qed.

Lemma takes_nothing (f : ascii -> bool) : Re.takes (Re.opt f) "".
Proof. split; simpl; [done|lia]. Qed.

(** **X17.** Five digits in a row are enough for [extract_phones] to
    return a number: dates, postal codes and identifiers count as phone
    numbers. *)
Theorem extract_phones_five_digits (text pre d post : string) :
  text = pre +:+ d +:+ post ->
  Url.all_chars Url.is_digit d = true -> 5 <= String.length d ->
  extract_phones text <> ∅.
Proof.
  intros -> Hd Hlen. unfold extract_phones. apply found_iff.
  destruct d as [|d1 [|d2 [|d3 [|d4 [|d5 d']]]]]; simpl in Hlen; try lia.
  simpl in Hd. repeat (apply andb_true_iff in Hd as [? Hd]).
  destruct (match_at_complete phone_pattern
    [""; String d1 ""; ""; ""; String d2 ""; ""; ""; String d3 ""; "";
     String d4 ""; ""; String d5 ""] (d' +:+ post)) as [m Hm].
  { unfold phone_pattern.
    repeat constructor; simpl; first [done | lia | by rewrite andb_true_r]. }
  eapply findall_found; [|exact Hm]. done.
Qed.

Lemma extract_phones_five_digits_witness :
  "Order 12345 of 2024-01-15" = "Order " +:+ "12345" +:+ " of 2024-01-15"
  /\ extract_phones "Order 12345 of 2024-01-15" <> ∅.
Proof.
  assert ("Order 12345 of 2024-01-15" = "Order " +:+ "12345" +:+ " of 2024-01-15")
    as H by reflexivity.
  split; [exact H|].
  apply (extract_phones_five_digits _ _ _ _ H); [reflexivity | simpl; lia].
Defined.

(** **X18.** Whenever the text has a piece of the form [local@domain.tld]
    (as in X15), [extract_emails] returns at least one address. *)
Theorem extract_emails_finds (text pre post local domain tld : string) :
  text = pre +:+ (local +:+ "@" +:+ domain +:+ "." +:+ tld) +:+ post ->
  local <> "" -> Url.all_chars is_local_char local = true ->
  domain <> "" -> Url.all_chars is_domain_char domain = true ->
  2 <= String.length tld -> Url.all_chars Url.is_ascii_alpha tld = true ->
  extract_emails text <> ∅.
Proof.
  intros -> Hl Hlc Hd Hdc Ht Htc. unfold extract_emails. apply found_iff.
  assert (forall x : string, x <> "" -> 1 <= String.length x) as Hlen.
  { intros [|c x] Hx; [done|]. simpl. lia. }
  destruct (match_at_complete email_pattern [local; "@"; domain; "."; tld] post)
    as [m Hm].
  { unfold email_pattern.
    repeat constructor; simpl; first [done | lia | by apply Hlen]. }
  assert (Re.concat_all [local; "@"; domain; "."; tld]
          = local +:+ "@" +:+ domain +:+ "." +:+ tld) as Hc
    by (simpl; by rewrite app_nil_r_s).
  rewrite Hc in Hm. eapply findall_found; [|exact Hm].
  destruct local; [done|]. by rewrite !String_app.
Qed.

Lemma extract_emails_finds_witness :
  "mail jo@example.org now" = "mail " +:+ ("jo" +:+ "@" +:+ "example" +:+ "." +:+ "org") +:+ " now"
  /\ extract_emails "mail jo@example.org now" <> ∅.
Proof.
  assert ("mail jo@example.org now"
          = "mail " +:+ ("jo" +:+ "@" +:+ "example" +:+ "." +:+ "org") +:+ " now")
    as H by reflexivity.
  split; [exact H|].
  apply (extract_emails_finds _ _ _ _ _ _ H); try done; simpl; lia.
Defined.

(** ** [extract_meta_info] *)

Lemma add_meta_entry (meta : gmap string (option string)) (tag : MetaTag) :
  add_meta meta tag
  = match meta_entry tag with
    | Some (n, c) => <[n := Some c]> meta
    | None => meta
    end.
Proof.
  unfold add_meta, meta_entry. cbv zeta.
  destruct (py_or (mt_name tag) (mt_property tag)) as [n|]; [|done].
  destruct (mt_content tag) as [c|]; simpl; [|by rewrite andb_false_r].
  by destruct (negb (bool_decide (n = "")) && negb (bool_decide (c = ""))).
Qed.

Lemma foldl_add_meta_lookup (meta : gmap string (option string))
    (tags : list MetaTag) (k : string) :
  foldl add_meta meta tags !! k
  = match last_content k tags with
    | Some c => Some (Some c)
    | None => meta !! k
    end.
Proof.
  unfold last_content. induction tags as [|tag tags IH] using rev_ind; [done|].
  rewrite foldl_app, omap_app, filter_app. simpl. rewrite add_meta_entry.
  destruct (meta_entry tag) as [[n c]|]; simpl.
  - destruct (decide (n = k)) as [->|Hne].
    + rewrite filter_cons_True by done. rewrite filter_nil, last_snoc. simpl.
      by rewrite lookup_insert_eq.
    + rewrite filter_cons_False by done. rewrite filter_nil, app_nil_r.
      by rewrite lookup_insert_ne.
  - rewrite filter_nil, app_nil_r. exact IH.
Qed.

(** **X19.** In the dictionary of [extract_meta_info] a key has the
    content of the last [meta] tag that contributes it, where a tag
    contributes its [name], or its [property] when the name is missing or
    empty, provided that key and content are not empty; without such a tag
    only [title] is present, when the page has a title.  So no key is
    empty, and a [meta] tag named [title] replaces the title of the
    page. *)
Theorem extract_meta_info_lookup (title : option (option string))
    (tags : list MetaTag) (k : string) :
  extract_meta_info title tags !! k
  = match last_content k tags with
    | Some c => Some (Some c)
    | None => if bool_decide (k = "title") then title else None
    end
  /\ extract_meta_info title tags !! "" = None.
Proof.
  assert (forall k', extract_meta_info title tags !! k'
    = match last_content k' tags with
      | Some c => Some (Some c)
      | None => if bool_decide (k' = "title") then title else None
      end) as H.
  { intros k'. unfold extract_meta_info. cbv zeta. rewrite foldl_add_meta_lookup.
    destruct (last_content k' tags); [done|].
    destruct title as [t|].
    - destruct (decide (k' = "title")) as [->|Hne].
      + by rewrite bool_decide_true, lookup_singleton_eq.
      + by rewrite bool_decide_false, lookup_singleton_ne.
    - rewrite lookup_empty. by destruct (bool_decide _). }
  split; [apply H|]. rewrite H.
  destruct (last_content "" tags) as [c|] eqn:Hl; [|done]. exfalso.
  unfold last_content in Hl. apply fmap_Some in Hl as ([n c'] & Hlast & _).
  apply last_Some_elem_of in Hlast.
  apply list_elem_of_filter in Hlast as [Hn Hin]. simpl in Hn. subst n.
  apply list_elem_of_omap in Hin as (tag & _ & He). unfold meta_entry in He.
  destruct (py_or _ _) as [n|]; [|done]. destruct (mt_content tag); [|done].
  destruct (decide (n = "")) as [->|Hne]; [done|].
  rewrite (bool_decide_false _ Hne) in He. simpl in He.
  destruct (negb _); [|done]. by injection He as -> _.
Qed.

(** ** [format_size] *)

Lemma round_half_even_near (num den : Z) :
  (0 < den)%Z ->
  (2 * Z.abs (round_half_even num den * den - num) <= den)%Z.
Proof.
  intros Hden. unfold round_half_even. cbv zeta.
  pose proof (Z.div_mod num den ltac:(lia)) as Hdm.
  pose proof (Z.mod_pos_bound num den Hden) as Hr.
  destruct (Z.ltb_spec (2 * (num mod den)) den);
    [|destruct (Z.ltb_spec den (2 * (num mod den)));
      [|destruct (Z.even (num / den))]]; nia.
Qed.

Lemma round_half_even_tie (num den : Z) :
  (0 < den)%Z ->
  (2 * Z.abs (round_half_even num den * den - num) = den)%Z ->
  Z.even (round_half_even num den) = true.
Proof.
  intros Hden. unfold round_half_even. cbv zeta.
  pose proof (Z.div_mod num den ltac:(lia)) as Hdm.
  pose proof (Z.mod_pos_bound num den Hden) as Hr.
  destruct (Z.ltb_spec (2 * (num mod den)) den); [nia|].
  destruct (Z.ltb_spec den (2 * (num mod den))); [nia|].
  destruct (Z.even (num / den)) eqn:He; [done|]. intros _.
  by rewrite Z.even_add, He.
Qed.

Lemma round_half_even_exact (n : Z) : round_half_even n 1 = n.
Proof.
  unfold round_half_even. cbv zeta. rewrite Z.div_1_r, Z.mod_1_r. done.
Qed.

(** **X20.** For a size below [2^53], [format_size] divides by 1024 until
    the value is below 1024 (four times at most) and shows the value
    rounded to the nearest hundredth with the unit of the number of
    divisions: B, KB, MB, GB, TB; when the value lies halfway between two
    hundredths, the even one is shown.  A size below 1024 is shown exactly,
    with [.00]. *)
Theorem format_size_spec (n : Z) :
  (0 <= n < 2 ^ 53)%Z ->
  exists (k : nat) (h : Z),
    k <= 4
    /\ format_size n = show_hundredths h +:+ " " +:+ unit_name k
    /\ (2 * Z.abs (h * 1024 ^ Z.of_nat k - 100 * n) <= 1024 ^ Z.of_nat k)%Z
    /\ ((2 * Z.abs (h * 1024 ^ Z.of_nat k - 100 * n) = 1024 ^ Z.of_nat k)%Z ->
        Z.even h = true)
    /\ (0 < k -> (1024 ^ Z.of_nat k <= n)%Z)
    /\ (k < 4 -> (n < 1024 ^ Z.of_nat (S k))%Z)
    /\ (k = 0 -> h = (100 * n)%Z).
Proof.
  intros Hn. unfold format_size. simpl format_size_go.
  destruct (Z.ltb_spec n (1024 * 1)) as [H0|H0].
  { exists 0, (100 * n)%Z. unfold format_2f. rewrite round_half_even_exact.
    repeat split; simpl; lia. }
  destruct (Z.ltb_spec n (1024 * (1024 * 1))) as [H1|H1].
  { exists 1, (round_half_even (100 * n) (1024 * 1)).
    pose proof (round_half_even_near (100 * n) (1024 * 1) ltac:(lia)).
    pose proof (round_half_even_tie (100 * n) (1024 * 1) ltac:(lia)) as Htie.
    repeat split; simpl; first [lia | intros; apply Htie; lia]. }
  destruct (Z.ltb_spec n (1024 * (1024 * (1024 * 1)))) as [H2|H2].
  { exists 2, (round_half_even (100 * n) (1024 * (1024 * 1))).
    pose proof (round_half_even_near (100 * n) (1024 * (1024 * 1)) ltac:(lia)).
    pose proof (round_half_even_tie (100 * n) (1024 * (1024 * 1)) ltac:(lia))
      as Htie.
    repeat split; simpl; first [lia | intros; apply Htie; lia]. }
  destruct (Z.ltb_spec n (1024 * (1024 * (1024 * (1024 * 1))))) as [H3|H3].
  { exists 3, (round_half_even (100 * n) (1024 * (1024 * (1024 * 1)))).
    pose proof (round_half_even_near (100 * n) (1024 * (1024 * (1024 * 1)))
      ltac:(lia)).
    pose proof (round_half_even_tie (100 * n) (1024 * (1024 * (1024 * 1)))
      ltac:(lia)) as Htie.
    repeat split; simpl; first [lia | intros; apply Htie; lia]. }
  exists 4, (round_half_even (100 * n) (1024 * (1024 * (1024 * (1024 * 1))))).
  pose proof (round_half_even_near (100 * n) (1024 * (1024 * (1024 * (1024 * 1))))
    ltac:(lia)).
  pose proof (round_half_even_tie (100 * n) (1024 * (1024 * (1024 * (1024 * 1))))
    ltac:(lia)) as Htie.
  repeat split; simpl; first [lia | intros; apply Htie; lia].
Qed.

Lemma format_size_spec_witness :
  (0 <= 1152 < 2 ^ 53)%Z
  /\ format_size 1048575 = "1024.00 KB"
  /\ format_size 1152 = "1.12 KB"
  /\ format_size 512 = "512.00 B"
  /\ exists (k : nat) (h : Z),
       format_size 1152 = show_hundredths h +:+ " " +:+ unit_name k
       /\ (2 * Z.abs (h * 1024 ^ Z.of_nat k - 100 * 1152) <= 1024 ^ Z.of_nat k)%Z
       /\ ((2 * Z.abs (h * 1024 ^ Z.of_nat k - 100 * 1152) = 1024 ^ Z.of_nat k)%Z ->
           Z.even h = true).
Proof.
  assert (0 <= 1152 < 2 ^ 53)%Z as H by lia.
  split; [exact H|]. split; [vm_compute; reflexivity|].
  split; [vm_compute; reflexivity|]. split; [vm_compute; reflexivity|].
  destruct (format_size_spec 1152 H) as (k & h & _ & H1 & H2 & H3 & _).
  by exists k, h.
Defined.

(** ** The name of the download folder *)

Lemma break_at_left (p : ascii -> bool) (c : ascii) (s l r : string) :
  p c = true -> Py.break_at p s = (l, r) -> Py.contains c l = false.
Proof.
  intros Hc. revert l r. induction s as [|a s IH]; intros l r; simpl.
  - by intros [= <- <-].
  - destruct (p a) eqn:Hp; [by intros [= <- <-]|].
    destruct (Py.break_at p s) as [l' r'] eqn:Hb. intros [= <- <-]. simpl.
    rewrite (IH l' r' eq_refl).
    destruct (Ascii.eqb_spec a c) as [->|]; [congruence|done].
Qed.

Lemma netloc_no_slash (u : string) (r : Url.ParseResult) :
  Url.urlparse u = Ok r -> Py.contains "/" (Url.netloc r) = false.
Proof.
  intros (r0 & Hs & _ & ->)%urlparse_split. revert Hs. unfold Url.urlsplit.
  destruct (Url.split_scheme _) as [sch url1].
  destruct (Url.split_netloc url1) as [nl url2] eqn:Hnl.
  destruct (Url.check_netloc nl) as [_|]; [|done].
  destruct (Url.split_once "#" url2) as [url3 frag].
  destruct (Url.split_once "?" url3) as [url4 q]. intros [= <-]. simpl.
  revert Hnl. unfold Url.split_netloc.
  assert (forall x : string, (("", x) : string * string) = (nl, url2) ->
    Py.contains "/" nl = false) as Hnone by (by intros x [= <- _]).
  destruct url1 as [|a url1']; [apply Hnone|].
  destruct (Ascii.eqb_spec a "/") as [->|Ha].
  2:{ destruct a as [[] [] [] [] [] [] [] []]; first [apply Hnone | done]. }
  destruct url1' as [|b rest]; [apply Hnone|].
  destruct (Ascii.eqb_spec b "/") as [->|Hb].
  - by apply break_at_left.
  - destruct b as [[] [] [] [] [] [] [] []]; first [apply Hnone | done].
Qed.

Lemma legal_contains (c : ascii) (s : string) :
  is_illegal_char c = true -> legal_name s = true -> Py.contains c s = false.
Proof.
  intros Hc. unfold legal_name. induction s as [|a s IH]; [done|]. simpl.
  intros [Ha Hs]%andb_true_iff. rewrite (IH Hs).
  destruct (Ascii.eqb_spec a c) as [->|]; [|done]. by rewrite Hc in Ha.
Qed.

Lemma legal_pad2 (n : nat) : legal_name (pad2 n) = true.
Proof.
  unfold pad2. destruct (n <? 10); [|apply legal_pretty].
  unfold legal_name. rewrite all_chars_app. apply (legal_pretty n).
Qed.

Lemma legal_strftime (t : DateTime) : legal_name (strftime_compact t) = true.
Proof.
  unfold strftime_compact, legal_name. rewrite !all_chars_app.
  pose proof (legal_pretty (dt_year t)) as Hy. unfold legal_name in Hy. rewrite Hy.
  pose proof legal_pad2 as Hp. unfold legal_name in Hp. by rewrite !Hp.
Qed.

(** **X21.** A download folder that gets its name from the seed and the
    time (the option [folder_name] being empty) has a name without slash
    and without colon, so that the download directory is a direct child of
    the download path, also for a seed with a port. *)
Theorem default_folder_is_child (download_path seed : string) (t : DateTime)
    (dir : string) :
  download_dir_for download_path "" seed t = Ok dir ->
  exists name,
    folder_name_for "" seed t = Ok name
    /\ dir = Url.join download_path name
    /\ Url.join download_path name
       = (if bool_decide (download_path = "") || Py.endswith "/" download_path
          then download_path else download_path +:+ "/") +:+ name
    /\ name <> ""
    /\ Py.contains "/" name = false
    /\ Py.contains ":" name = false.
Proof.
  unfold download_dir_for.
  destruct (folder_name_for "" seed t) as [name|m] eqn:Hname; [|done].
  intros [= <-]. exists name. split; [done|]. split; [done|].
  revert Hname. unfold folder_name_for. simpl.
  destruct (Url.urlparse seed) as [parsed|m] eqn:Hp; [|done]. intros [= <-].
  pose proof (legal_strftime t) as Ht.
  assert (Py.contains "/" (Py.replace_char ":" "_" (Url.netloc parsed) +:+ "_"
            +:+ strftime_compact t) = false) as Hslash.
  { rewrite !contains_app, (legal_contains "/" _ eq_refl Ht), !orb_false_r.
    pose proof (netloc_no_slash _ _ Hp) as Hn. unfold Py.replace_char.
    induction (Url.netloc parsed) as [|c nl IH]; [done|]. simpl in *.
    destruct (Ascii.eqb_spec c "/") as [->|Hc]; [done|]. rewrite (IH Hn).
    destruct (Ascii.eqb_spec c ":") as [->|]; [done|].
    destruct (Ascii.eqb_spec c "/"); done. }
  split; [by apply join_relative, no_slash_head|].
  split.
  { apply app_not_empty. rewrite String_app. done. }
  split; [done|].
  rewrite !contains_app, (legal_contains ":" _ eq_refl Ht), !orb_false_r.
  by rewrite contains_replace_char.
Qed.

Lemma default_folder_is_child_witness :
  download_dir_for "downloads" "" "http://localhost:8080/app"
    {| dt_year := 2024; dt_month := 3; dt_day := 9; dt_hour := 14;
       dt_minute := 5; dt_second := 0 |}
    = Ok "downloads/localhost_8080_20240309_140500"
  /\ exists name,
       folder_name_for "" "http://localhost:8080/app"
         {| dt_year := 2024; dt_month := 3; dt_day := 9; dt_hour := 14;
            dt_minute := 5; dt_second := 0 |} = Ok name
       /\ Py.contains ":" name = false.
Proof.
  assert (download_dir_for "downloads" "" "http://localhost:8080/app"
    {| dt_year := 2024; dt_month := 3; dt_day := 9; dt_hour := 14;
       dt_minute := 5; dt_second := 0 |}
    = Ok "downloads/localhost_8080_20240309_140500") as H by (vm_compute; reflexivity).
  split; [exact H|].
  destruct (default_folder_is_child _ _ _ _ H) as (name & H1 & _ & _ & _ & _ & H6).
  by exists name.
Defined.

(** ** Why a run ends *)

Section Exit.
Context (w : World) (cfg : Config).

(** When the loop ends, the queue is empty, or the page limit is reached,
    or a read of [self.running] has seen [False]. *)
Lemma crawl_loop_exit (fuel : nat) (s s' : Worker) :
  crawl_loop w cfg fuel s = (Val tt, s') ->
  queue s' = []
  \/ (max_pages (options cfg) <= Z.of_nat (size (visited_urls s')))%Z
  \/ exists i, i < reads s' /\ running_at w i = false.
Proof.
  revert s. induction fuel as [|fuel IH]; intros s; [done|].
  simpl. unfold bind at 1, loop_test, bind at 1, get.
  destruct (queue s) as [|u rest] eqn:Hq.
  { intros [= <-]. by left. }
  unfold bind at 1, read_running, bind at 1, get, bind at 1, modify, bind at 1,
    emit, modify, ret.
  destruct (running_at w (reads s)) eqn:Hrun; simpl.
  2:{ intros [= <-]. right. right. exists (reads s). simpl. split; [lia|done]. }
  unfold bind at 1, get.
  destruct (Z.ltb_spec (Z.of_nat (size (visited_urls s))) (max_pages (options cfg)))
    as [Hlt|Hge]; simpl.
  2:{ intros [= <-]. right. left. simpl. lia. }
  unfold bind.
  destruct (loop_body w cfg _) as [[[]|e|] s2]; [|done..]. apply IH.
Qed.

End Exit.

(** **X22.** A run that is not stopped goes on until nothing is left to
    do: when it emits its result, the queue is empty or the number of
    visited URLs has reached [max_pages]. *)
Theorem run_result_means_done (w : World) (cfg : Config)
    (fs0 : gmap string FileData) :
  existsb is_result (log (run w cfg (init fs0)).2) = true ->
  queue (run w cfg (init fs0)).2 = []
  \/ (max_pages (options cfg)
      <= Z.of_nat (size (visited_urls (run w cfg (init fs0)).2)))%Z.
Proof.
  destruct (run_unfold w cfg fs0) as (s1 & Hun & Hloop & Hrun). rewrite Hrun.
  simpl. intros (e & He%list_elem_of_In & Hr)%existsb_exists.
  destruct (running_at w (reads s1)) eqn:Hb.
  - destruct (crawl_loop_exit w cfg _ _ _ Hloop) as [Hq|[Hmax|(i & Hi & Hoff)]];
      [by left | by right |].
    rewrite (running_at_mono w i (reads s1)) in Hb by (done || lia). done.
  - exfalso. apply elem_of_app in He as [He|He].
    + destruct (Hun _ He) as [_ Hn]. by rewrite Hn in Hr.
    + simpl in He. rewrite !elem_of_cons in He.
      destruct He as [->|[->|[->|[->|He]]]]; try discriminate Hr.
      by apply elem_of_nil in He.
Qed.

Lemma run_result_means_done_witness :
  existsb is_result (log (run demo_world single_page_cfg (init ∅)).2) = true
  /\ (queue (run demo_world single_page_cfg (init ∅)).2 = []
      \/ (max_pages (options single_page_cfg)
          <= Z.of_nat (size (visited_urls
                (run demo_world single_page_cfg (init ∅)).2)))%Z).
Proof.
  assert (existsb is_result (log (run demo_world single_page_cfg (init ∅)).2) = true)
    as H by (vm_compute; reflexivity).
  split; [exact H|].
  exact (run_result_means_done demo_world single_page_cfg ∅ H).
Defined.
